(** * PocketFlow-JS: the node/flow engine and the JSON compiler

    A shallow embedding of [index.js] (the classes [BaseNode], [Node],
    [BatchNode], [Flow], and the asynchronous classes as far as [run]
    reaches them) and of [compiler.js] ([PocketFlowCompiler] and the
    validation methods of [MetaAgentCreator]).

    Conventions of the embedding:
    - JavaScript values are the inductive [value]: numbers are integers,
      strings are ASCII, objects are association lists in insertion order.
      Values are trees, so two references to one object inside the shared
      context are two copies.
    - The values of a description and of the shared context are read by
      their own data properties.  A successor table and the registry of
      the compiler are object literals that the code reads under names
      its caller supplies: there a name of a member of [Object.prototype]
      ([toString], [constructor], [__proto__], ...) finds that member
      unless the object has an own property of the name, and the model
      says so.  An assignment to [__proto__] is not modelled in a value;
      in a successor table it is kept as the prototype of the table.
    - Node objects live in a store indexed by references, and a successor
      table is a store object of its own, so that the copies made by
      [Flow._orch] share it with the original as [{...node}] does.
    - A call ends as [outcome] says: with a value, with a thrown exception,
      or with one of the two ways the model gives up ([OutOfFuel] for the
      loops that need not terminate, [Unmodelled] for a construct outside
      the conventions above). *)

From stdpp Require Import gmap strings list pretty.
From Stdlib Require Import Strings.Ascii ZArith Lia.

Set Warnings "-register-all,-clear-no-such-hyp".
Local Open Scope string_scope.
Local Open Scope Z_scope.

(** ** JavaScript values *)

Inductive value :=
| VUndef
| VNull
| VBool (b : bool)
| VNum (n : Z)
| VStr (s : string)
| VArr (items : list value)
| VObj (fields : list (string * value))
| VFun (src : string).

Inductive error :=
| JsError (msg : string)
| JsTypeError (msg : string)
| JsThrown (v : value).

Inductive outcome (A : Type) :=
| Done (a : A)
| Throw (e : error)
| OutOfFuel
| Unmodelled.
Arguments Done {A} a.
Arguments Throw {A} e.
Arguments OutOfFuel {A}.
Arguments Unmodelled {A}.

Module Js.

(** [!!v]: every value is truthy except [undefined], [null], [false], [0]
    and the empty string. *)
Definition truthy (v : value) : bool :=
  match v with
  | VUndef | VNull => false
  | VBool b => b
  | VNum n => negb (n =? 0)
  | VStr s => negb (String.eqb s "")
  | VArr _ | VObj _ | VFun _ => true
  end.

(** [a || b] *)
Definition or_else (a b : value) : value := if truthy a then a else b.

(** [String(v)]: what [String.prototype.replace] does to the value its
    callback returns, and what a property key is converted with. *)
Fixpoint to_string (v : value) : string :=
  match v with
  | VUndef => "undefined"
  | VNull => "null"
  | VBool true => "true"
  | VBool false => "false"
  | VNum n => pretty n
  | VStr s => s
  | VArr l =>
      let elem x := match x with VUndef | VNull => "" | _ => to_string x end in
      (fix join (xs : list value) : string :=
         match xs with
         | [] => ""
         | [x] => elem x
         | x :: rest => elem x +:+ "," +:+ join rest
         end) l
  | VObj _ => "[object Object]"
  | VFun src => src
  end.

(** [v === undefined] *)
Definition is_undefined (v : value) : bool :=
  match v with VUndef => true | _ => false end.

Definition typeof_object (v : value) : bool :=
  match v with VNull | VArr _ | VObj _ => true | _ => false end.

(** Association lists keep the insertion order of an object's keys. *)
Fixpoint assoc_get (k : string) (fs : list (string * value)) : option value :=
  match fs with
  | [] => None
  | (k', v) :: rest => if String.eqb k k' then Some v else assoc_get k rest
  end.

Fixpoint assoc_set (k : string) (v : value) (fs : list (string * value))
  : list (string * value) :=
  match fs with
  | [] => [(k, v)]
  | (k', v') :: rest =>
      if String.eqb k k' then (k, v) :: rest else (k', v') :: assoc_set k v rest
  end.

(** The index a canonical numeric key denotes in an array of length [n]. *)
Definition index_of_key (k : string) (n : nat) : option nat :=
  List.find (fun i => String.eqb (pretty i) k) (seq 0 n).

(** [o?.[k]] on a value that is neither [undefined] nor [null]. *)
Definition get_own (o : value) (k : string) : value :=
  match o with
  | VObj fs => default VUndef (assoc_get k fs)
  | VArr l =>
      if String.eqb k "length" then VNum (Z.of_nat (length l))
      else match index_of_key k (length l) with
           | Some i => default VUndef (l !! i)
           | None => VUndef
           end
  | VStr s =>
      if String.eqb k "length" then VNum (Z.of_nat (String.length s))
      else match index_of_key k (String.length s) with
           | Some i => match String.get i s with
                       | Some c => VStr (String c "")
                       | None => VUndef
                       end
           | None => VUndef
           end
  | _ => VUndef
  end.

(** [o?.k] *)
Definition opt_get (o : value) (k : string) : value :=
  match o with
  | VUndef | VNull => VUndef
  | _ => get_own o k
  end.

(** [o.k]: reading a property of [undefined] or [null] is a [TypeError]. *)
Definition get (o : value) (k : string) : outcome value :=
  match o with
  | VUndef | VNull => Throw (JsTypeError "Cannot read properties of undefined or null")
  | _ => Done (get_own o k)
  end.

(** [k in o] *)
Definition has (k : string) (o : value) : outcome bool :=
  match o with
  | VObj fs => Done (bool_decide (is_Some (assoc_get k fs)))
  | VArr l =>
      Done (String.eqb k "length" || bool_decide (is_Some (index_of_key k (length l))))
  | VFun _ => Unmodelled
  | _ => Throw (JsTypeError "Cannot use 'in' operator to search for a key in a primitive")
  end.

(** [o[k] = v] in strict code (class bodies are strict).  An assignment to
    [__proto__] sets the prototype of [o] or is ignored; the model gives
    up there. *)
Definition set (o : value) (k : string) (v : value) : outcome value :=
  match o with
  | VObj fs =>
      if String.eqb k "__proto__" then Unmodelled else Done (VObj (assoc_set k v fs))
  | VArr l =>
      match index_of_key k (S (length l)) with
      | Some i => Done (VArr (if decide (i < length l)%nat then <[i:=v]> l else l ++ [v]))
      | None => Unmodelled
      end
  | VFun _ => Unmodelled
  | _ => Throw (JsTypeError "Cannot create property on a primitive")
  end.

(** [SameValueZero], the key equality of [Map] and [Set] and of
    [Array.prototype.includes]: objects are compared by identity, and two
    values read from a description are never the same object. *)
Definition same_value_zero (a b : value) : bool :=
  match a, b with
  | VUndef, VUndef | VNull, VNull => true
  | VBool x, VBool y => bool_decide (x = y)
  | VNum x, VNum y => x =? y
  | VStr x, VStr y => String.eqb x y
  | _, _ => false
  end.

(** The names of the members of [Object.prototype].  An object literal
    inherits them: read under such a name, it yields the member unless it
    has an own property of that name.  All of them are functions but
    [__proto__], which is [Object.prototype] itself. *)
Definition object_members : list string :=
  ["constructor"; "__defineGetter__"; "__defineSetter__"; "hasOwnProperty";
   "__lookupGetter__"; "__lookupSetter__"; "isPrototypeOf"; "propertyIsEnumerable";
   "toString"; "valueOf"; "__proto__"; "toLocaleString"].
Definition inherited (k : string) : bool := existsb (String.eqb k) object_members.

End Js.

(** ** A state-and-exception monad

    [M S A] is a computation over a store [S] that ends like a JavaScript
    call does: with a value, or with a thrown exception. *)

Definition M (S A : Type) : Type := S → outcome A * S.

Definition ret {S A} (a : A) : M S A := λ s, (Done a, s).

Definition bind {S A B} (m : M S A) (k : A → M S B) : M S B :=
  λ s, match m s with
       | (Done a, s') => k a s'
       | (Throw e, s') => (Throw e, s')
       | (OutOfFuel, s') => (OutOfFuel, s')
       | (Unmodelled, s') => (Unmodelled, s')
       end.

Definition throw {S A} (e : error) : M S A := λ s, (Throw e, s).
Definition out_of_fuel {S A} : M S A := λ s, (OutOfFuel, s).
Definition unmodelled {S A} : M S A := λ s, (Unmodelled, s).
Definition of_outcome {S A} (o : outcome A) : M S A := λ s, (o, s).

(** [try { m } catch (e) { h e }] *)
Definition try_catch {S A} (m : M S A) (h : error → M S A) : M S A :=
  λ s, match m s with
       | (Throw e, s') => h e s'
       | r => r
       end.

Definition gets {S A} (f : S → A) : M S A := λ s, (Done (f s), s).
Definition modify {S} (f : S → S) : M S unit := λ s, (Done tt, f s).

Declare Scope js_scope.
Delimit Scope js_scope with js.
Notation "'let!' x ':=' m 'in' k" := (bind m (λ x, k))
  (at level 10, x pattern, m at level 100, k at level 200) : js_scope.
Notation "m ';;' k" := (bind m (λ _, k))
  (at level 100, k at level 200, right associativity) : js_scope.
Local Open Scope js_scope.

(** ** The engine of [index.js] *)

Abbreviation ref := positive.

Inductive node_class :=
| CNode | CBatchNode | CFlow
| CAsyncNode | CAsyncBatchNode | CAsyncParallelBatchNode
| CAsyncFlow | CAsyncBatchFlow.

(** [x instanceof AsyncNode], [x instanceof BatchNode], ... *)
Definition instanceof_AsyncNode (c : node_class) : bool :=
  match c with
  | CAsyncNode | CAsyncBatchNode | CAsyncParallelBatchNode => true
  | _ => false
  end.
Definition instanceof_BatchNode (c : node_class) : bool :=
  match c with CBatchNode => true | _ => false end.
Definition instanceof_AsyncBatchNode (c : node_class) : bool :=
  match c with CAsyncBatchNode => true | _ => false end.
Definition instanceof_Flow (c : node_class) : bool :=
  match c with CFlow | CAsyncFlow | CAsyncBatchFlow => true | _ => false end.

(** What the run leaves behind for an observer: which registered node each
    hop copied, each call of an execute stage, each inter-attempt delay and
    each call of a fallback hook. *)
Inductive event :=
| EvVisit (r : ref)
| EvExec (prepRes : value)
| EvSleep (ms : Z)
| EvFallback (prepRes : value) (e : error).

(** The labels of the engine: a string, or a false value, which stands for
    "default". *)
Definition is_label (a : value) : bool :=
  match a with
  | VStr _ => true
  | other => negb (Js.truthy other)
  end.

(** What a successor table yields under a name: nothing, a node, or a
    member of [Object.prototype], which is a value but no node. *)
Inductive successor :=
| NoSuccessor
| Successor (r : ref)
| Member.

(** [successors[key]] on a table made by [this.successors = {}].  When
    [next] has given the table a node as its prototype, a name that is no
    own property is looked up on that node, which the model leaves out. *)
Definition find_successor (table : gmap string ref) (key : string) : outcome successor :=
  match table !! key with
  | Some r => Done (Successor r)
  | None =>
      match table !! "__proto__" with
      | Some _ => Unmodelled
      | None => Done (if Js.inherited key then Member else NoSuccessor)
      end
  end.

Section Engine.

(** The state of the external collaborators (LLM, HTTP, ...). *)
Context {W : Type}.

(** What the stages of a node can reach: the shared context handed to
    [run] and the collaborators.  The stages of this repository are closed
    over a node description and the compiler; none holds a node object. *)
Record env := { shared : value; world : W }.

(** A node object.  The lifecycle stages receive [this.params] first;
    [exec_async] tells whether [exec] is an [async] function, whose throw
    rejects the promise it returns instead of unwinding the caller. *)
Record node := {
  class : node_class;
  params : value;
  successors : ref;
  maxRetries : Z;
  wait : Z;
  curRetry : Z;
  startNode : option ref;
  prep : value → M env value;
  exec : value → value → M env value;
  exec_async : bool;
  execFallback : value → value → error → M env value;
  post : value → value → value → M env value
}.

(** The object store: node objects, successor tables, the shared context
    and the collaborators, and the observer's log. *)
Record state := {
  nodes : gmap ref node;
  tables : gmap ref (gmap string ref);
  outer : env;
  log : list event
}.

Definition with_nodes (f : gmap ref node → gmap ref node) (s : state) : state :=
  {| nodes := f (nodes s); tables := tables s; outer := outer s; log := log s |}.
Definition with_tables (f : gmap ref (gmap string ref) → gmap ref (gmap string ref))
    (s : state) : state :=
  {| nodes := nodes s; tables := f (tables s); outer := outer s; log := log s |}.
Definition emit (ev : event) : M state unit :=
  modify (λ s, {| nodes := nodes s; tables := tables s; outer := outer s;
                  log := log s ++ [ev] |}).

(** Running a stage: it sees and changes [outer] only. *)
Definition stage {A} (m : M env A) : M state A :=
  λ s, let '(r, e') := m (outer s) in
       (r, {| nodes := nodes s; tables := tables s; outer := e'; log := log s |}).

Definition read (this : ref) : M state node :=
  λ s, match nodes s !! this with
       | Some nd => (Done nd, s)
       | None => (Unmodelled, s)
       end.

Definition write (this : ref) (f : node → node) : M state unit :=
  let! nd := read this in modify (with_nodes <[this := f nd]>).

Definition set_params (v : value) (nd : node) : node :=
  {| class := class nd; params := v; successors := successors nd;
     maxRetries := maxRetries nd; wait := wait nd; curRetry := curRetry nd;
     startNode := startNode nd; prep := prep nd; exec := exec nd;
     exec_async := exec_async nd; execFallback := execFallback nd; post := post nd |}.
Definition set_curRetry (i : Z) (nd : node) : node :=
  {| class := class nd; params := params nd; successors := successors nd;
     maxRetries := maxRetries nd; wait := wait nd; curRetry := i;
     startNode := startNode nd; prep := prep nd; exec := exec nd;
     exec_async := exec_async nd; execFallback := execFallback nd; post := post nd |}.
Definition set_startNode (r : option ref) (nd : node) : node :=
  {| class := class nd; params := params nd; successors := successors nd;
     maxRetries := maxRetries nd; wait := wait nd; curRetry := curRetry nd;
     startNode := r; prep := prep nd; exec := exec nd;
     exec_async := exec_async nd; execFallback := execFallback nd; post := post nd |}.

(** *** class BaseNode *)

(** [setParams(params) { this.params = params; }] *)
Definition setParams (this : ref) (p : value) : M state unit :=
  write this (set_params p).

(** [next(node, action = "default")]: the entry under [action] is
    (over)written in the table [this.successors] refers to.  Under the
    name [__proto__] the assignment makes [node] the prototype of the
    table instead of an own property: the entry under that name stands
    for this prototype, and [find_successor] reads it so. *)
Definition next (this target : ref) (action : string) : M state ref :=
  let! nd := read this in
  modify (with_tables (λ ts,
    <[successors nd := <[action := target]> (default ∅ (ts !! successors nd))]> ts));;
  ret target.

(** The default stages: [prep(shared) {}], [exec(prepRes) {}],
    [post(shared, prepRes, execRes) {}] and, in class [Node],
    [execFallback(prepRes, exc) { throw exc; }]. *)
Definition default_prep : value → M env value := λ _, ret VUndef.
Definition default_exec : value → value → M env value := λ _ _, ret VUndef.
Definition default_post : value → value → value → M env value := λ _ _ _, ret VUndef.
Definition default_execFallback : value → value → error → M env value :=
  λ _ _ exc, throw exc.
(** Class [Flow] overrides [post]: [post(shared, prepRes, execRes) { return execRes; }] *)
Definition Flow_post : value → value → value → M env value := λ _ _ execRes, ret execRes.

(** Allocation never returns a live reference. *)
Definition alloc_node (nd : node) : M state ref :=
  λ s, let r := fresh (dom (nodes s)) in (Done r, with_nodes <[r := nd]> s).
Definition alloc_table : M state ref :=
  λ s, let r := fresh (dom (tables s)) in (Done r, with_tables <[r := ∅]> s).

(** [new C(maxRetries, wait)] for the node classes, [new C()] for the flow
    classes: [params = {}], [successors = {}], [curRetry = 0],
    [startNode = null]. *)
Definition new_object (c : node_class) (max w : Z) : M state ref :=
  let! t := alloc_table in
  alloc_node {| class := c; params := VObj []; successors := t;
                maxRetries := max; wait := w; curRetry := 0; startNode := None;
                prep := default_prep; exec := default_exec; exec_async := false;
                execFallback := default_execFallback;
                post := if instanceof_Flow c then Flow_post else default_post |}.

(** [{ ...node }] followed by [Object.setPrototypeOf]: a new object with
    the same own properties, so the same table behind [successors]. *)
Definition clone (r : ref) : M state ref :=
  let! nd := read r in alloc_node nd.

(** *** class Node: the retry loop of [_exec] *)

Fixpoint retry_loop (fuel : nat) (this : ref) (prepRes : value) : M state value :=
  match fuel with
  | O => out_of_fuel
  | S fuel' =>
      let! nd := read this in
      if curRetry nd <? maxRetries nd then
        emit (EvExec prepRes);;
        try_catch (stage (exec nd (params nd) prepRes)) (λ e,
          let! nd := read this in
          if curRetry nd =? maxRetries nd - 1 then
            emit (EvFallback prepRes e);;
            stage (execFallback nd (params nd) prepRes e)
          else
            (if 0 <? wait nd then emit (EvSleep (wait nd * 1000)) else ret tt);;
            write this (set_curRetry (curRetry nd + 1));;
            retry_loop fuel' this prepRes)
      else ret VUndef
  end.

Definition Node_exec (this : ref) (prepRes : value) : M state value :=
  write this (set_curRetry 0);;
  let! nd := read this in
  retry_loop (S (Z.to_nat (maxRetries nd))) this prepRes.

(** *** class BatchNode: [Promise.all(items.map(item => super._exec(item)))]

    Every element gets its own activation of [Node._exec], all on the same
    object, hence on the same [curRetry].  [map] starts the activations in
    collection order; each runs until its first [await] and is resumed from
    the job queue in the order in which the awaited promises settled.  A
    delay is a timer: timers of one node have one duration, so they fire in
    the order they were set, each after the job queue has drained. *)

Inductive point :=
| AtCheck                (* the loop test [curRetry < maxRetries] *)
| AtCatch (e : error)    (* the [catch] block *)
| AtIncr.                (* [curRetry++] *)

Inductive pending :=
| AwaitExec (r : value + error)
| AwaitFallback (v : value)
| AwaitTimer.

Inductive segment_end :=
| Suspend (job : bool) (pd : pending)
| Settle (r : value + error).

Record activation := { t_index : nat; t_item : value; t_pending : pending }.

Record scheduler := {
  jobs : list activation;
  timers : list activation;
  fulfilled : list (nat * value);
  rejected : option error
}.

(** One activation, from a program point to its next [await] or its end. *)
Fixpoint segment (fuel : nat) (this : ref) (item : value) (pt : point)
  : M state segment_end :=
  match fuel with
  | O => out_of_fuel
  | S fuel' =>
      match pt with
      | AtCheck =>
          let! nd := read this in
          if curRetry nd <? maxRetries nd then
            emit (EvExec item);;
            λ s, match stage (exec nd (params nd) item) s with
                 | (Done v, s') => (Done (Suspend true (AwaitExec (inl v))), s')
                 | (Throw e, s') =>
                     if exec_async nd
                     then (Done (Suspend true (AwaitExec (inr e))), s')
                     else segment fuel' this item (AtCatch e) s'
                 | (OutOfFuel, s') => (OutOfFuel, s')
                 | (Unmodelled, s') => (Unmodelled, s')
                 end
          else ret (Settle (inl VUndef))
      | AtCatch e =>
          let! nd := read this in
          if curRetry nd =? maxRetries nd - 1 then
            emit (EvFallback item e);;
            try_catch
              (let! v := stage (execFallback nd (params nd) item e) in
               ret (Suspend true (AwaitFallback v)))
              (λ e', ret (Settle (inr e')))
          else if 0 <? wait nd then
            emit (EvSleep (wait nd * 1000));;
            ret (Suspend false AwaitTimer)
          else segment fuel' this item AtIncr
      | AtIncr =>
          let! nd := read this in
          write this (set_curRetry (curRetry nd + 1));;
          segment fuel' this item AtCheck
      end
  end.

Definition absorb (sch : scheduler) (i : nat) (item : value) (se : segment_end)
  : scheduler :=
  match se with
  | Suspend true pd =>
      {| jobs := jobs sch ++ [{| t_index := i; t_item := item; t_pending := pd |}];
         timers := timers sch; fulfilled := fulfilled sch; rejected := rejected sch |}
  | Suspend false pd =>
      {| jobs := jobs sch;
         timers := timers sch ++ [{| t_index := i; t_item := item; t_pending := pd |}];
         fulfilled := fulfilled sch; rejected := rejected sch |}
  | Settle (inl v) =>
      {| jobs := jobs sch; timers := timers sch;
         fulfilled := fulfilled sch ++ [(i, v)]; rejected := rejected sch |}
  | Settle (inr e) =>
      {| jobs := jobs sch; timers := timers sch; fulfilled := fulfilled sch;
         rejected := match rejected sch with Some e0 => Some e0 | None => Some e end |}
  end.

(** [items.map(item => super._exec(item))] *)
Fixpoint launch (fuel : nat) (this : ref) (items : list value) (i : nat)
    (sch : scheduler) : M state scheduler :=
  match items with
  | [] => ret sch
  | item :: rest =>
      write this (set_curRetry 0);;
      let! se := segment fuel this item AtCheck in
      launch fuel this rest (S i) (absorb sch i item se)
  end.

Definition resume (fuel : nat) (this : ref) (t : activation) : M state segment_end :=
  match t_pending t with
  | AwaitExec (inl v) => ret (Settle (inl v))
  | AwaitExec (inr e) => segment fuel this (t_item t) (AtCatch e)
  | AwaitFallback v => ret (Settle (inl v))
  | AwaitTimer => segment fuel this (t_item t) AtIncr
  end.

(** The event loop until nothing is left to resume. *)
Fixpoint drain (fuel : nat) (this : ref) (sch : scheduler) : M state scheduler :=
  match fuel with
  | O => out_of_fuel
  | S fuel' =>
      match jobs sch, timers sch with
      | t :: rest, _ =>
          let! se := resume fuel' this t in
          drain fuel' this
            (absorb {| jobs := rest; timers := timers sch;
                       fulfilled := fulfilled sch; rejected := rejected sch |}
                    (t_index t) (t_item t) se)
      | [], t :: rest =>
          let! se := resume fuel' this t in
          drain fuel' this
            (absorb {| jobs := []; timers := rest;
                       fulfilled := fulfilled sch; rejected := rejected sch |}
                    (t_index t) (t_item t) se)
      | [], [] => ret sch
      end
  end.

(** The values of the fulfilled promises, in input order. *)
Definition gather (n : nat) (done : list (nat * value)) : list value :=
  omap (λ i, snd <$> List.find (λ p, Nat.eqb (fst p) i) done) (seq 0 n).

(** [(items || []).map]: only an array has [map] among the values of the
    model. *)
Definition items_of (v : value) : outcome (list value) :=
  if Js.truthy v then
    match v with
    | VArr l => Done l
    | _ => Throw (JsTypeError "(items || []).map is not a function")
    end
  else Done [].

Definition batch_fuel (n : nat) (max : Z) : nat :=
  (2 * (n + 1) * (Z.to_nat max + 2))%nat.

Definition BatchNode_exec (this : ref) (items : value) : M state value :=
  let! l := of_outcome (items_of items) in
  let! nd := read this in
  let fuel := batch_fuel (length l) (maxRetries nd) in
  let! sch := launch fuel this l 0
                {| jobs := []; timers := []; fulfilled := []; rejected := None |} in
  let! sch := drain fuel this sch in
  match rejected sch with
  | Some e => throw e
  | None => ret (VArr (gather (length l) (fulfilled sch)))
  end.

(** *** class Flow *)

(** [getNextNode(curr, action)]: [curr.successors[action || "default"]] *)
Definition getNextNode (curr : ref) (action : value) : M state successor :=
  let! nd := read curr in
  let key := Js.to_string (Js.or_else action (VStr "default")) in
  let! table := gets (λ s, default ∅ (tables s !! successors nd)) in
  of_outcome (find_successor table key).

(** [{ ...this.params }] *)
Definition spread (v : value) : value :=
  match v with
  | VObj fs => VObj fs
  | VArr l => VObj (zip_with (λ i x, (pretty i, x)) (seq 0 (length l)) l)
  | VStr s => VObj (zip_with (λ i c, (pretty i, VStr (String c "")))
                             (seq 0 (String.length s)) (String.list_ascii_of_string s))
  | _ => VObj []
  end.

(** [_exec] as the object's class resolves it: [Node._exec],
    [BatchNode._exec], and for the flow classes [BaseNode._exec], which is
    [return this.exec(prepRes)].  The asynchronous node classes run
    [execAsync], which [run] never reaches. *)
Definition _exec (this : ref) (prepRes : value) : M state value :=
  let! nd := read this in
  match class nd with
  | CNode => Node_exec this prepRes
  | CBatchNode => BatchNode_exec this prepRes
  | CFlow | CAsyncFlow | CAsyncBatchFlow => stage (exec nd (params nd) prepRes)
  | CAsyncNode | CAsyncBatchNode | CAsyncParallelBatchNode => unmodelled
  end.

(** [BaseNode._run] for the classes that inherit it, [Flow._run] for the
    flow classes (none of them overrides it), and [AsyncNode._run]. *)
Definition _run_with (orch : ref → value → M state value) (this : ref)
  : M state value :=
  let! nd := read this in
  match class nd with
  | CNode | CBatchNode =>
      let! p := stage (prep nd (params nd)) in
      let! e := _exec this p in
      let! nd := read this in
      stage (post nd (params nd) p e)
  | CFlow | CAsyncFlow | CAsyncBatchFlow =>
      let! p := stage (prep nd (params nd)) in
      let! e := orch this VNull in
      let! nd := read this in
      stage (post nd (params nd) p e)
  | CAsyncNode | CAsyncBatchNode | CAsyncParallelBatchNode =>
      throw (JsError "Use runAsync.")
  end.

(** The head of [_orch]: copy the start node, fix the parameters. *)
Definition _orch_with (loop : ref → value → M state value) (this : ref)
    (params_arg : value) : M state value :=
  let! fl := read this in
  match startNode fl with
  | None => throw (JsTypeError "Cannot convert undefined or null to object")
  | Some start =>
      let! curr := clone start in
      emit (EvVisit start);;
      let p := if Js.truthy params_arg then params_arg else spread (params fl) in
      loop curr p
  end.

(** The [while (curr)] loop of [_orch].  The copy [{ ...nextNode }] of a
    member of [Object.prototype] has no own property, and its prototype is
    the member's: [curr.setParams(p)] finds no method to call. *)
Definition not_a_node : error := JsTypeError "curr.setParams is not a function".

Fixpoint orch_loop (fuel : nat) (curr : ref) (p : value) : M state value :=
  match fuel with
  | O => out_of_fuel
  | S fuel' =>
      setParams curr p;;
      let! lastAction := _run_with (_orch_with (orch_loop fuel')) curr in
      let! nextNode := getNextNode curr lastAction in
      match nextNode with
      | Successor nxt =>
          let! curr' := clone nxt in
          emit (EvVisit nxt);;
          orch_loop fuel' curr' p
      | Member => throw not_a_node
      | NoSuccessor => ret lastAction
      end
  end.

Definition _orch (fuel : nat) : ref → value → M state value :=
  _orch_with (orch_loop fuel).
Definition _run (fuel : nat) : ref → M state value :=
  _run_with (_orch fuel).

(** [run(shared)] *)
Definition run (fuel : nat) (this : ref) : M state value := _run fuel this.

(** [start(start) { this.startNode = start; return start; }] *)
Definition start (this : ref) (r : ref) : M state ref :=
  write this (set_startNode (Some r));; ret r.

End Engine.

(** ** Observations on a run *)

Section Observations.
Context {W : Type}.

(** The errors of [n] consecutive failing calls of a stage, and the
    collaborators' state after them. *)
Fixpoint attempts (call : M (@env W) value) (n : nat) (σ : env) : list error * env :=
  match n with
  | O => ([], σ)
  | S n' =>
      match call σ with
      | (Throw e, σ') => let '(es, σ'') := attempts call n' σ' in (e :: es, σ'')
      | (_, σ') => ([], σ')
      end
  end.

(** What an observer sees of failing attempts with errors [es]: the calls
    of the execute stage, a delay after each but the last when the node has
    a positive [wait], and the fallback hook last. *)
Fixpoint failing_trace (prepRes : value) (w : Z) (es : list error) : list event :=
  match es with
  | [] => []
  | [e] => [EvExec prepRes; EvFallback prepRes e]
  | _ :: rest =>
      EvExec prepRes :: (if 0 <? w then [EvSleep (w * 1000)] else [])
        ++ failing_trace prepRes w rest
  end.

Definition is_exec (ev : event) : bool :=
  match ev with EvExec _ => true | _ => false end.
Definition is_sleep (ev : event) : bool :=
  match ev with EvSleep _ => true | _ => false end.
Definition is_fallback (ev : event) : bool :=
  match ev with EvFallback _ _ => true | _ => false end.
Definition count (p : event → bool) (evs : list event) : nat :=
  length (List.filter p evs).

Definition always_throws (call : M (@env W) value) : Prop :=
  ∀ σ, ∃ e σ', call σ = (Throw e, σ').

(** [traverses p fuel c s fuel' c' s']: the loop of [_orch], entered with
    the copy [c] in store [s], comes back to its head with the copy [c'] in
    store [s'] after zero or more hops. *)
Inductive traverses (p : value) : nat → ref → @state W → nat → ref → @state W → Prop :=
| traverses_here fuel c s : traverses p fuel c s fuel c s
| traverses_hop fuel c s a s1 nxt c1 s2 fuel' c' s' :
    (setParams c p;; _run_with (_orch_with (orch_loop fuel)) c) s = (Done a, s1) →
    getNextNode c a s1 = (Done (Successor nxt), s1) →
    (let! c1 := clone nxt in emit (EvVisit nxt);; ret c1) s1 = (Done c1, s2) →
    traverses p fuel c1 s2 fuel' c' s' →
    traverses p (S fuel) c s fuel' c' s'.

(** [unchanged N0 T0 s]: the node objects [N0] and the successor tables
    [T0] registered before a run are in [s] as they were.  [keeps N0 T0 m Q]:
    the computation [m] leaves them so, and [Q] holds of what it returns. *)
Definition unchanged (N0 : gmap ref (@node W)) (T0 : gmap ref (gmap string ref))
    (s : @state W) : Prop :=
  (∀ x nd, N0 !! x = Some nd → nodes s !! x = Some nd) ∧ tables s = T0.

Definition keeps (N0 : gmap ref (@node W)) (T0 : gmap ref (gmap string ref))
    {A} (m : M (@state W) A) (Q : A → Prop) : Prop :=
  ∀ s, unchanged N0 T0 s → unchanged N0 T0 (m s).2 ∧ ∀ a, (m s).1 = Done a → Q a.

(** The lifecycle writes to its receiver only when the receiver is a node:
    a registered flow object can be run as it is, a registered node cannot. *)
Definition runnable (N0 : gmap ref (@node W)) (this : ref) : Prop :=
  N0 !! this = None ∨ ∃ fl, N0 !! this = Some fl ∧ instanceof_Flow (class fl) = true.

End Observations.

(** ** Strings as [compiler.js] uses them *)

Module Str.

(** The class [\s] on ASCII: blank, tab, line feed, vertical tab, form
    feed, carriage return. *)
Definition is_space (c : Ascii.ascii) : bool :=
  let n := Ascii.nat_of_ascii c in
  (Nat.eqb n 32 || (Nat.leb 9 n && Nat.leb n 13))%bool.

Definition is_brace (c : Ascii.ascii) : bool := Ascii.eqb c "}"%char.

(** The longest prefix whose characters satisfy [p], and the rest. *)
Fixpoint span (p : Ascii.ascii → bool) (s : string) : string * string :=
  match s with
  | String c s' =>
      if p c then let '(a, b) := span p s' in (String c a, b) else ("", s)
  | EmptyString => ("", "")
  end.

Fixpoint last_char (s : string) : option Ascii.ascii :=
  match s with
  | EmptyString => None
  | String c EmptyString => Some c
  | String _ s' => last_char s'
  end.

Fixpoint all (p : Ascii.ascii → bool) (s : string) : bool :=
  match s with
  | EmptyString => true
  | String c s' => (p c && all p s')%bool
  end.

Definition starts_blank (s : string) : bool :=
  match s with
  | String c _ => is_space c
  | EmptyString => false
  end.

(** [s.includes('.')] *)
Fixpoint includes_dot (s : string) : bool :=
  match s with
  | EmptyString => false
  | String c s' => (Ascii.eqb c "."%char || includes_dot s')%bool
  end.

(** [s.split('.')] *)
Fixpoint split_dot (s : string) : list string :=
  match s with
  | EmptyString => [""]
  | String c s' =>
      if Ascii.eqb c "."%char then "" :: split_dot s'
      else match split_dot s' with
           | w :: ws => String c w :: ws
           | [] => [String c ""]
           end
  end.

(** [s.slice(5, -1)] *)
Definition slice_5_m1 (s : string) : string :=
  String.substring 5 (String.length s - 6) s.

(** One attempt of [/\{\{\s*([^}]+)\s*\}\}/] at the head of [s]: the
    matched text, the captured group and what follows the match.  The
    greedy [[^}]+] runs up to the next [}], so the trailing [\s*] is empty;
    when only blanks stand between the braces, backtracking leaves the
    last blank to the group. *)
Definition match_placeholder (s : string) : option (string * string * string) :=
  match s with
  | String "{" (String "{" s1) =>
      let '(blanks, s2) := span is_space s1 in
      let '(body, s3) := span (λ c, negb (is_brace c)) s2 in
      match s3 with
      | String "}" (String "}" rest) =>
          match body, last_char blanks with
          | String _ _, _ => Some ("{{" +:+ blanks +:+ body +:+ "}}", body, rest)
          | EmptyString, Some c => Some ("{{" +:+ blanks +:+ "}}", String c "", rest)
          | EmptyString, None => None
          end
      | _ => None
      end
  | _ => None
  end.

(** [s.replace(/.../g, callback)]: [skip] characters of an earlier match are
    still to be passed over. *)
Fixpoint replace_placeholders (callback : string → string → string) (skip : nat)
    (s : string) : string :=
  match s with
  | EmptyString => ""
  | String c s' =>
      match skip with
      | S k => replace_placeholders callback k s'
      | O =>
          match match_placeholder s with
          | Some (m, expr, _) =>
              callback m expr +:+ replace_placeholders callback (String.length m - 1) s'
          | None => String c (replace_placeholders callback O s')
          end
      end
  end.

(** [/^pf-js\/\d+\.\d+$/.test(s)] *)
Definition is_digit (c : Ascii.ascii) : bool :=
  let n := Ascii.nat_of_ascii c in (Nat.leb 48 n && Nat.leb n 57)%bool.

Definition is_version (s : string) : bool :=
  if String.prefix "pf-js/" s then
    let '(major, r1) := span is_digit (String.substring 6 (String.length s - 6) s) in
    match r1 with
    | String "." r2 =>
        let '(minor, r3) := span is_digit r2 in
        (negb (String.eqb major "") && negb (String.eqb minor "") && String.eqb r3 "")%bool
    | _ => false
    end
  else false.

End Str.

(** Computations that can throw but have no store. *)
Definition obind {A B} (o : outcome A) (k : A → outcome B) : outcome B :=
  match o with
  | Done a => k a
  | Throw e => Throw e
  | OutOfFuel => OutOfFuel
  | Unmodelled => Unmodelled
  end.
Notation "'let?' x ':=' o 'in' k" := (obind o (λ x, k))
  (at level 10, x pattern, o at level 100, k at level 200) : js_scope.

(** [for (const x of v)]: arrays and strings are the iterables of the
    model. *)
Definition iterate (v : value) : outcome (list value) :=
  match v with
  | VArr l => Done l
  | VStr s => Done ((λ c, VStr (String c "")) <$> String.list_ascii_of_string s)
  | _ => Throw (JsTypeError "value is not iterable")
  end.

(** What the host gives the compiler: [new Function('ctx', 'result',
    `return (${expr})`)(ctx, result)], taken to be free of side effects,
    and [JSON.stringify]. *)
Record host := {
  js_function : string → value → value → value + error;
  JSON_stringify : value → value + error
}.

Section Compiler.
Context {W : Type}.

(** The answer of [fetch]: the status, what [response.json()] settles
    with, and [Object.fromEntries(response.headers.entries())]. *)
Record response := { status : value; json : value + error; headers : value }.

(** A [PocketFlowCompiler]: the host, [this.env] as far as the factories
    read it, the global [fetch], and [this.registry], which callers may
    extend. *)
Record PocketFlowCompiler := {
  the_host : host;
  llm : option (value → M (@env W) value);
  globals : value;
  fetch : value → value → M (@env W) response;
  registry : gmap string (value → M (@state W) ref)
}.

Section Evaluator.
Variable H : host.

(** [getNestedProperty(obj, path)] *)
Definition getNestedProperty (obj : value) (path : string) : value :=
  fold_left
    (λ current key,
       if (Js.truthy current &&
           negb (Js.is_undefined (Js.get_own current key)))%bool
       then Js.get_own current key else VUndef)
    (Str.split_dot path) obj.

Definition evalContext_of (ctx result : value) : list (string * value) :=
  [("ctx", Js.or_else ctx (VObj []));
   ("result", Js.or_else result (VObj []));
   ("json", VFun "(obj) => JSON.stringify(obj)");
   ("stringify", VFun "(obj) => JSON.stringify(obj)");
   ("parse", VFun "(str) => JSON.parse(str)")].

(** [evaluateExpression(expr, context)] *)
Definition evaluateExpression (expr : string) (context : value) : outcome value :=
  let? ctx := Js.get context "ctx" in
  let? result := Js.get context "result" in
  let evalContext := evalContext_of ctx result in
  if Str.includes_dot expr then Done (getNestedProperty (VObj evalContext) expr)
  else
    match Js.assoc_get expr evalContext with
    | Some v => Done v
    | None =>
        match js_function H expr ctx result with
        | inl v => Done v
        | inr _ => Done (VStr expr)
        end
    end.

(** The callback that [interpolate] hands to [replace]. *)
Definition replacement (context : value) (m expr : string) : string :=
  let body : outcome value :=
    if String.prefix "json(" expr then
      let inner := Str.slice_5_m1 expr in
      let? result := evaluateExpression inner context in
      match JSON_stringify H result with
      | inl v => Done v
      | inr e => Throw e
      end
    else evaluateExpression expr context in
  match body with
  | Done v => Js.to_string v
  | _ => m
  end.

(** [interpolate(template, context)] *)
Definition interpolate (template context : value) : value :=
  match template with
  | VStr t => VStr (Str.replace_placeholders (replacement context) O t)
  | _ => template
  end.

(** [evaluateCondition(condition, context)] *)
Definition evaluateCondition (condition context : value) : outcome value :=
  match
    (let? ctx := Js.get context "ctx" in
     let? result := Js.get context "result" in
     match js_function H (Js.to_string condition) ctx result with
     | inl v => Done v
     | inr e => Throw e
     end)
  with
  | Throw _ => Done (VBool false)
  | r => r
  end.

End Evaluator.

(** [setNestedProperty(obj, path, value)]: the object after the
    assignment.  On the way, a name of a member of [Object.prototype] that
    is no own property finds a function, which is replaced like any value
    that is no object; under [__proto__] the code finds [Object.prototype]
    itself and goes on inside it, where the model gives up. *)
Fixpoint set_along (obj : value) (keys : list string) (v : value) : outcome value :=
  match keys with
  | [] => Done obj
  | [key] => Js.set obj key v
  | key :: rest =>
      let? present := Js.has key obj in
      if String.eqb key "__proto__" then Unmodelled
      else
        let child :=
          if (present && Js.typeof_object (Js.get_own obj key))%bool
          then Js.get_own obj key else VObj [] in
        let? child' := set_along child rest v in
        Js.set obj key child'
  end.

Definition setNestedProperty (obj path v : value) : outcome value :=
  match path with
  | VStr p => set_along obj (Str.split_dot p) v
  | VUndef | VNull => Throw (JsTypeError "Cannot read properties of undefined (reading 'split')")
  | _ => Throw (JsTypeError "path.split is not a function")
  end.

(** *** Node factories *)

Section Factories.
Variable H : host.
Variable env_llm : option (value → M (@env W) value).
Variable env_globals : value.
Variable global_fetch : value → value → M (@env W) response.

Definition set_shared (v : value) : M (@env W) unit :=
  modify (λ σ, {| shared := v; world := world σ |}).

Definition with_stages (p : value → M (@env W) value)
    (e : value → value → M (@env W) value) (async : bool)
    (po : value → value → value → M (@env W) value) (nd : @node W) : @node W :=
  {| class := class nd; params := params nd; successors := successors nd;
     maxRetries := maxRetries nd; wait := wait nd; curRetry := curRetry nd;
     startNode := startNode nd; prep := p; exec := e; exec_async := async;
     execFallback := execFallback nd; post := po |}.

(** A retry policy is modelled when it is numeric. *)
Definition as_int (v : value) : outcome Z :=
  match v with VNum n => Done n | _ => Unmodelled end.

(** [new C(nodeConfig.retry?.max || 1, nodeConfig.retry?.wait || 0)] *)
Definition new_with_retry (c : node_class) (nodeConfig : value) : M (@state W) ref :=
  let! retry := of_outcome (Js.get nodeConfig "retry") in
  let! max := of_outcome (as_int (Js.or_else (Js.opt_get retry "max") (VNum 1))) in
  let! w := of_outcome (as_int (Js.or_else (Js.opt_get retry "wait") (VNum 0))) in
  new_object c max w.

(** [{ ctx: shared, result: shared._lastResult }] *)
Definition context_of_shared : M (@env W) value :=
  let! sh := gets shared in
  let! last := of_outcome (Js.get sh "_lastResult") in
  ret (VObj [("ctx", sh); ("result", last)]).

(** [shared._lastResult = execRes] *)
Definition set_lastResult (execRes : value) : M (@env W) unit :=
  let! sh := gets shared in
  let! sh' := of_outcome (Js.set sh "_lastResult" execRes) in
  set_shared sh'.

(** The body of [for (const save of nodeConfig.post.outputs.save)]; the
    context holds the shared object itself, so every template sees the
    assignments made before it. *)
Fixpoint save_each (saves : list value) (execRes : value) : M (@env W) unit :=
  match saves with
  | [] => ret tt
  | save :: rest =>
      let! sh := gets shared in
      let context := VObj [("ctx", sh); ("result", execRes)] in
      let! template := of_outcome (Js.get save "value") in
      let v := interpolate H template context in
      let! path := of_outcome (Js.get save "path") in
      let! sh' := of_outcome (setNestedProperty sh path v) in
      set_shared sh';;
      save_each rest execRes
  end.

(** [if (nodeConfig.post?.outputs?.save) { ... }] *)
Definition save_outputs (nodeConfig execRes : value) : M (@env W) unit :=
  let saves :=
    Js.opt_get (Js.opt_get (Js.get_own nodeConfig "post") "outputs") "save" in
  if Js.truthy saves then
    let! l := of_outcome (iterate saves) in save_each l execRes
  else ret tt.

(** [nodeConfig.post?.next || null] *)
Definition next_label (nodeConfig : value) : value :=
  Js.or_else (Js.opt_get (Js.get_own nodeConfig "post") "next") VNull.

Definition saving_post (remember : bool) (nodeConfig : value)
  : value → value → value → M (@env W) value :=
  λ _ _ execRes,
    (if remember then set_lastResult execRes else ret tt);;
    save_outputs nodeConfig execRes;;
    ret (next_label nodeConfig).

Definition createLLMNode (nodeConfig : value) : M (@state W) ref :=
  let! node := new_with_retry CNode nodeConfig in
  write node (with_stages
    (λ _,
       let! context := context_of_shared in
       let exec_cfg := Js.get_own nodeConfig "exec" in
       let prompt :=
         interpolate H (Js.or_else (Js.opt_get exec_cfg "prompt") (VStr "")) context in
       ret (VObj [("prompt", prompt);
                  ("model", Js.or_else (Js.opt_get exec_cfg "model")
                              (Js.or_else (Js.opt_get env_globals "model")
                                 (VStr "gpt-4o-mini")))]))
    (λ _ prepRes,
       match env_llm with
       | None =>
           throw (JsError "LLM environment not configured. Provide env.llm.call function.")
       | Some call =>
           let! prompt := of_outcome (Js.get prepRes "prompt") in
           let! model := of_outcome (Js.get prepRes "model") in
           call (VObj [("prompt", prompt); ("model", model)])
       end)
    true
    (saving_post true nodeConfig));;
  ret node.

Definition createHTTPNode (nodeConfig : value) : M (@state W) ref :=
  let! node := new_with_retry CNode nodeConfig in
  write node (with_stages
    (λ _,
       let! context := context_of_shared in
       let exec_cfg := Js.get_own nodeConfig "exec" in
       ret (VObj [("url", interpolate H (Js.or_else (Js.opt_get exec_cfg "url") (VStr ""))
                            context);
                  ("method", Js.or_else (Js.opt_get exec_cfg "method") (VStr "GET"));
                  ("headers", Js.or_else (Js.opt_get exec_cfg "headers") (VObj []));
                  ("body", Js.or_else (Js.opt_get exec_cfg "body") (VObj []))]))
    (λ _ prepRes,
       let! url := of_outcome (Js.get prepRes "url") in
       let method := Js.get_own prepRes "method" in
       let! body :=
         match method with
         | VStr "GET" => ret VUndef
         | _ => match JSON_stringify H (Js.get_own prepRes "body") with
                | inl v => ret v
                | inr e => throw e
                end
         end in
       let! r := global_fetch url
                   (VObj [("method", method); ("headers", Js.get_own prepRes "headers");
                          ("body", body)]) in
       ret (VObj [("status", status r);
                  ("data", match json r with inl d => d | inr _ => VObj [] end);
                  ("headers", headers r)]))
    true
    (saving_post true nodeConfig));;
  ret node.

(** The test of one case: [!case_.when || this.evaluateCondition(case_.when, context)] *)
Definition case_holds (context case_ : value) : outcome bool :=
  let? when := Js.get case_ "when" in
  if negb (Js.truthy when) then Done true
  else let? v := evaluateCondition H when context in Done (Js.truthy v).

(** [for (const case_ of cases) { if (...) return case_.label; } return null;] *)
Fixpoint first_case (context : value) (cases : list value) : outcome value :=
  match cases with
  | [] => Done VNull
  | case_ :: rest =>
      let? holds := case_holds context case_ in
      if holds then Js.get case_ "label" else first_case context rest
  end.

Definition router_post (nodeConfig : value) : value → value → value → M (@env W) value :=
  λ _ _ _,
    let! context := context_of_shared in
    let! cases := of_outcome
      (iterate (Js.or_else (Js.opt_get (Js.get_own nodeConfig "exec") "cases") (VArr []))) in
    of_outcome (first_case context cases).

Definition pass_shared : value → M (@env W) value :=
  λ _, let! sh := gets shared in ret (VObj [("shared", sh)]).

Definition createRouterNode (nodeConfig : value) : M (@state W) ref :=
  let! node := new_object CNode 1 0 in
  write node (with_stages pass_shared (λ _ prepRes, ret prepRes) false
                (router_post nodeConfig));;
  ret node.

Definition createDataNode (nodeConfig : value) : M (@state W) ref :=
  let! node := new_object CNode 1 0 in
  write node (with_stages pass_shared
                (λ _ _, ret (Js.or_else (Js.get_own nodeConfig "exec") (VObj [])))
                false (saving_post false nodeConfig));;
  ret node.

(** [shared[nodeConfig.prep?.inputs?.[0]?.path || 'items'] || []] *)
Definition batch_prep (nodeConfig : value) : value → M (@env W) value :=
  λ _,
    let! sh := gets shared in
    let path :=
      Js.opt_get
        (Js.opt_get (Js.opt_get (Js.get_own nodeConfig "prep") "inputs") "0") "path" in
    let! items := of_outcome (Js.get sh (Js.to_string (Js.or_else path (VStr "items")))) in
    ret (Js.or_else items (VArr [])).

Definition createBatchNode (nodeConfig : value) : M (@state W) ref :=
  let! node := new_with_retry CBatchNode nodeConfig in
  write node (with_stages (batch_prep nodeConfig) (λ _ items, ret items) true
                (saving_post true nodeConfig));;
  ret node.

(** The two asynchronous kinds assign [prepAsync], [execAsync] and
    [postAsync]; the stages that [run] reaches stay the inherited ones. *)
Definition createAsyncNode (nodeConfig : value) : M (@state W) ref :=
  new_with_retry CAsyncNode nodeConfig.
Definition createParallelNode (nodeConfig : value) : M (@state W) ref :=
  new_with_retry CAsyncParallelBatchNode nodeConfig.

Definition default_registry : gmap string (value → M (@state W) ref) :=
  list_to_map
    [("llm", createLLMNode); ("http", createHTTPNode); ("router", createRouterNode);
     ("data", createDataNode); ("batch", createBatchNode); ("async", createAsyncNode);
     ("parallel", createParallelNode)].

(** [new PocketFlowCompiler(env)] *)
Definition new_compiler : PocketFlowCompiler :=
  {| the_host := H; llm := env_llm; globals := env_globals; fetch := global_fetch;
     registry := default_registry |}.

End Factories.

(** *** [compile(config)] *)

(** A [Map] from values to node references, in insertion order. *)
Definition map_get (m : list (value * ref)) (k : value) : option ref :=
  snd <$> List.find (λ p, Js.same_value_zero (fst p) k) m.

Fixpoint map_set (m : list (value * ref)) (k : value) (r : ref) : list (value * ref) :=
  match m with
  | [] => [(k, r)]
  | (k', r') :: rest =>
      if Js.same_value_zero k' k then (k', r) :: rest else (k', r') :: map_set rest k r
  end.

(** [set.has(v)], [array.includes(v)] *)
Definition includes (l : list value) (v : value) : bool :=
  existsb (λ x, Js.same_value_zero x v) l.

Record compiled := { flow : ref; compiled_nodes : list (value * ref); config : value }.

Definition missing_fields : error :=
  JsError "Invalid config: missing required fields (version, entry, nodes, edges)".

(** The first loop of [compile].  [this.registry] is an object literal:
    under the name of a member of [Object.prototype] that is no key of its
    own, [this.registry[nodeConfig.kind]] is that member, and what the
    call of it returns is no node; the model gives up there. *)
Fixpoint create_nodes (C : PocketFlowCompiler) (nodeConfigs : list value)
    (nodeIds : list value) (nodes : list (value * ref))
  : M (@state W) (list (value * ref)) :=
  match nodeConfigs with
  | [] => ret nodes
  | nodeConfig :: rest =>
      let! id := of_outcome (Js.get nodeConfig "id") in
      if includes nodeIds id then
        throw (JsError ("Duplicate node ID: " +:+ Js.to_string id))
      else
        let kind := Js.get_own nodeConfig "kind" in
        match registry C !! Js.to_string kind with
        | None =>
            if Js.inherited (Js.to_string kind) then unmodelled
            else throw (JsError ("Unknown node kind: " +:+ Js.to_string kind))
        | Some factory =>
            let! node := factory nodeConfig in
            create_nodes C rest (nodeIds ++ [id]) (map_set nodes id node)
        end
  end.

(** The second loop of [compile]. *)
Fixpoint connect_edges (nodes : list (value * ref)) (edges : list value)
  : M (@state W) unit :=
  match edges with
  | [] => ret tt
  | edge :: rest =>
      let! from := of_outcome (Js.get edge "from") in
      let to := Js.get_own edge "to" in
      match map_get nodes from, map_get nodes to with
      | Some fromNode, Some toNode =>
          let label := Js.or_else (Js.get_own edge "label") (VStr "default") in
          next fromNode toNode (Js.to_string label);;
          connect_edges nodes rest
      | _, _ =>
          throw (JsError ("Edge references missing node: " +:+ Js.to_string from
                            +:+ " -> " +:+ Js.to_string to))
      end
  end.

(** [Array.from(nodes.values()).some(node => test(node))] *)
Fixpoint some_node (test : node_class → bool) (nodes : list (value * ref))
  : M (@state W) bool :=
  match nodes with
  | [] => ret false
  | (_, r) :: rest =>
      let! nd := read r in
      if test (class nd) then ret true else some_node test rest
  end.

Definition compile (C : PocketFlowCompiler) (config : value) : M (@state W) compiled :=
  let! version := of_outcome (Js.get config "version") in
  let entry := Js.get_own config "entry" in
  let nodes_cfg := Js.get_own config "nodes" in
  let edges_cfg := Js.get_own config "edges" in
  if negb (Js.truthy version && Js.truthy entry && Js.truthy nodes_cfg
           && Js.truthy edges_cfg)
  then throw missing_fields
  else
    let! nodeConfigs := of_outcome (iterate nodes_cfg) in
    let! nodes := create_nodes C nodeConfigs [] [] in
    let! edges := of_outcome (iterate edges_cfg) in
    connect_edges nodes edges;;
    match map_get nodes entry with
    | None => throw (JsError ("Entry node not found: " +:+ Js.to_string entry))
    | Some startNode =>
        let! hasAsyncNodes := some_node instanceof_AsyncNode nodes in
        let! hasBatchNodes :=
          some_node (λ c, instanceof_BatchNode c || instanceof_AsyncBatchNode c) nodes in
        let! fl :=
          new_object
            (if hasAsyncNodes && hasBatchNodes then CAsyncBatchFlow
             else if hasAsyncNodes then CAsyncFlow
             else CFlow) 1 0 in
        start fl startNode;;
        setParams fl (Js.or_else (Js.get_own config "globals") (VObj []));;
        ret {| flow := fl; compiled_nodes := nodes; config := config |}
    end.

(** The successor table of a node object, the number of its entries, and
    the entries of all compiled nodes together. *)
Definition table_of (s : @state W) (r : ref) : gmap string ref :=
  match nodes s !! r with
  | Some nd => default ∅ (tables s !! successors nd)
  | None => ∅
  end.
Definition links_of (s : @state W) (r : ref) : nat := size (table_of s r).
Definition installed_links (s : @state W) (out : compiled) : nat :=
  sum_list (links_of s <$> (snd <$> compiled_nodes out)).

(** The node objects [refs] are distinct live objects with distinct live
    successor tables. *)
Definition separate (s : @state W) (refs : list ref) : Prop :=
  NoDup refs ∧
  (∀ r, r ∈ refs → ∃ nd, nodes s !! r = Some nd ∧ is_Some (tables s !! successors nd)) ∧
  (∀ r1 r2 nd1 nd2, r1 ∈ refs → r2 ∈ refs →
     nodes s !! r1 = Some nd1 → nodes s !! r2 = Some nd2 →
     successors nd1 = successors nd2 → r1 = r2).

(** The table slot an edge is written to: its source node and its label,
    "default" when the edge has none. *)
Definition slot_of (nodes : list (value * ref)) (edge : value) : option (ref * string) :=
  r ← map_get nodes (Js.get_own edge "from");
  Some (r, Js.to_string (Js.or_else (Js.get_own edge "label") (VStr "default"))).

(** The node a slot leads to once the edges are written in their order:
    the target of the last edge written to the slot. *)
Fixpoint target_of (nodes : list (value * ref)) (edges : list value) (sl : ref * string)
  : option ref :=
  match edges with
  | [] => None
  | edge :: rest =>
      match target_of nodes rest sl with
      | Some t => Some t
      | None =>
          if bool_decide (slot_of nodes edge = Some sl)
          then map_get nodes (Js.get_own edge "to") else None
      end
  end.

(** Every node kind of the description is a string that is a key of the
    registry; every edge label is a string or a false value, and none is
    written as [__proto__]. *)
Definition kinds_registered (C : PocketFlowCompiler) (config : value) : bool :=
  match iterate (Js.get_own config "nodes") with
  | Done l =>
      forallb (λ n, match Js.get_own n "kind" with
                    | VStr k => bool_decide (is_Some (registry C !! k))
                    | _ => false
                    end) l
  | _ => true
  end.
Definition labels_plain (config : value) : bool :=
  match iterate (Js.get_own config "edges") with
  | Done l =>
      forallb (λ e, is_label (Js.get_own e "label") &&
                    negb (String.eqb
                      (Js.to_string (Js.or_else (Js.get_own e "label") (VStr "default")))
                      "__proto__"))%bool l
  | _ => true
  end.

(** [wired s refs done]: the successor tables of [refs] hold exactly the
    slots [done], and as many entries as [done] has distinct slots. *)
Definition wired (s : @state W) (refs : list ref) (done : list (ref * string)) : Prop :=
  sum_list (links_of s <$> refs) = size (list_to_set done : gset (ref * string)) ∧
  ∀ r l, r ∈ refs → is_Some (table_of s r !! l) ↔ (r, l) ∈ done.

(** What [compile] relies on in a factory: it returns a new node object
    with a new, empty successor table and touches nothing else.  The seven
    factories of the default registry do so; a factory added to the
    registry has to. *)
Definition creates_node (f : M (@state W) ref) : Prop :=
  ∀ s r s', f s = (Done r, s') →
    nodes s !! r = None ∧
    ∃ nd, nodes s' !! r = Some nd ∧
          tables s !! successors nd = None ∧
          tables s' !! successors nd = Some ∅ ∧
          (∀ x, x ≠ r → nodes s' !! x = nodes s !! x) ∧
          (∀ t, t ≠ successors nd → tables s' !! t = tables s !! t).

End Compiler.

(** The router's rule in the words of the specification: a case matches
    when it has no condition or when its condition evaluates to a true
    value; a condition whose evaluation fails counts as false. *)
Definition case_matches (H : host) (ctx result case_ : value) : bool :=
  let when := Js.get_own case_ "when" in
  negb (Js.truthy when)
  || match js_function H (Js.to_string when) ctx result with
     | inl v => Js.truthy v
     | inr _ => false
     end.

Definition nullish (v : value) : bool :=
  match v with VUndef | VNull => true | _ => false end.

(** Two node specs that differ at most in their [loop_guard] field. *)
Definition same_but_loop_guard (a b : value) : Prop :=
  nullish a = nullish b ∧ ∀ k, k ≠ "loop_guard" → Js.get_own a k = Js.get_own b k.

(** The result of a compilation, told about another description. *)
Definition with_config (cfg : value) (r : outcome compiled) : outcome compiled :=
  match r with
  | Done out => Done {| flow := flow out; compiled_nodes := compiled_nodes out;
                        config := cfg |}
  | Throw e => Throw e
  | OutOfFuel => OutOfFuel
  | Unmodelled => Unmodelled
  end.

(** ** The validation of [MetaAgentCreator] *)

(** What [validateAgainstSchema] reads from [schema.json]: the list
    [required] and the enumeration of node kinds. *)
Record schema := { schema_required : list string; schema_kinds : list value }.

Module Validator.

Definition all_unit {A} (f : A → outcome unit) : list A → outcome unit :=
  fix go l := match l with
              | [] => Done tt
              | x :: rest => let? _ := f x in go rest
              end.

Definition all_values {A B} (f : A → outcome B) : list A → outcome (list B) :=
  fix go l := match l with
              | [] => Done []
              | x :: rest => let? y := f x in let? ys := go rest in Done (y :: ys)
              end.

(** The labels a node can produce, as [validateEdgeRouting] collects them. *)
Definition actions_of (node : value) : outcome (list value) :=
  let? post := Js.get node "post" in
  let next := Js.opt_get post "next" in
  let a1 := if Js.truthy next then [VStr "default"; next] else [VStr "default"] in
  let exec_cfg := Js.get_own node "exec" in
  let cases := Js.opt_get exec_cfg "cases" in
  if (Js.same_value_zero (Js.get_own node "kind") (VStr "router")
      && Js.truthy exec_cfg && Js.truthy cases)%bool
  then
    let? cs := iterate cases in
    let? labels := all_values (λ case_, Js.get case_ "label") cs in
    Done (a1 ++ List.filter Js.truthy labels)%list
  else Done a1.

Fixpoint join_comma (l : list value) : string :=
  match l with
  | [] => ""
  | [x] => Js.to_string x
  | x :: rest => Js.to_string x +:+ ", " +:+ join_comma rest
  end.

(** [new Set(...)] lists a repeated value once. *)
Fixpoint distinct (seen l : list value) : list value :=
  match l with
  | [] => []
  | x :: rest =>
      if existsb (λ y, Js.same_value_zero y x) seen then distinct seen rest
      else x :: distinct (seen ++ [x])%list rest
  end.

Definition validateEdgeRouting (config : value) : outcome unit :=
  let? nodes := iterate (Js.get_own config "nodes") in
  let? nodeActions :=
    all_values (λ node, let? acts := actions_of node in
                        Done (Js.get_own node "id", distinct [] acts)) nodes in
  let? edges := iterate (Js.get_own config "edges") in
  all_unit
    (λ edge,
       let? from := Js.get edge "from" in
       if existsb (λ n, Js.same_value_zero (Js.get_own n "id") from) nodes then
         (* [nodeActions.get(edge.from)]: the last entry set under that id *)
         match List.find (λ p, Js.same_value_zero (fst p) from) (rev nodeActions) with
         | None => Throw (JsTypeError "Cannot read properties of undefined (reading 'has')")
         | Some (_, validActions) =>
             let edgeLabel := Js.or_else (Js.get_own edge "label") (VStr "default") in
             if existsb (λ a, Js.same_value_zero a edgeLabel) validActions then Done tt
             else Throw (JsError
               ("Invalid edge routing: Node '" +:+ Js.to_string from
                +:+ "' cannot route to '" +:+ Js.to_string (Js.get_own edge "to")
                +:+ "' with label '" +:+ Js.to_string edgeLabel
                +:+ "'. Valid actions: " +:+ join_comma validActions))
         end
       else Done tt)
    edges.

Definition is_array (v : value) : bool :=
  match v with VArr _ => true | _ => false end.

Definition validateConfig (config : value) : outcome unit :=
  let? version := Js.get config "version" in
  let entry := Js.get_own config "entry" in
  let nodes_cfg := Js.get_own config "nodes" in
  let edges_cfg := Js.get_own config "edges" in
  if negb (Js.truthy version && Js.truthy entry && Js.truthy nodes_cfg
           && Js.truthy edges_cfg)
  then Throw (JsError "Invalid config: missing required fields (version, entry, nodes, edges)")
  else
    match nodes_cfg with
    | VArr (n :: ns) =>
        if negb (is_array edges_cfg) then Throw (JsError "Config must have edges array")
        else
          let? nodeIds := all_values (λ n, Js.get n "id") (n :: ns) in
          if negb (existsb (λ x, Js.same_value_zero x entry) nodeIds) then
            Throw (JsError ("Entry node '" +:+ Js.to_string entry
                              +:+ "' not found in nodes"))
          else
            let? edges := iterate edges_cfg in
            let? _ := all_unit
              (λ edge,
                 let? from := Js.get edge "from" in
                 if negb (existsb (λ x, Js.same_value_zero x from) nodeIds) then
                   Throw (JsError ("Edge references missing node: " +:+ Js.to_string from))
                 else
                   let to := Js.get_own edge "to" in
                   if negb (existsb (λ x, Js.same_value_zero x to) nodeIds) then
                     Throw (JsError ("Edge references missing node: " +:+ Js.to_string to))
                   else Done tt)
              edges in
            validateEdgeRouting config
    | _ => Throw (JsError "Config must have at least one node")
    end.

Definition validateAgainstSchema (sc : schema) (config : value) : outcome unit :=
  let? _ := all_unit
    (λ field, let? present := Js.has field config in
              if present then Done tt
              else Throw (JsError ("Missing required field: " +:+ field)))
    (schema_required sc) in
  let? version := Js.get config "version" in
  if (Js.truthy version && negb (Str.is_version (Js.to_string version)))%bool then
    Throw (JsError ("Invalid version format: " +:+ Js.to_string version
                      +:+ ". Expected format: pf-js/1.0"))
  else
    let? nodes := iterate (Js.get_own config "nodes") in
    let? _ := all_unit
      (λ node,
         let? kind := Js.get node "kind" in
         if (Js.truthy kind
             && negb (existsb (λ k, Js.same_value_zero k kind) (schema_kinds sc)))%bool
         then Throw (JsError ("Invalid node kind: " +:+ Js.to_string kind
                                +:+ ". Valid kinds: " +:+ join_comma (schema_kinds sc)))
         else Done tt)
      nodes in
    let? edges := iterate (Js.get_own config "edges") in
    all_unit
      (λ edge,
         let? has_from := Js.has "from" edge in
         if negb has_from then Throw (JsError "Missing required edge field: from")
         else
           let? has_to := Js.has "to" edge in
           if negb has_to then Throw (JsError "Missing required edge field: to")
           else Done tt)
      edges.

(** The two checks [createAgentFromDescription] runs before [compile]. *)
Definition passes_validation (sc : schema) (config : value) : Prop :=
  validateConfig config = Done tt ∧ validateAgainstSchema sc config = Done tt.

End Validator.

(** ** Concrete hosts, collaborators and graph descriptions *)

(** [compiler.compile(config)] followed by [flow.run(shared)]. *)
Definition compile_and_run {W} (C : @PocketFlowCompiler W) (cfg : value) (fuel : nat)
  : M (@state W) value :=
  let! out := compile C cfg in run fuel (flow out).

Definition empty_store {W} (sh : value) (w : W) : @state W :=
  {| nodes := ∅; tables := ∅; outer := {| shared := sh; world := w |}; log := [] |}.

Module Sample.

(** [a < b], [a >= b] on the numbers of the model; a comparison with
    [undefined] is false. *)
Definition num_test (test : Z → Z → bool) (a b : value) : value :=
  match a, b with
  | VNum x, VNum y => VBool (test x y)
  | _, _ => VBool false
  end.

(** A host that knows the expressions of the examples below, and answers
    them as a JavaScript engine does. *)
Definition sample_function (expr : string) (ctx result : value) : value + error :=
  if String.eqb expr "true" then inl (VBool true)
  else if String.eqb expr "foo bar" then
    inr (JsThrown (VStr "SyntaxError: missing ) after argument list"))
  else if String.eqb expr "ctx.draft !== 'final'" then
    match Js.get ctx "draft" with
    | Done (VStr "final") => inl (VBool false)
    | Done _ => inl (VBool true)
    | _ => inr (JsTypeError "Cannot read properties of undefined (reading 'draft')")
    end
  else if String.eqb expr "ctx.score >= 8" then
    match Js.get ctx "score" with
    | Done v => inl (num_test Z.leb (VNum 8) v)
    | _ => inr (JsTypeError "Cannot read properties of undefined (reading 'score')")
    end
  else if String.eqb expr "ctx.score >= 5 && ctx.score < 8" then
    match Js.get ctx "score" with
    | Done v =>
        inl (match num_test Z.leb (VNum 5) v with
             | VBool true => num_test Z.ltb v (VNum 8)
             | other => other
             end)
    | _ => inr (JsTypeError "Cannot read properties of undefined (reading 'score')")
    end
  else if String.eqb expr "ctx.score < 5" then
    match Js.get ctx "score" with
    | Done v => inl (num_test Z.ltb v (VNum 5))
    | _ => inr (JsTypeError "Cannot read properties of undefined (reading 'score')")
    end
  else inr (JsError "expression outside the sample host").

Definition sample_stringify (v : value) : value + error :=
  match v with
  | VNull => inl (VStr "null")
  | VBool _ | VNum _ => inl (VStr (Js.to_string v))
  | VUndef | VFun _ => inl VUndef
  | _ => inr (JsError "value outside the sample host")
  end.

Definition sample_host : host :=
  {| js_function := sample_function; JSON_stringify := sample_stringify |}.

Definition no_fetch {W} : value → value → M (@env W) response :=
  λ _ _, throw (JsTypeError "fetch failed").

(** A compiler without collaborators: [new PocketFlowCompiler({})]. *)
Definition bare_compiler : @PocketFlowCompiler unit :=
  new_compiler sample_host None VUndef no_fetch.

(** The single-node graph of the end-to-end scenario, with the four things
    that the specification and [compiler.js] name differently left open. *)
Definition greet_graph (version : list (string * value)) (kind key template : string)
  : value :=
  VObj (version ++
        [("entry", VStr "greet");
         ("nodes", VArr [VObj [("id", VStr "greet"); ("kind", VStr kind);
                               ("exec", VObj [("message", VStr "hi")]);
                               ("post", VObj [("outputs", VObj [("save", VArr
                                  [VObj [("path", VStr "out");
                                         (key, VStr template)]])])])]]);
         ("edges", VArr [])])%list.

(** As the specification writes it. *)
Definition greet_as_specified : value :=
  greet_graph [] "static-data" "valueTemplate" "{{exec.message}}".

(** In the vocabulary of [compiler.js]: a [version], the kind [data], the
    key [value], and the execute result under the name [result]. *)
Definition greet : value :=
  greet_graph [("version", VStr "pf-js/1.0")] "data" "value" "{{result.message}}".

Definition data_node (id : string) : value :=
  VObj [("id", VStr id); ("kind", VStr "data")].
Definition edge (from to : string) : value :=
  VObj [("from", VStr from); ("to", VStr to)].

(** Two data nodes in a row. *)
Definition chain : value :=
  VObj [("version", VStr "pf-js/1.0"); ("entry", VStr "a"); ("globals", VObj []);
        ("nodes", VArr [data_node "a"; data_node "b"]);
        ("edges", VArr [edge "a" "b"])].

(** Three nodes and two edges that leave [a] under the same label. *)
Definition fan_out : value :=
  VObj [("version", VStr "pf-js/1.0"); ("entry", VStr "a"); ("globals", VObj []);
        ("nodes", VArr [data_node "a"; data_node "b"; data_node "c"]);
        ("edges", VArr [edge "a" "b"; edge "a" "c"])].

(** Two node specs under one id. *)
Definition twins : value :=
  VObj [("version", VStr "pf-js/1.0"); ("entry", VStr "a"); ("globals", VObj []);
        ("nodes", VArr [data_node "a"; data_node "a"]);
        ("edges", VArr [])].

(** The fields and the kinds a schema of this format lists. *)
Definition sample_schema : schema :=
  {| schema_required := ["version"; "entry"; "nodes"; "edges"];
     schema_kinds := [VStr "llm"; VStr "http"; VStr "router"; VStr "data";
                      VStr "batch"; VStr "async"; VStr "parallel"] |}.

(** The router of the specification's first-match example. *)
Definition score_router : value :=
  VObj [("id", VStr "route"); ("kind", VStr "router");
        ("exec", VObj [("cases", VArr
           [VObj [("label", VStr "approve"); ("when", VStr "ctx.score >= 8")];
            VObj [("label", VStr "review");
                  ("when", VStr "ctx.score >= 5 && ctx.score < 8")];
            VObj [("label", VStr "reject"); ("when", VStr "ctx.score < 5")]])])].

(** A review/revise cycle: the router sends the flow to [revise] until
    the draft is final; [revise] declares a loop guard of 3. *)
Definition revise_fields : list (string * value) :=
  [("id", VStr "revise"); ("kind", VStr "llm");
   ("exec", VObj [("prompt", VStr "Revise the draft")]);
   ("post", VObj [("outputs", VObj [("save", VArr
       [VObj [("path", VStr "draft"); ("value", VStr "{{result.text}}")]])]);
                  ("next", VStr "review")])].
Definition review_spec : value :=
  VObj [("id", VStr "review"); ("kind", VStr "router");
        ("exec", VObj [("cases", VArr
           [VObj [("label", VStr "revise"); ("when", VStr "ctx.draft !== 'final'")]])])].
Definition cycle_fields (revise : value) : list (string * value) :=
  [("version", VStr "pf-js/1.0"); ("entry", VStr "review");
   ("nodes", VArr [review_spec; revise]);
   ("edges", VArr [VObj [("from", VStr "review"); ("to", VStr "revise");
                         ("label", VStr "revise")];
                   VObj [("from", VStr "revise"); ("to", VStr "review");
                         ("label", VStr "review")]])].
Definition guarded_revise : value :=
  VObj (revise_fields ++
        [("loop_guard", VObj [("max_iterations", VNum 3)])])%list.
Definition cycle : value := VObj (cycle_fields guarded_revise).

(** An LLM collaborator that counts its calls and answers "final" from the
    fifth call on. *)
Definition counting_llm : value → M (@env nat) value :=
  λ _ σ, (Done (VObj [("text", VStr (if Nat.ltb (world σ) 4 then "draft" else "final"))]),
          {| shared := shared σ; world := S (world σ) |}).
Definition cycle_compiler : @PocketFlowCompiler nat :=
  new_compiler sample_host (Some counting_llm) VUndef no_fetch.

Definition visits (r : ref) (evs : list event) : nat :=
  length (List.filter (λ ev, match ev with
                             | EvVisit x => Pos.eqb x r
                             | _ => false
                             end) evs).

(** A node of class [Node] whose execute stage always throws: three
    attempts, two seconds apart. *)
Definition stubborn : @node nat :=
  {| class := CNode; params := VObj []; successors := 1%positive;
     maxRetries := 3; wait := 2; curRetry := 0; startNode := None;
     prep := λ _, ret (VStr "input");
     exec := λ _ _ σ, (Throw (JsError ("attempt " +:+ pretty (world σ))),
                       {| shared := shared σ; world := S (world σ) |});
     exec_async := true;
     execFallback := default_execFallback; post := default_post |}.
Definition stubborn_store : @state nat :=
  {| nodes := {[ 1%positive := stubborn ]}; tables := {[ 1%positive := ∅ ]};
     outer := {| shared := VObj []; world := O |}; log := [] |}.

(** A batch node over two elements whose execute stage is an [async]
    function that fails on its first call only; two attempts allowed. *)
Definition flaky_exec : value → value → M (@env nat) value :=
  λ _ item σ,
    (if Nat.eqb (world σ) 0 then Throw (JsError "first call fails") else Done item,
     {| shared := shared σ; world := S (world σ) |}).
Definition batch_of (e : value → value → M (@env nat) value) : @node nat :=
  {| class := CBatchNode; params := VObj []; successors := 1%positive;
     maxRetries := 2; wait := 0; curRetry := 0; startNode := None;
     prep := λ _, ret (VArr [VStr "a1"; VStr "a2"]);
     exec := e; exec_async := true;
     execFallback := default_execFallback; post := default_post |}.
Definition batch_store (e : value → value → M (@env nat) value) : @state nat :=
  {| nodes := {[ 1%positive := batch_of e ]}; tables := {[ 1%positive := ∅ ]};
     outer := {| shared := VObj []; world := O |}; log := [] |}.
(** The same with an execute stage that fails on every call. *)
Definition failing_exec : value → value → M (@env nat) value :=
  λ _ _ σ, (Throw (JsError "fails"), {| shared := shared σ; world := S (world σ) |}).

(** A hand-wired flow of two nodes: [first] returns the empty string and
    has a successor under "default"; [last] returns "done" and has none. *)
Definition leaf (label : value) (table : ref) : @node unit :=
  {| class := CNode; params := VObj []; successors := table;
     maxRetries := 1; wait := 0; curRetry := 0; startNode := None;
     prep := default_prep; exec := default_exec; exec_async := false;
     execFallback := default_execFallback; post := λ _ _ _, ret label |}.
Definition two_step_flow : @node unit :=
  {| class := CFlow; params := VObj [("run", VNum 1)]; successors := 3%positive;
     maxRetries := 1; wait := 0; curRetry := 0; startNode := Some 1%positive;
     prep := default_prep; exec := default_exec; exec_async := false;
     execFallback := default_execFallback; post := Flow_post |}.
Definition two_step_store : @state unit :=
  {| nodes := {[ 1%positive := leaf (VStr "") 1%positive;
                 2%positive := leaf (VStr "done") 2%positive;
                 3%positive := two_step_flow ]};
     tables := {[ 1%positive := {[ "default" := 2%positive ]};
                  2%positive := ∅; 3%positive := ∅ ]};
     outer := {| shared := VObj []; world := tt |}; log := [] |}.

(** The stores the run of that flow goes through. *)
Definition two_step_params : value := spread (params two_step_flow).
Definition at_first : @state unit :=
  ((let! c := clone 1%positive in emit (EvVisit 1%positive);; ret c) two_step_store).2.
Definition after_first : @state unit :=
  ((setParams 4%positive two_step_params;;
    _run_with (_orch_with (orch_loop 1)) 4%positive) at_first).2.
Definition at_last : @state unit :=
  ((let! c := clone 2%positive in emit (EvVisit 2%positive);; ret c) after_first).2.
Definition after_last : @state unit :=
  ((setParams 5%positive two_step_params;;
    _run_with (_orch_with (orch_loop 0)) 5%positive) at_last).2.

(** A flow of one node: the node has no successor, and its post stage
    returns [label]. *)
Definition dead_end_flow : @node unit :=
  {| class := CFlow; params := VObj []; successors := 2%positive;
     maxRetries := 1; wait := 0; curRetry := 0; startNode := Some 1%positive;
     prep := default_prep; exec := default_exec; exec_async := false;
     execFallback := default_execFallback; post := Flow_post |}.
Definition dead_end_store (label : value) : @state unit :=
  {| nodes := {[ 1%positive := leaf label 1%positive; 2%positive := dead_end_flow ]};
     tables := {[ 1%positive := ∅; 2%positive := ∅ ]};
     outer := {| shared := VObj []; world := tt |}; log := [] |}.

End Sample.

(** ** The rest of the engine and of the compiler *)

(** A character other than the opening brace; one that is a digit. *)
Definition not_open_brace (c : Ascii.ascii) : bool := negb (Ascii.eqb c "{"%char).
Definition not_brace (c : Ascii.ascii) : bool := negb (Str.is_brace c).

(** A path none of whose segments is [__proto__], and the object
    [{k1: {k2: ... v}}] that [setNestedProperty] builds along segments it
    does not find. *)
Definition proto_free (path : string) : bool :=
  forallb (λ k, negb (String.eqb k "__proto__")) (Str.split_dot path).

Fixpoint nest (keys : list string) (v : value) : value :=
  match keys with
  | [] => v
  | k :: rest => VObj [(k, nest rest v)]
  end.

Definition starts_digit (s : string) : bool :=
  match s with
  | String c _ => Str.is_digit c
  | EmptyString => false
  end.

(** What an observer sees of [k] failing attempts followed by one that
    succeeds. *)
Fixpoint retried_trace (prepRes : value) (w : Z) (k : nat) : list event :=
  match k with
  | O => [EvExec prepRes]
  | S k' =>
      EvExec prepRes :: (if 0 <? w then [EvSleep (w * 1000)] else [])
        ++ retried_trace prepRes w k'
  end.

Section MoreObservations.
Context {W : Type}.

(** The results of a stage called on each element in turn, as long as
    every call returns. *)
Fixpoint exec_each (call : value → M (@env W) value) (items : list value) (σ : @env W)
  : option (list value) * @env W :=
  match items with
  | [] => (Some [], σ)
  | item :: rest =>
      match call item σ with
      | (Done v, σ') =>
          let '(vs, σ'') := exec_each call rest σ' in (cons v <$> vs, σ'')
      | (_, σ') => (None, σ')
      end
  end.

(** The activations [map] leaves in the job queue when the execute stage
    has returned [vs] for [items]. *)
Fixpoint pending_of (i : nat) (items vs : list value) : list activation :=
  match items, vs with
  | item :: items', v :: vs' =>
      {| t_index := i; t_item := item; t_pending := AwaitExec (inl v) |}
        :: pending_of (S i) items' vs'
  | _, _ => []
  end.

End MoreObservations.

(** *** The wiring helpers of [index.js] *)

Section Wiring.
Context {W : Type}.

(** [rshift(other) { return this.next(other); }] *)
Definition rshift (this other : ref) : M (@state W) ref := next this other "default".

(** A [ConditionalTransition] holds its source and its label; [sub] makes
    one from a label that is a string and throws on any other value. *)
Record ConditionalTransition := { ct_src : ref; ct_action : string }.

Definition sub (this : ref) (action : value) : M (@state W) ConditionalTransition :=
  match action with
  | VStr a => ret {| ct_src := this; ct_action := a |}
  | _ => throw (JsTypeError "Action must be a string")
  end.

(** [rshift(tgt) { return this.src.next(tgt, this.action); }] *)
Definition ConditionalTransition_rshift (ct : ConditionalTransition) (tgt : ref)
  : M (@state W) ref :=
  next (ct_src ct) tgt (ct_action ct).

(** [connect(nodeA, nodeB)] and [conditionalConnect(nodeA, action, nodeB)] *)
Definition connect (nodeA nodeB : ref) : M (@state W) ref := rshift nodeA nodeB.
Definition conditionalConnect (nodeA : ref) (action : value) (nodeB : ref)
  : M (@state W) ref :=
  let! ct := sub nodeA action in ConditionalTransition_rshift ct nodeB.

End Wiring.

(** *** Descriptions that [compile] accepts *)

(** The ids of a list of node specs, and the class behind each kind of the
    default registry. *)
Definition ids_of (nodeConfigs : list value) : list value :=
  (λ n, Js.get_own n "id") <$> nodeConfigs.

Definition kind_of (nodeConfig : value) : string :=
  Js.to_string (Js.get_own nodeConfig "kind").

Definition class_of_kind (kind : string) : option node_class :=
  if String.eqb kind "llm" then Some CNode
  else if String.eqb kind "http" then Some CNode
  else if String.eqb kind "router" then Some CNode
  else if String.eqb kind "data" then Some CNode
  else if String.eqb kind "batch" then Some CBatchNode
  else if String.eqb kind "async" then Some CAsyncNode
  else if String.eqb kind "parallel" then Some CAsyncParallelBatchNode
  else None.

Definition is_async_kind (nodeConfig : value) : bool :=
  (String.eqb (kind_of nodeConfig) "async" || String.eqb (kind_of nodeConfig) "parallel")%bool.
Definition is_batch_kind (nodeConfig : value) : bool :=
  String.eqb (kind_of nodeConfig) "batch".

(** The class of the flow object, as the kinds in the description decide it. *)
Definition flow_class_for (nodeConfigs : list value) : node_class :=
  if (existsb is_async_kind nodeConfigs && existsb is_batch_kind nodeConfigs)%bool
  then CAsyncBatchFlow
  else if existsb is_async_kind nodeConfigs then CAsyncFlow
  else CFlow.

(** The kind of a node spec is a string that names no member of
    [Object.prototype], so that [registry[kind]] reads the registry's own
    entries only.  A spec that is [null] or [undefined] has no kind to
    look at. *)
Definition plain_kind (nodeConfig : value) : bool :=
  (nullish nodeConfig ||
   match Js.get_own nodeConfig "kind" with
   | VStr k => negb (Js.inherited k)
   | _ => false
   end)%bool.

Definition kinds_plain (config : value) : bool :=
  match iterate (Js.get_own config "nodes") with
  | Done nodeConfigs => forallb plain_kind nodeConfigs
  | _ => true
  end.

(** A description is well formed for a registry: the four required fields
    are there, the nodes and the edges can be iterated, no node spec or edge spec is [null] or [undefined], no id
    occurs twice, every kind is registered, and the entry and both ends of
    every edge name a node. *)
Definition well_formed {W} (reg : gmap string (value → M (@state W) ref))
    (config : value) (nodeConfigs edges : list value) : Prop :=
  nullish config = false ∧
  Js.truthy (Js.get_own config "version") = true ∧
  Js.truthy (Js.get_own config "entry") = true ∧
  Js.truthy (Js.get_own config "nodes") = true ∧
  iterate (Js.get_own config "nodes") = Done nodeConfigs ∧
  Js.truthy (Js.get_own config "edges") = true ∧
  iterate (Js.get_own config "edges") = Done edges ∧
  (∀ n, n ∈ nodeConfigs → nullish n = false ∧ is_Some (reg !! kind_of n)) ∧
  (∀ i j a b, (i < j)%nat → ids_of nodeConfigs !! i = Some a →
     ids_of nodeConfigs !! j = Some b → Js.same_value_zero a b = false) ∧
  (∀ e, e ∈ edges →
     nullish e = false ∧
     includes (ids_of nodeConfigs) (Js.get_own e "from") = true ∧
     includes (ids_of nodeConfigs) (Js.get_own e "to") = true) ∧
  includes (ids_of nodeConfigs) (Js.get_own config "entry") = true.

(** *** What the compiled nodes ask of their collaborators *)

(** [nodeConfig.retry?.max || 1] *)
Definition retry_max (nodeConfig : value) : outcome Z :=
  as_int (Js.or_else (Js.opt_get (Js.get_own nodeConfig "retry") "max") (VNum 1)).

Section Requests.
Variable H : host.
Variable env_globals : value.

(** The argument of [env.llm.call]: the prompt template filled in from the
    shared context [sh] and the last result, and the model named by the
    node, else by the compiler's environment, else the built-in one. *)
Definition llm_request (nodeConfig sh : value) : value :=
  let context := VObj [("ctx", sh); ("result", Js.get_own sh "_lastResult")] in
  let exec_cfg := Js.get_own nodeConfig "exec" in
  VObj [("prompt",
         interpolate H (Js.or_else (Js.opt_get exec_cfg "prompt") (VStr "")) context);
        ("model",
         Js.or_else (Js.opt_get exec_cfg "model")
           (Js.or_else (Js.opt_get env_globals "model") (VStr "gpt-4o-mini")))].

(** What the prepare stage of an HTTP node returns, and the arguments of
    [fetch] that its execute stage makes of it. *)
Definition http_request (nodeConfig sh : value) : value :=
  let context := VObj [("ctx", sh); ("result", Js.get_own sh "_lastResult")] in
  let exec_cfg := Js.get_own nodeConfig "exec" in
  VObj [("url", interpolate H (Js.or_else (Js.opt_get exec_cfg "url") (VStr "")) context);
        ("method", Js.or_else (Js.opt_get exec_cfg "method") (VStr "GET"));
        ("headers", Js.or_else (Js.opt_get exec_cfg "headers") (VObj []));
        ("body", Js.or_else (Js.opt_get exec_cfg "body") (VObj []))].

(** The body that the execute stage of an HTTP node sends: none with the
    method GET, else [JSON.stringify(prepRes.body)]. *)
Definition http_body (request : value) : value + error :=
  match Js.get_own request "method" with
  | VStr "GET" => inl VUndef
  | _ => JSON_stringify H (Js.get_own request "body")
  end.

(** The second argument of [fetch]. *)
Definition http_options (request body : value) : value :=
  VObj [("method", Js.get_own request "method");
        ("headers", Js.get_own request "headers"); ("body", body)].

End Requests.

(** What the execute stage of an HTTP node makes of a response:
    [response.json().catch(() => ({}))] is the data. *)
Definition http_result (r : response) : value :=
  VObj [("status", status r);
        ("data", match json r with inl d => d | inr _ => VObj [] end);
        ("headers", headers r)].

Definition llm_not_configured : error :=
  JsError "LLM environment not configured. Provide env.llm.call function.".

(** [nodeConfig.retry?.wait || 0] *)
Definition retry_wait (nodeConfig : value) : outcome Z :=
  as_int (Js.or_else (Js.opt_get (Js.get_own nodeConfig "retry") "wait") (VNum 0)).

(** [nodeConfig.prep?.inputs?.[0]?.path || 'items'], as the key under
    which a batch node looks for its collection. *)
Definition batch_key (nodeConfig : value) : string :=
  Js.to_string
    (Js.or_else
       (Js.opt_get (Js.opt_get (Js.opt_get (Js.get_own nodeConfig "prep") "inputs") "0")
          "path")
       (VStr "items")).

(** ** More concrete hosts, nodes and descriptions *)

Module Examples.
Import Sample.

(** A host that would evaluate dotted expressions if it were asked to. *)
Definition eager_host : host :=
  {| js_function := λ expr ctx result,
       if Str.includes_dot expr then inl (VStr "evaluated")
       else sample_function expr ctx result;
     JSON_stringify := sample_stringify |}.

Definition greeting_context : value :=
  VObj [("ctx", VObj [("name", VStr "World")]); ("result", VUndef)].

(** A node of class [Node] with the stages [e] and [po], [max] attempts
    and [w] seconds between them. *)
Definition plain_node (max w : Z) (e : value → value → M (@env nat) value)
    (po : value → value → value → M (@env nat) value) : @node nat :=
  {| class := CNode; params := VObj []; successors := 1%positive;
     maxRetries := max; wait := w; curRetry := 0; startNode := None;
     prep := λ _, ret (VStr "input"); exec := e; exec_async := true;
     execFallback := default_execFallback; post := po |}.
Definition store_of (nd : @node nat) : @state nat :=
  {| nodes := {[ 1%positive := nd ]}; tables := {[ 1%positive := ∅ ]};
     outer := {| shared := VObj []; world := O |}; log := [] |}.
Definition return_result : value → value → value → M (@env nat) value :=
  λ _ _ execRes, ret execRes.

(** An execute stage that counts its calls and returns its argument. *)
Definition counting_exec : value → value → M (@env nat) value :=
  λ _ item σ, (Done item, {| shared := shared σ; world := S (world σ) |}).

(** An [async] entry node, and a description with an [async] and a
    [batch] node. *)
Definition async_entry : value :=
  VObj [("version", VStr "pf-js/1.0"); ("entry", VStr "a");
        ("nodes", VArr [VObj [("id", VStr "a"); ("kind", VStr "async")]]);
        ("edges", VArr [])].
Definition mixed : value :=
  VObj [("version", VStr "pf-js/1.0"); ("entry", VStr "a");
        ("globals", VObj [("model", VStr "m")]);
        ("nodes", VArr [VObj [("id", VStr "a"); ("kind", VStr "parallel")];
                        VObj [("id", VStr "b"); ("kind", VStr "batch")]]);
        ("edges", VArr [edge "a" "b"])].

(** An LLM node spec with two attempts, and a collaborator that repeats
    the prompt. *)
Definition ask : value :=
  VObj [("id", VStr "ask"); ("kind", VStr "llm");
        ("retry", VObj [("max", VNum 2)]);
        ("exec", VObj [("prompt", VStr "Hello {{ctx.name}}!")]);
        ("post", VObj [("next", VStr "done")])].
Definition echo_llm : value → M (@env unit) value :=
  λ request, ret (VObj [("text", Js.get_own request "prompt")]).

Definition note : value :=
  VObj [("id", VStr "note"); ("kind", VStr "data");
        ("exec", VObj [("message", VStr "hi")]);
        ("post", VObj [("next", VStr "done")])].

End Examples.

(** *** class BatchFlow *)

Section BatchFlow.
Context {W : Type}.

(** [{ ...a, ...b }]: the fields of [a], each overridden by the field of
    [b] with the same key, then the other fields of [b]. *)
Definition fields_of (v : value) : list (string * value) :=
  match spread v with
  | VObj fs => fs
  | _ => []
  end.
Definition merge (a b : value) : value :=
  VObj (fold_left (λ acc kv, Js.assoc_set kv.1 kv.2 acc) (fields_of b) (fields_of a)).

(** [for (const bp of pr) await this._orch(shared, { ...this.params, ...bp })] *)
Fixpoint batch_loop (fuel : nat) (this : ref) (pr : list value) : M (@state W) unit :=
  match pr with
  | [] => ret tt
  | bp :: rest =>
      let! fl := read this in
      _orch fuel this (merge (params fl) bp);;
      batch_loop fuel this rest
  end.

(** [BatchFlow._run], for a batch flow that is run itself: the method is
    entered on the receiver, whatever the store says of its class. *)
Definition BatchFlow_run (fuel : nat) (this : ref) : M (@state W) value :=
  let! fl := read this in
  let! p := stage (prep fl (params fl)) in
  let pr := Js.or_else p (VArr []) in
  let! l := of_outcome (iterate pr) in
  batch_loop fuel this l;;
  let! fl := read this in
  stage (post fl (params fl) pr VNull).

End BatchFlow.

(** *** The asynchronous classes

    An object of an asynchronous class has, besides the stages of
    [BaseNode], the stages [prepAsync], [execAsync], [execFallbackAsync]
    and [postAsync].  They are kept beside the store, by reference; an
    object without an entry has the stages of its class.  A copy made by
    [{ ...node }] has the stages of its original. *)

Section AsyncEngine.
Context {W : Type}.

Record async_stages := {
  prepAsync : value → M (@env W) value;
  execAsync : value → value → M (@env W) value;
  execFallbackAsync : value → value → error → M (@env W) value;
  postAsync : value → value → value → M (@env W) value
}.

(** [async prepAsync(shared) {}], [async execAsync(prepRes) {}],
    [async execFallbackAsync(prepRes, exc) { throw exc; }] and
    [async postAsync(shared, prepRes, execRes) {}] in class [AsyncNode];
    in class [AsyncFlow], [postAsync] returns [execRes]. *)
Definition class_stages (c : node_class) : async_stages :=
  {| prepAsync := λ _, ret VUndef;
     execAsync := λ _ _, ret VUndef;
     execFallbackAsync := λ _ _ exc, throw exc;
     postAsync := if instanceof_Flow c then (λ _ _ execRes, ret execRes)
                  else (λ _ _ _, ret VUndef) |}.

Record astate := { sync : @state W; stages_of : gmap ref async_stages }.

Definition lift {A} (m : M (@state W) A) : M astate A :=
  λ a, let '(r, s') := m (sync a) in (r, {| sync := s'; stages_of := stages_of a |}).

(** The stages of the object [this], which the store knows as [nd]. *)
Definition stages_at (a : astate) (this : ref) (nd : @node W) : async_stages :=
  default (class_stages (class nd)) (stages_of a !! this).

Definition read_stages (this : ref) : M astate async_stages :=
  λ a, match nodes (sync a) !! this with
       | Some nd => (Done (stages_at a this nd), a)
       | None => (Unmodelled, a)
       end.

Definition aclone (r : ref) : M astate ref :=
  let! c := lift (clone r) in
  modify (λ a, {| sync := sync a;
                  stages_of := match stages_of a !! r with
                               | Some st => <[c := st]> (stages_of a)
                               | None => stages_of a
                               end |});;
  ret c.

(** [AsyncNode._exec]: the retry loop of [Node._exec] over [execAsync]
    and [execFallbackAsync]. *)
Fixpoint async_retry_loop (fuel : nat) (this : ref) (prepRes : value) : M astate value :=
  match fuel with
  | O => out_of_fuel
  | S fuel' =>
      let! nd := lift (read this) in
      if curRetry nd <? maxRetries nd then
        let! st := read_stages this in
        lift (emit (EvExec prepRes));;
        try_catch (lift (stage (execAsync st (params nd) prepRes))) (λ e,
          let! nd := lift (read this) in
          if curRetry nd =? maxRetries nd - 1 then
            let! st := read_stages this in
            lift (emit (EvFallback prepRes e));;
            lift (stage (execFallbackAsync st (params nd) prepRes e))
          else
            (if 0 <? wait nd then lift (emit (EvSleep (wait nd * 1000))) else ret tt);;
            lift (write this (set_curRetry (curRetry nd + 1)));;
            async_retry_loop fuel' this prepRes)
      else ret VUndef
  end.

Definition AsyncNode_exec (this : ref) (prepRes : value) : M astate value :=
  lift (write this (set_curRetry 0));;
  let! nd := lift (read this) in
  async_retry_loop (S (Z.to_nat (maxRetries nd))) this prepRes.

(** [AsyncBatchNode._exec]:
    [for (const item of (items || [])) results.push(await super._exec(item))] *)
Fixpoint async_each (this : ref) (items : list value) : M astate (list value) :=
  match items with
  | [] => ret []
  | item :: rest =>
      let! v := AsyncNode_exec this item in
      let! vs := async_each this rest in
      ret (v :: vs)
  end.

Definition AsyncBatchNode_exec (this : ref) (items : value) : M astate value :=
  let! l := of_outcome (iterate (Js.or_else items (VArr []))) in
  let! vs := async_each this l in
  ret (VArr vs).

(** [_exec] of the asynchronous node classes; the concurrent one is not
    modelled here. *)
Definition async_exec (this : ref) (prepRes : value) : M astate value :=
  let! nd := lift (read this) in
  match class nd with
  | CAsyncNode => AsyncNode_exec this prepRes
  | CAsyncBatchNode => AsyncBatchNode_exec this prepRes
  | _ => unmodelled
  end.

(** [AsyncNode._runAsync] *)
Definition AsyncNode_runAsync (this : ref) : M astate value :=
  let! nd := lift (read this) in
  let! st := read_stages this in
  let! p := lift (stage (prepAsync st (params nd))) in
  let! e := async_exec this p in
  let! nd := lift (read this) in
  let! st := read_stages this in
  lift (stage (postAsync st (params nd) p e)).

(** The loop of [AsyncFlow._orchAsync]:
    [curr instanceof AsyncNode ? await curr._runAsync(shared) : await curr._run(shared)] *)
Fixpoint orchAsync_loop (fuel : nat) (curr : ref) (p : value) : M astate value :=
  match fuel with
  | O => out_of_fuel
  | S fuel' =>
      lift (setParams curr p);;
      let! nd := lift (read curr) in
      let! lastAction :=
        if instanceof_AsyncNode (class nd) then AsyncNode_runAsync curr
        else lift (_run fuel' curr) in
      let! nextNode := lift (getNextNode curr lastAction) in
      match nextNode with
      | Successor nxt =>
          let! curr' := aclone nxt in
          lift (emit (EvVisit nxt));;
          orchAsync_loop fuel' curr' p
      | Member => throw not_a_node
      | NoSuccessor => ret lastAction
      end
  end.

Definition _orchAsync (fuel : nat) (this : ref) (params_arg : value) : M astate value :=
  let! fl := lift (read this) in
  match startNode fl with
  | None => throw (JsTypeError "Cannot convert undefined or null to object")
  | Some start =>
      let! curr := aclone start in
      lift (emit (EvVisit start));;
      let p := if Js.truthy params_arg then params_arg else spread (params fl) in
      orchAsync_loop fuel curr p
  end.

(** [AsyncFlow._runAsync] and [AsyncBatchFlow._runAsync] *)
Definition AsyncFlow_runAsync (fuel : nat) (this : ref) : M astate value :=
  let! fl := lift (read this) in
  let! st := read_stages this in
  let! p := lift (stage (prepAsync st (params fl))) in
  let! e := _orchAsync fuel this VNull in
  let! fl := lift (read this) in
  let! st := read_stages this in
  lift (stage (postAsync st (params fl) p e)).

Fixpoint async_batch_loop (fuel : nat) (this : ref) (pr : list value) : M astate unit :=
  match pr with
  | [] => ret tt
  | bp :: rest =>
      let! fl := lift (read this) in
      _orchAsync fuel this (merge (params fl) bp);;
      async_batch_loop fuel this rest
  end.

Definition AsyncBatchFlow_runAsync (fuel : nat) (this : ref) : M astate value :=
  let! fl := lift (read this) in
  let! st := read_stages this in
  let! p := lift (stage (prepAsync st (params fl))) in
  let pr := Js.or_else p (VArr []) in
  let! l := of_outcome (iterate pr) in
  async_batch_loop fuel this l;;
  let! fl := lift (read this) in
  let! st := read_stages this in
  lift (stage (postAsync st (params fl) pr VNull)).

(** [runAsync(shared)], as the object's class resolves it. *)
Definition runAsync (fuel : nat) (this : ref) : M astate value :=
  let! nd := lift (read this) in
  match class nd with
  | CAsyncNode | CAsyncBatchNode => AsyncNode_runAsync this
  | CAsyncFlow => AsyncFlow_runAsync fuel this
  | CAsyncBatchFlow => AsyncBatchFlow_runAsync fuel this
  | CAsyncParallelBatchNode => unmodelled
  | CNode | CBatchNode | CFlow => throw (JsTypeError "runAsync is not a function")
  end.

(** [x], reached from [a0] on the store with the asynchronous stages, is
    [y] on the store inside it, and the objects of [N0] have the stages
    they had in [a0]. *)
Definition agrees {A} (N0 : gmap ref (@node W)) (a0 : astate)
    (x : outcome A * astate) (y : outcome A * @state W) : Prop :=
  x.1 = y.1 ∧ sync x.2 = y.2 ∧
  ∀ r, is_Some (N0 !! r) → stages_of x.2 !! r = stages_of a0 !! r.

(** The trace of a batch whose elements all fail [max] times with the
    error [err] and get [w] seconds between attempts. *)
Definition failing_batch_trace (w : Z) (max : nat) (err : value → error)
    (items : list value) : list event :=
  concat ((λ item, failing_trace item w (replicate max (err item))) <$> items).

End AsyncEngine.

Module EngineExamples.
Import Sample.

(** The hand-wired flow of two nodes as a batch flow over two parameter
    objects. *)
Definition two_step_batch : @node unit :=
  {| class := CFlow; params := VObj [("run", VNum 1)]; successors := 3%positive;
     maxRetries := 1; wait := 0; curRetry := 0; startNode := Some 1%positive;
     prep := λ _, ret (VArr [VObj [("run", VNum 2)]; VObj [("k", VNum 3)]]);
     exec := default_exec; exec_async := false;
     execFallback := default_execFallback; post := Flow_post |}.
Definition batch_flow_store : @state unit :=
  {| nodes := {[ 1%positive := leaf (VStr "") 1%positive;
                 2%positive := leaf (VStr "done") 2%positive;
                 3%positive := two_step_batch ]};
     tables := {[ 1%positive := {[ "default" := 2%positive ]};
                  2%positive := ∅; 3%positive := ∅ ]};
     outer := {| shared := VObj []; world := tt |}; log := [] |}.

(** An asynchronous batch node with two attempts, one second apart; its
    [execAsync] rejects with its argument, its fallback returns the
    element "a" and rejects for any other. *)
Definition async_batch : @node unit :=
  {| class := CAsyncBatchNode; params := VObj []; successors := 1%positive;
     maxRetries := 2; wait := 1; curRetry := 0; startNode := None;
     prep := default_prep; exec := default_exec; exec_async := false;
     execFallback := default_execFallback; post := default_post |}.
Definition rejecting : @async_stages unit :=
  {| prepAsync := λ _, ret VUndef;
     execAsync := λ _ item, throw (JsThrown item);
     execFallbackAsync := λ _ item exc,
       match item with
       | VStr "a" => ret item
       | _ => throw exc
       end;
     postAsync := λ _ _ execRes, ret execRes |}.
Definition async_batch_store : @astate unit :=
  {| sync := {| nodes := {[ 1%positive := async_batch ]};
                tables := {[ 1%positive := ∅ ]};
                outer := {| shared := VObj []; world := tt |}; log := [] |};
     stages_of := {[ 1%positive := rejecting ]} |}.

(** An asynchronous flow whose start node is an asynchronous node. *)
Definition inner_flow : @node unit :=
  {| class := CAsyncFlow; params := VObj []; successors := 1%positive;
     maxRetries := 1; wait := 0; curRetry := 0; startNode := Some 2%positive;
     prep := default_prep; exec := default_exec; exec_async := false;
     execFallback := default_execFallback; post := Flow_post |}.
Definition async_leaf : @node unit :=
  {| class := CAsyncNode; params := VObj []; successors := 2%positive;
     maxRetries := 1; wait := 0; curRetry := 0; startNode := None;
     prep := default_prep; exec := default_exec; exec_async := false;
     execFallback := default_execFallback; post := default_post |}.
Definition nested_store : @astate unit :=
  {| sync := {| nodes := {[ 1%positive := inner_flow; 2%positive := async_leaf ]};
                tables := {[ 1%positive := ∅; 2%positive := ∅ ]};
                outer := {| shared := VObj []; world := tt |}; log := [] |};
     stages_of := ∅ |}.

(** The hand-wired flow of two nodes as an asynchronous flow. *)
Definition two_step_async_flow : @node unit :=
  {| class := CAsyncFlow; params := VObj [("run", VNum 1)]; successors := 3%positive;
     maxRetries := 1; wait := 0; curRetry := 0; startNode := Some 1%positive;
     prep := default_prep; exec := default_exec; exec_async := false;
     execFallback := default_execFallback; post := Flow_post |}.
Definition two_step_async : @astate unit :=
  {| sync := {| nodes := {[ 1%positive := leaf (VStr "") 1%positive;
                            2%positive := leaf (VStr "done") 2%positive;
                            3%positive := two_step_async_flow ]};
                tables := {[ 1%positive := {[ "default" := 2%positive ]};
                             2%positive := ∅; 3%positive := ∅ ]};
                outer := {| shared := VObj []; world := tt |}; log := [] |};
     stages_of := ∅ |}.

(** A batch node over the collection under [docs]. *)
Definition collect : value :=
  VObj [("id", VStr "collect"); ("kind", VStr "batch");
        ("prep", VObj [("inputs", VArr [VObj [("path", VStr "docs")]])]);
        ("post", VObj [("next", VStr "done")])].

(** An HTTP node that posts to a service, and a [fetch] that answers
    every request with the status 500 and a body that is not JSON. *)
Definition report : value :=
  VObj [("id", VStr "report"); ("kind", VStr "http");
        ("exec", VObj [("url", VStr "https://example.org/{{ctx.name}}");
                       ("method", VStr "POST"); ("body", VNum 7)]);
        ("post", VObj [("next", VStr "done")])].
Definition failing_service : value → value → M (@env unit) response :=
  λ _ _, ret {| status := VNum 500;
                json := inr (JsThrown (VStr "SyntaxError: Unexpected token"));
                headers := VObj [] |}.

End EngineExamples.

(** * Proofs *)

Local Open Scope list_scope.

Lemma bind_Done {S A B} (m : M S A) (k : A → M S B) s a s' :
  m s = (Done a, s') → bind m k s = k a s'.
Proof. unfold bind. by intros ->. Qed.

Lemma bind_Throw {S A B} (m : M S A) (k : A → M S B) s e s' :
  m s = (Throw e, s') → bind m k s = (Throw e, s').
Proof. unfold bind. by intros ->. Qed.

Section StoreFacts.
Context {W : Type}.
Implicit Types (s : @state W) (nd : @node W) (this r : ref).

Lemma read_Some this nd s :
  nodes s !! this = Some nd → read this s = (Done nd, s).
Proof. unfold read. by intros ->. Qed.

Lemma write_Some this f nd s :
  nodes s !! this = Some nd →
  write this f s = (Done tt, with_nodes <[this := f nd]> s).
Proof. intros H. unfold write. by rewrite (bind_Done _ _ _ _ _ (read_Some _ _ _ H)). Qed.

End StoreFacts.

Section RetryFacts.
Context {W : Type}.
Implicit Types (s : @state W) (nd : @node W) (this r : ref).

Lemma set_curRetry_same nd : set_curRetry (curRetry nd) nd = nd.
Proof. by destruct nd. Qed.

Lemma retry_loop_exhausts n : ∀ fuel this p s nd,
  nodes s !! this = Some nd →
  always_throws (exec nd (params nd) p) →
  curRetry nd + Z.of_nat n + 1 = maxRetries nd →
  (n < fuel)%nat →
  ∃ es σ',
    attempts (exec nd (params nd) p) (S n) (outer s) = (es, σ') ∧
    length es = S n ∧
    retry_loop fuel this p s =
      stage (execFallback nd (params nd) p (List.last es (JsError "")))
        {| nodes := <[this := set_curRetry (maxRetries nd - 1) nd]> (nodes s);
           tables := tables s; outer := σ';
           log := log s ++ failing_trace p (wait nd) es |}.
Proof.
  induction n as [|n IH]; intros fuel this p s nd Hnd Hthrow Hcur Hfuel.
  - destruct fuel as [|fuel]; [lia|].
    destruct (Hthrow (outer s)) as (e & σ' & He).
    exists [e], σ'. simpl. rewrite He. split; [done|]. split; [done|].
    rewrite (bind_Done _ _ _ _ _ (read_Some _ _ _ Hnd)).
    replace (curRetry nd <? maxRetries nd) with true by (symmetry; apply Z.ltb_lt; lia).
    unfold emit, modify, bind at 1, try_catch, stage at 1. simpl. rewrite He.
    erewrite bind_Done by (by apply read_Some).
    replace (curRetry nd =? maxRetries nd - 1) with true by (symmetry; apply Z.eqb_eq; lia).
    unfold bind, stage. simpl.
    replace (maxRetries nd - 1) with (curRetry nd) by lia.
    rewrite set_curRetry_same, (insert_id _ _ _ Hnd), <- app_assoc. done.
  - destruct fuel as [|fuel]; [lia|].
    destruct (Hthrow (outer s)) as (e & σ1 & He).
    set (s1 := {| nodes := <[this := set_curRetry (curRetry nd + 1) nd]> (nodes s);
                  tables := tables s; outer := σ1;
                  log := log s ++ EvExec p :: (if 0 <? wait nd then [EvSleep (wait nd * 1000)] else []) |}).
    destruct (IH fuel this p s1 (set_curRetry (curRetry nd + 1) nd)) as (es & σ' & Hes & Hlen & Hrun).
    { simpl. apply lookup_insert_eq. }
    { done. }
    { simpl. lia. }
    { lia. }
    exists (e :: es), σ'. simpl in Hes |- *. rewrite He.
    simpl in Hes. rewrite Hes. split; [done|]. split; [simpl; by rewrite Hlen|].
    rewrite (bind_Done _ _ _ _ _ (read_Some _ _ _ Hnd)).
    replace (curRetry nd <? maxRetries nd) with true by (symmetry; apply Z.ltb_lt; lia).
    unfold emit, modify, bind at 1, try_catch, stage at 1. simpl. rewrite He.
    erewrite bind_Done by (by apply read_Some).
    replace (curRetry nd =? maxRetries nd - 1) with false by (symmetry; apply Z.eqb_neq; lia).
    assert (Hstep :
      ((if 0 <? wait nd then emit (EvSleep (wait nd * 1000)) else ret ());;
       write this (set_curRetry (curRetry nd + 1));;
       retry_loop fuel this p)
        {| nodes := nodes s; tables := tables s; outer := σ1;
           log := log s ++ [EvExec p] |} = retry_loop fuel this p s1).
    { unfold s1. destruct (0 <? wait nd); unfold emit, modify, ret, bind at 1; simpl;
        (erewrite bind_Done by (by apply write_Some)); unfold with_nodes; simpl;
        rewrite <- ?app_assoc; done. }
    transitivity (retry_loop fuel this p s1); [exact Hstep|].
    rewrite Hrun. unfold s1. simpl.
    rewrite insert_insert_eq, <- app_assoc. simpl.
    destruct es as [|e' es']; [done|]. simpl. done.
Qed.


Lemma failing_trace_counts p w es :
  es ≠ [] →
  count is_exec (failing_trace p w es) = length es ∧
  count is_fallback (failing_trace p w es) = 1%nat ∧
  count is_sleep (failing_trace p w es) = (if 0 <? w then (length es - 1)%nat else 0%nat) ∧
  List.last (failing_trace p w es) (EvExec p)
    = EvFallback p (List.last es (JsError "")).
Proof.
  unfold count. induction es as [|e [|e' es'] IH]; intros Hne; [done| |].
  - simpl. by destruct (0 <? w).
  - destruct IH as (IH1 & IH2 & IH3 & IH4); [done|].
    change (failing_trace p w (e :: e' :: es'))
      with (EvExec p :: (if 0 <? w then [EvSleep (w * 1000)] else [])
              ++ failing_trace p w (e' :: es')).
    change (List.last (e :: e' :: es') (JsError ""))
      with (List.last (e' :: es') (JsError "")).
    destruct (0 <? w); simpl List.filter; simpl length;
      simpl in IH1, IH2, IH3, IH4 |- *; rewrite ?IH1, ?IH2, ?IH3;
      repeat split; try lia.
    + destruct es'; simpl in *; done.
    + destruct es'; simpl in *; done.
Qed.

(** C1. A node of class [Node] with [maxRetries = k >= 1] whose execute
    stage throws on every call: its lifecycle calls the execute stage
    exactly [k] times, then the fallback hook exactly once, with the error
    of the last attempt, and the outcome of [_exec] is the outcome of the
    hook; with the default hook the lifecycle re-raises that error.  A
    positive [wait] puts one delay after each attempt but the last. *)
Theorem Node_retries_then_fallback (fuel : nat) this s nd p σ0 :
  nodes s !! this = Some nd →
  class nd = CNode →
  1 ≤ maxRetries nd →
  prep nd (params nd) (outer s) = (Done p, σ0) →
  always_throws (exec nd (params nd) p) →
  ∃ es σ',
    let k := Z.to_nat (maxRetries nd) in
    let evs := failing_trace p (wait nd) es in
    let e_last := List.last es (JsError "") in
    let s_k := {| nodes := <[this := set_curRetry (maxRetries nd - 1) nd]> (nodes s);
                  tables := tables s; outer := σ'; log := log s ++ evs |} in
    attempts (exec nd (params nd) p) k σ0 = (es, σ') ∧
    length es = k ∧
    count is_exec evs = k ∧
    count is_fallback evs = 1%nat ∧
    count is_sleep evs = (if 0 <? wait nd then (k - 1)%nat else 0%nat) ∧
    List.last evs (EvExec p) = EvFallback p e_last ∧
    _exec this p {| nodes := nodes s; tables := tables s; outer := σ0; log := log s |}
      = stage (execFallback nd (params nd) p e_last) s_k ∧
    (execFallback nd = default_execFallback →
     _run fuel this s = (Throw e_last, s_k)).
Proof.
  intros Hnd Hcls Hk Hprep Hthrow.
  set (nd0 := set_curRetry 0 nd).
  set (s0 := {| nodes := <[this := nd0]> (nodes s); tables := tables s;
                outer := σ0; log := log s |}).
  destruct (retry_loop_exhausts (Z.to_nat (maxRetries nd) - 1)
              (S (Z.to_nat (maxRetries nd))) this p s0 nd0)
    as (es & σ' & Hes & Hlen & Hloop).
  { apply lookup_insert_eq. }
  { done. }
  { simpl. lia. }
  { lia. }
  replace (S (Z.to_nat (maxRetries nd) - 1)) with (Z.to_nat (maxRetries nd)) in Hes, Hlen by lia.
  exists es, σ'. cbv zeta.
  destruct (failing_trace_counts p (wait nd) es) as (C1 & C2 & C3 & C4).
  { intros ->. simpl in Hlen. lia. }
  assert (Hexec : _exec this p {| nodes := nodes s; tables := tables s; outer := σ0; log := log s |}
     = stage (execFallback nd (params nd) p (List.last es (JsError "")))
        {| nodes := <[this := set_curRetry (maxRetries nd - 1) nd]> (nodes s);
           tables := tables s; outer := σ';
           log := log s ++ failing_trace p (wait nd) es |}).
  { unfold _exec. erewrite bind_Done by (by apply read_Some). rewrite Hcls.
    unfold Node_exec. erewrite bind_Done by (by apply write_Some).
    erewrite bind_Done by (apply read_Some; apply lookup_insert_eq).
    etrans; [exact Hloop|]. simpl. by rewrite insert_insert_eq. }
  rewrite C1, C2, C3, Hlen. repeat split; try done.
  intros Hfb. unfold _run, _run_with.
  erewrite bind_Done by (by apply read_Some). rewrite Hcls.
  unfold bind at 1, stage at 1. rewrite Hprep.
  unfold bind at 1. rewrite Hexec, Hfb. reflexivity.
Qed.

End RetryFacts.
Section FlowFacts.
Context {W : Type}.
Implicit Types (s : @state W) (nd : @node W) (this r curr : ref).

Lemma getNextNode_Some curr action s nd :
  nodes s !! curr = Some nd →
  getNextNode curr action s =
    (find_successor (default ∅ (tables s !! successors nd))
       (Js.to_string (Js.or_else action (VStr "default"))), s).
Proof. intros H. unfold getNextNode. by erewrite bind_Done by (by apply read_Some). Qed.

Lemma find_successor_own table key r :
  table !! key = Some r → find_successor table key = Done (Successor r).
Proof. unfold find_successor. by intros ->. Qed.

Lemma find_successor_absent table key :
  table !! key = None → table !! "__proto__" = None →
  find_successor table key = Done (if Js.inherited key then Member else NoSuccessor).
Proof. unfold find_successor. by intros -> ->. Qed.

Lemma orch_loop_unfold fuel curr p s a s1 :
  (setParams curr p;; _run_with (_orch_with (orch_loop fuel)) curr) s = (Done a, s1) →
  orch_loop (S fuel) curr p s =
    (let! nextNode := getNextNode curr a in
     match nextNode with
     | Successor nxt =>
         let! curr' := clone nxt in emit (EvVisit nxt);; orch_loop fuel curr' p
     | Member => throw not_a_node
     | NoSuccessor => ret a
     end) s1.
Proof.
  intros H. simpl. unfold bind in H |- *.
  destruct (setParams curr p s) as [[| | |] s0]; try done.
  destruct (_run_with _ curr s0) as [[| | |] s0']; try done.
  by inversion H.
Qed.

Lemma traverses_orch_loop p fuel c s fuel' c' s' :
  traverses p fuel c s fuel' c' s' →
  orch_loop fuel c p s = orch_loop fuel' c' p s'.
Proof.
  induction 1 as [|fuel c s a s1 nxt c1 s2 fuel' c' s' Hrun Hnext Hclone _ IH]; [done|].
  rewrite (orch_loop_unfold _ _ _ _ _ _ Hrun).
  erewrite bind_Done by exact Hnext.
  rewrite <- IH. unfold bind in Hclone |- *.
  destruct (clone nxt s1) as [[| | |] s1']; try done.
  unfold emit, modify in *. simpl in *. by inversion Hclone.
Qed.

End FlowFacts.
(** ** The registered graph is a frame of every run

    [N0] and [T0] are the node objects and the successor tables before a
    run.  [keeps m Q]: [m] leaves them as they are, and [Q] holds of the
    value it returns. *)
Section Frame.
Context {W : Type}.
Variable N0 : gmap ref (@node W).
Variable T0 : gmap ref (gmap string ref).
Implicit Types (s : @state W) (nd : @node W) (this r curr : ref).

Local Abbreviation inv := (unchanged N0 T0).
Local Abbreviation keeps := (keeps N0 T0).
Local Abbreviation runnable := (runnable N0).

Lemma keeps_weaken {A} (m : M state A) (Q R : A → Prop) :
  keeps m Q → (∀ a, Q a → R a) → keeps m R.
Proof. intros H HQR s Hs. destruct (H s Hs). split; auto. Qed.

Lemma keeps_ret {A} (a : A) (Q : A → Prop) : Q a → keeps (ret a) Q.
Proof. intros HQ s Hs. simpl. split; [done|]. by intros ? [= <-]. Qed.

Lemma keeps_bind {A B} (m : M state A) (k : A → M state B) Q R :
  keeps m Q → (∀ a, Q a → keeps (k a) R) → keeps (bind m k) R.
Proof.
  intros Hm Hk s Hs. unfold bind. destruct (Hm s Hs) as [Hi HQ].
  destruct (m s) as [[a|e| |] s1]; simpl in *; try (split; [done|done]).
  exact (Hk a (HQ a eq_refl) s1 Hi).
Qed.

Lemma keeps_throw {A} e (Q : A → Prop) : keeps (throw e) Q.
Proof. intros s Hs. split; done. Qed.
Lemma keeps_out_of_fuel {A} (Q : A → Prop) : keeps out_of_fuel Q.
Proof. intros s Hs. split; done. Qed.
Lemma keeps_of_outcome {A} (o : outcome A) : keeps (of_outcome o) (λ _, True).
Proof. intros s Hs. split; done. Qed.

Lemma keeps_try_catch {A} (m : M state A) h (Q : A → Prop) :
  keeps m Q → (∀ e, keeps (h e) Q) → keeps (try_catch m h) Q.
Proof.
  intros Hm Hh s Hs. unfold try_catch. destruct (Hm s Hs) as [Hi HQ].
  destruct (m s) as [[a|e| |] s1]; simpl in *; try (split; [done|done]).
  exact (Hh e s1 Hi).
Qed.

Lemma keeps_stage {A} (m : M env A) : keeps (stage m) (λ _, True).
Proof.
  intros s [Hn Ht]. unfold stage. destruct (m (outer s)) as [r e']. simpl. by split.
Qed.

Lemma keeps_emit ev : keeps (emit ev) (λ _, True).
Proof. intros s [Hn Ht]. simpl. by split. Qed.

Lemma keeps_gets {A} (f : state → A) : keeps (gets f) (λ _, True).
Proof. intros s Hs. simpl. by split. Qed.

(** A registered object is read as it was before the run. *)
Lemma keeps_read this : keeps (read this) (λ nd, ∀ x, N0 !! this = Some x → nd = x).
Proof.
  intros s [Hn Ht]. unfold read. destruct (nodes s !! this) as [nd|] eqn:E; simpl.
  - split; [done|]. intros a [= <-] x Hx. apply Hn in Hx. congruence.
  - split; done.
Qed.

Lemma keeps_write this f : N0 !! this = None → keeps (write this f) (λ _, True).
Proof.
  intros Hfresh. unfold write. eapply keeps_bind; [apply keeps_read|].
  intros nd _ s [Hn Ht]. simpl. split; [|done]. split; [|done].
  intros x nd' Hx. simpl. rewrite lookup_insert_ne; [by apply Hn|]. congruence.
Qed.

Lemma keeps_alloc_node nd : keeps (alloc_node nd) (λ r, N0 !! r = None).
Proof.
  intros s [Hn Ht]. unfold alloc_node. simpl.
  assert (Hf : N0 !! fresh (dom (nodes s)) = None).
  { destruct (N0 !! fresh (dom (nodes s))) as [x|] eqn:E; [|done].
    apply Hn in E. exfalso. eapply (is_fresh (dom (nodes s))).
    apply elem_of_dom. eauto. }
  split; [|by intros ? [= <-]]. split; [|done].
  intros x nd' Hx. simpl. rewrite lookup_insert_ne; [by apply Hn|]. congruence.
Qed.

Lemma keeps_clone r : keeps (clone r) (λ c, N0 !! c = None).
Proof.
  unfold clone. eapply keeps_bind; [apply keeps_read|]. intros. apply keeps_alloc_node.
Qed.

Lemma keeps_getNextNode curr a : keeps (getNextNode curr a) (λ _, True).
Proof.
  unfold getNextNode. eapply keeps_bind; [apply keeps_read|]. intros nd _.
  eapply keeps_bind; [apply keeps_gets|]. intros table _. apply keeps_of_outcome.
Qed.

Lemma keeps_retry_loop fuel this p :
  N0 !! this = None → keeps (retry_loop fuel this p) (λ _, True).
Proof.
  intros Hf. induction fuel as [|fuel IH]; simpl; [apply keeps_out_of_fuel|].
  eapply keeps_bind; [apply keeps_read|]. intros nd _.
  destruct (curRetry nd <? maxRetries nd); [|by apply keeps_ret].
  eapply keeps_bind; [apply keeps_emit|]. intros _ _.
  apply keeps_try_catch; [apply keeps_stage|]. intros e.
  eapply keeps_bind; [apply keeps_read|]. intros nd' _.
  destruct (_ =? _).
  - eapply keeps_bind; [apply keeps_emit|]. intros _ _. apply keeps_stage.
  - eapply keeps_bind.
    { destruct (0 <? _); [apply keeps_emit|by apply (keeps_ret _ (λ _, True))]. }
    intros _ _. eapply keeps_bind; [by apply keeps_write|]. intros _ _. apply IH.
Qed.

Lemma keeps_Node_exec this p :
  N0 !! this = None → keeps (Node_exec this p) (λ _, True).
Proof.
  intros Hf. unfold Node_exec.
  eapply keeps_bind; [by apply keeps_write|]. intros _ _.
  eapply keeps_bind; [apply keeps_read|]. intros nd _. by apply keeps_retry_loop.
Qed.

Lemma keeps_segment fuel this item : ∀ pt,
  N0 !! this = None → keeps (segment fuel this item pt) (λ _, True).
Proof.
  induction fuel as [|fuel IH]; intros pt Hf; simpl; [apply keeps_out_of_fuel|].
  destruct pt as [|e|].
  - eapply keeps_bind; [apply keeps_read|]. intros nd _.
    destruct (curRetry nd <? maxRetries nd); [|by apply keeps_ret].
    eapply keeps_bind; [apply keeps_emit|]. intros _ _ s Hs.
    destruct (keeps_stage (exec nd (params nd) item) s Hs) as [Hi _].
    destruct (stage (exec nd (params nd) item) s) as [[v|e| |] s1]; simpl in *;
      try (split; done).
    destruct (exec_async nd); [split; done|]. by apply IH.
  - eapply keeps_bind; [apply keeps_read|]. intros nd _.
    destruct (_ =? _).
    + eapply keeps_bind; [apply keeps_emit|]. intros _ _.
      apply keeps_try_catch; [|intros; by apply keeps_ret].
      eapply keeps_bind; [apply keeps_stage|]. intros; by apply keeps_ret.
    + destruct (0 <? _); [|by apply IH].
      eapply keeps_bind; [apply keeps_emit|]. intros; by apply keeps_ret.
  - eapply keeps_bind; [apply keeps_read|]. intros nd _.
    eapply keeps_bind; [by apply keeps_write|]. intros _ _. by apply IH.
Qed.

Lemma keeps_launch fuel this items : ∀ i sch,
  N0 !! this = None → keeps (launch fuel this items i sch) (λ _, True).
Proof.
  induction items as [|item rest IH]; intros i sch Hf; simpl; [by apply keeps_ret|].
  eapply keeps_bind; [by apply keeps_write|]. intros _ _.
  eapply keeps_bind; [by apply keeps_segment|]. intros se _. by apply IH.
Qed.

Lemma keeps_resume fuel this t :
  N0 !! this = None → keeps (resume fuel this t) (λ _, True).
Proof.
  intros Hf. unfold resume.
  destruct (t_pending t) as [[v|e]|v|]; try (by apply keeps_ret); by apply keeps_segment.
Qed.

Lemma keeps_drain fuel this : ∀ sch,
  N0 !! this = None → keeps (drain fuel this sch) (λ _, True).
Proof.
  induction fuel as [|fuel IH]; intros sch Hf; simpl; [apply keeps_out_of_fuel|].
  destruct (jobs sch) as [|t rest].
  - destruct (timers sch) as [|t rest]; [by apply keeps_ret|].
    eapply keeps_bind; [by apply keeps_resume|]. intros se _. by apply IH.
  - eapply keeps_bind; [by apply keeps_resume|]. intros se _. by apply IH.
Qed.

Lemma keeps_BatchNode_exec this items :
  N0 !! this = None → keeps (BatchNode_exec this items) (λ _, True).
Proof.
  intros Hf. unfold BatchNode_exec.
  eapply keeps_bind; [apply keeps_of_outcome|]. intros l _.
  eapply keeps_bind; [apply keeps_read|]. intros nd _.
  eapply keeps_bind; [by apply keeps_launch|]. intros sch _.
  eapply keeps_bind; [by apply keeps_drain|]. intros sch' _.
  destruct (rejected sch'); [apply keeps_throw|by apply keeps_ret].
Qed.

Lemma keeps_exec this p : N0 !! this = None → keeps (_exec this p) (λ _, True).
Proof.
  intros Hf. unfold _exec. eapply keeps_bind; [apply keeps_read|]. intros nd _.
  destruct (class nd);
    first [by apply keeps_Node_exec | by apply keeps_BatchNode_exec
          | apply keeps_stage | by intros s Hs].
Qed.

Lemma keeps_run_with (orch : ref → value → M state value) this :
  (∀ t v, keeps (orch t v) (λ _, True)) →
  runnable this → keeps (_run_with orch this) (λ _, True).
Proof.
  intros Horch Hthis. unfold _run_with.
  eapply keeps_bind; [apply keeps_read|]. intros nd Hnd.
  assert (Hnode : instanceof_Flow (class nd) = false → N0 !! this = None).
  { intros Hc. destruct Hthis as [?|(fl & Hfl & Hcf)]; [done|].
    rewrite (Hnd _ Hfl) in Hc. congruence. }
  destruct (class nd); simpl in Hnode;
    try apply keeps_throw;
    (eapply keeps_bind; [apply keeps_stage|]; intros p _;
     eapply keeps_bind; [first [apply keeps_exec; by apply Hnode | apply Horch]|];
     intros e _; eapply keeps_bind; [apply keeps_read|]; intros nd' _;
     apply keeps_stage).
Qed.

Lemma keeps_orch_with (loop : ref → value → M state value) this params_arg :
  (∀ c p, N0 !! c = None → keeps (loop c p) (λ _, True)) →
  keeps (_orch_with loop this params_arg) (λ _, True).
Proof.
  intros Hloop. unfold _orch_with.
  eapply keeps_bind; [apply keeps_read|]. intros fl _.
  destruct (startNode fl) as [st|]; [|apply keeps_throw].
  eapply keeps_bind; [apply keeps_clone|]. intros c Hc.
  eapply keeps_bind; [apply keeps_emit|]. intros _ _. by apply Hloop.
Qed.

Lemma keeps_orch_loop fuel : ∀ curr p,
  N0 !! curr = None → keeps (orch_loop fuel curr p) (λ _, True).
Proof.
  induction fuel as [|fuel IH]; intros curr p Hf; simpl; [apply keeps_out_of_fuel|].
  eapply keeps_bind; [by apply keeps_write|]. intros _ _.
  eapply keeps_bind.
  { apply keeps_run_with; [|by left]. intros t v. by apply keeps_orch_with. }
  intros a _. eapply keeps_bind; [apply keeps_getNextNode|]. intros [|nxt|] _;
    [by apply keeps_ret| |apply keeps_throw].
  eapply keeps_bind; [apply keeps_clone|]. intros c Hc.
  eapply keeps_bind; [apply keeps_emit|]. intros _ _. by apply IH.
Qed.

Lemma keeps_run fuel this : runnable this → keeps (run fuel this) (λ _, True).
Proof.
  intros Hthis. unfold run, _run. apply keeps_run_with; [|done].
  intros t v. apply keeps_orch_with. intros. by apply keeps_orch_loop.
Qed.

End Frame.

Section FlowTheorems.
Context {W : Type}.
Implicit Types (s : @state W) (nd fl : @node W) (this r curr : ref).

Lemma unchanged_refl s : unchanged (nodes s) (tables s) s.
Proof. by split. Qed.

(** C9. A flow run works on copies: every hop allocates a fresh object
    with the fields of the registered node ([clone]), and whatever the
    outcome of the run, every node object registered before it is unchanged
    afterwards (its [params] in particular) and every successor table holds
    exactly the entries it held before. *)
Theorem flow_run_leaves_graph_unchanged (fuel : nat) this s fl o s' :
  nodes s !! this = Some fl →
  instanceof_Flow (class fl) = true →
  run fuel this s = (o, s') →
  (∀ x nd, nodes s !! x = Some nd →
     nodes s' !! x = Some nd ∧
     tables s' !! successors nd = tables s !! successors nd) ∧
  tables s' = tables s ∧
  (∀ r c s1 s2, clone (W:=W) r s1 = (Done c, s2) →
     nodes s1 !! c = None ∧ nodes s2 !! c = nodes s1 !! r ∧ tables s2 = tables s1).
Proof.
  intros Hfl Hcls Hrun.
  destruct (keeps_run (nodes s) (tables s) fuel this) with (s := s) as [[Hn Ht] _].
  { right. eauto. }
  { apply unchanged_refl. }
  rewrite Hrun in Hn, Ht. simpl in Hn, Ht.
  split; [|split; [done|]].
  - intros x nd Hx. split; [by apply Hn|by rewrite Ht].
  - intros r c s1 s2. unfold clone, bind, read, alloc_node.
    destruct (nodes s1 !! r) as [nd|] eqn:E; [|done].
    intros [= <- <-]. simpl. split; [|split; [|done]].
    + apply not_elem_of_dom, is_fresh.
    + by rewrite lookup_insert_eq.
Qed.

(** X31.  Successor resolution reads the table under
    [action || "default"]: every false label ([undefined], [null], [false],
    [0], the empty string) is looked up as "default", a string under
    itself.  When the table has an entry under the key, the loop goes on
    with a copy of that entry.  When it has none, and none under
    [__proto__], the loop returns the label if the key names no member of
    [Object.prototype], and throws a [TypeError] if it names one. *)
Theorem falsy_label_resolves_to_default (fuel : nat) curr p s a s1 nd1 :
  (setParams curr p;; _run_with (_orch_with (orch_loop fuel)) curr) s = (Done a, s1) →
  nodes s1 !! curr = Some nd1 →
  is_label a = true →
  let table := default ∅ (tables s1 !! successors nd1) in
  let key := if Js.truthy a then Js.to_string a else "default" in
  (Js.truthy a = false ↔
     a = VUndef ∨ a = VNull ∨ a = VBool false ∨ a = VNum 0 ∨ a = VStr "") ∧
  getNextNode curr a s1 = (find_successor table key, s1) ∧
  (∀ nxt, table !! key = Some nxt →
     orch_loop (S fuel) curr p s
       = (let! c := clone nxt in emit (EvVisit nxt);; orch_loop fuel c p) s1) ∧
  (table !! key = None → table !! "__proto__" = None →
     orch_loop (S fuel) curr p s
       = if Js.inherited key then (Throw not_a_node, s1) else (Done a, s1)).
Proof.
  intros Hrun Hnd _ table key.
  assert (Hkey : Js.to_string (Js.or_else a (VStr "default")) = key).
  { unfold key, Js.or_else. by destruct (Js.truthy a). }
  assert (Hnext : getNextNode curr a s1 = (find_successor table key, s1)).
  { rewrite (getNextNode_Some _ _ _ _ Hnd). by rewrite Hkey. }
  split; [|split; [done|split]].
  - split.
    + destruct a as [| |[|]|n|str|l|fs|src]; simpl; intros Ht; try done; auto 6.
      * apply negb_false_iff, Z.eqb_eq in Ht. subst. auto 6.
      * apply negb_false_iff in Ht. apply String.eqb_eq in Ht. subst. auto 6.
    + intros [->|[->|[->|[->| ->]]]]; done.
  - intros nxt Hown. rewrite (orch_loop_unfold _ _ _ _ _ _ Hrun).
    unfold bind at 1. by rewrite Hnext, (find_successor_own _ _ _ Hown).
  - intros Hnone Hproto. rewrite (orch_loop_unfold _ _ _ _ _ _ Hrun).
    unfold bind at 1. rewrite Hnext, (find_successor_absent _ _ Hnone Hproto).
    by destruct (Js.inherited key).
Qed.

(** C3, as the code has it.  In a traversal by [Flow._orch], when the
    lifecycle of the current node returns a label, a string or a false
    value, whose key (the label itself, "default" for a false one) is
    absent from the node's successor table and names no member of
    [Object.prototype], and the table has no entry under [__proto__], the
    traversal ends without an exception and returns that label, and so
    does the run, by [Flow._run], of a flow whose own [prep] and [post]
    are those of class [Flow]. *)
Theorem flow_ends_on_unmatched_label (fuel fuel' : nat) this s fl st c s_c c' s' a s1 nd1 :
  nodes s !! this = Some fl →
  startNode fl = Some st →
  (let! c := clone st in emit (EvVisit st);; ret c) s = (Done c, s_c) →
  traverses (spread (params fl)) fuel c s_c (S fuel') c' s' →
  (setParams c' (spread (params fl));;
   _run_with (_orch_with (orch_loop fuel')) c') s' = (Done a, s1) →
  nodes s1 !! c' = Some nd1 →
  is_label a = true →
  default ∅ (tables s1 !! successors nd1)
    !! Js.to_string (Js.or_else a (VStr "default")) = None →
  default ∅ (tables s1 !! successors nd1) !! "__proto__" = None →
  Js.inherited (Js.to_string (Js.or_else a (VStr "default"))) = false →
  _orch fuel this VNull s = (Done a, s1) ∧
  (instanceof_Flow (class fl) = true → prep fl = default_prep → post fl = Flow_post →
   run fuel this s = (Done a, s1)).
Proof.
  intros Hfl Hst Hclone Htrav Hlast Hnd1 _ Hnone Hproto Hplain.
  assert (Hloop : orch_loop fuel c (spread (params fl)) s_c = (Done a, s1)).
  { rewrite (traverses_orch_loop _ _ _ _ _ _ _ Htrav).
    rewrite (orch_loop_unfold _ _ _ _ _ _ Hlast).
    unfold bind at 1. rewrite (getNextNode_Some _ _ _ _ Hnd1).
    by rewrite (find_successor_absent _ _ Hnone Hproto), Hplain. }
  assert (Horch : _orch fuel this VNull s = (Done a, s1)).
  { unfold _orch, _orch_with. erewrite bind_Done by (by apply read_Some).
    rewrite Hst. simpl Js.truthy. cbv iota.
    unfold bind in Hclone |- *. destruct (clone st s) as [[c0| | |] s0]; try done.
    unfold emit, modify, ret in *. simpl in *. inversion Hclone; subst. exact Hloop. }
  split; [exact Horch|]. intros Hcls Hprep Hpost.
  destruct (keeps_orch_with (nodes s) (tables s) (orch_loop fuel) this VNull)
    with (s := s) as [[Hn _] _].
  { intros. by apply keeps_orch_loop. }
  { apply unchanged_refl. }
  change (_orch_with (orch_loop fuel) this VNull s) with (_orch fuel this VNull s) in Hn.
  rewrite Horch in Hn. simpl in Hn.
  unfold run, _run, _run_with.
  erewrite bind_Done by (by apply read_Some).
  destruct (class fl); try done;
    rewrite Hprep; unfold default_prep;
    (erewrite bind_Done by (by destruct s));
    (erewrite bind_Done by (by destruct s; exact Horch));
    (erewrite bind_Done by (apply read_Some; by apply Hn));
    rewrite Hpost; by destruct s1.
Qed.

End FlowTheorems.
Section RouterFacts.
Context {W : Type}.
Variable H : host.

Lemma get_not_nullish o k : nullish o = false → Js.get o k = Done (Js.get_own o k).
Proof. by destruct o. Qed.

Lemma case_holds_spec ctx result case_ :
  nullish case_ = false →
  case_holds H (VObj [("ctx", ctx); ("result", result)]) case_
    = Done (case_matches H ctx result case_).
Proof.
  intros Hc. unfold case_holds, case_matches.
  rewrite (get_not_nullish _ _ Hc). simpl obind.
  destruct (Js.truthy (Js.get_own case_ "when")); simpl; [|done].
  unfold evaluateCondition. simpl.
  by destruct (js_function H _ ctx result).
Qed.

Lemma first_case_spec ctx result cases :
  forallb (λ c, negb (nullish c)) cases = true →
  first_case H (VObj [("ctx", ctx); ("result", result)]) cases
    = Done (match List.find (case_matches H ctx result) cases with
            | Some c => Js.get_own c "label"
            | None => VNull
            end).
Proof.
  induction cases as [|c rest IH]; intros Hall; [done|].
  simpl in Hall. apply andb_true_iff in Hall as [Hc Hrest].
  apply negb_true_iff in Hc. simpl.
  rewrite (case_holds_spec _ _ _ Hc). simpl.
  destruct (case_matches H ctx result c); [by apply get_not_nullish | by apply IH].
Qed.

Lemma find_first {A} (p : A → bool) (l : list A) i x :
  l !! i = Some x → p x = true →
  (∀ j y, (j < i)%nat → l !! j = Some y → p y = false) →
  List.find p l = Some x.
Proof.
  revert i. induction l as [|a l IH]; intros i Hi Hp Hbefore; [done|].
  destruct i as [|i]; simpl in *.
  - inversion Hi; subst. by rewrite Hp.
  - rewrite (Hbefore O a) by (done || lia). apply (IH i); [done|done|].
    intros j y Hj Hy. apply (Hbefore (S j) y); [lia|done].
Qed.

Lemma find_none {A} (p : A → bool) (l : list A) :
  (∀ x, x ∈ l → p x = false) → List.find p l = None.
Proof.
  induction l as [|a l IH]; intros Hall; [done|]. simpl.
  rewrite (Hall a) by left. apply IH. intros x Hx. apply Hall. by right.
Qed.

Lemma router_post_spec nodeConfig cases (σ : @env W) prm p e :
  iterate (Js.or_else (Js.opt_get (Js.get_own nodeConfig "exec") "cases") (VArr []))
    = Done cases →
  forallb (λ c, negb (nullish c)) cases = true →
  nullish (shared σ) = false →
  router_post H nodeConfig prm p e σ
    = (Done (match List.find (case_matches H (shared σ)
                                (Js.get_own (shared σ) "_lastResult")) cases with
             | Some c => Js.get_own c "label"
             | None => VNull
             end), σ).
Proof.
  intros Hcases Hall Hsh. unfold router_post, context_of_shared.
  unfold bind, gets, of_outcome, ret. rewrite (get_not_nullish _ _ Hsh), Hcases.
  by rewrite first_case_spec.
Qed.


End RouterFacts.
Section InterpolateFacts.
Variable H : host.

Lemma append_nil (t : string) : "" +:+ t = t.
Proof. reflexivity. Qed.
Lemma append_cons c (s t : string) : String c s +:+ t = String c (s +:+ t).
Proof. reflexivity. Qed.

Lemma span_all p s t :
  Str.all p s = true →
  Str.span p (s +:+ t) = (s +:+ (Str.span p t).1, (Str.span p t).2).
Proof.
  induction s as [|c s IH]; intros Hall.
  - rewrite append_nil. destruct (Str.span p t); reflexivity.
  - simpl in Hall. apply andb_true_iff in Hall as [Hc Hs].
    rewrite append_cons. simpl. rewrite Hc, (IH Hs). by rewrite append_cons.
Qed.

Lemma span_not_blank s :
  Str.starts_blank s = false → Str.span Str.is_space s = ("", s).
Proof. destruct s as [|c s]; simpl; [done|]. by intros ->. Qed.

Lemma replace_skip_all cb s n :
  (String.length s ≤ n)%nat → Str.replace_placeholders cb n s = "".
Proof.
  revert n. induction s as [|c s IH]; intros n Hn; [done|].
  simpl in *. destruct n as [|n]; [lia|]. apply IH. lia.
Qed.

Lemma length_app_string (a b : string) :
  String.length (a +:+ b) = (String.length a + String.length b)%nat.
Proof.
  induction a as [|c a IH]; [done|]. rewrite append_cons. simpl. by rewrite IH.
Qed.

Lemma app_string_empty (a : string) : a +:+ "" = a.
Proof. induction a as [|c a IH]; [done|]. rewrite append_cons. by rewrite IH. Qed.

Lemma match_single_placeholder expr :
  expr ≠ "" →
  Str.starts_blank expr = false →
  Str.all (λ c, negb (Str.is_brace c)) expr = true →
  Str.match_placeholder ("{{" +:+ expr +:+ "}}")
    = Some ("{{" +:+ expr +:+ "}}", expr, "").
Proof.
  intros Hne Hblank Hall. unfold Str.match_placeholder.
  rewrite !append_cons, append_nil.
  assert (Hsp : Str.span Str.is_space (expr +:+ "}}") = ("", expr +:+ "}}")).
  { apply span_not_blank. destruct expr; [done|]. by rewrite append_cons. }
  rewrite Hsp, (span_all _ _ "}}" Hall). simpl.
  rewrite app_string_empty, !append_nil.
  destruct expr; [done|]. done.
Qed.

Lemma replace_at_match cb c s' m expr rest :
  Str.match_placeholder (String c s') = Some (m, expr, rest) →
  Str.replace_placeholders cb O (String c s')
    = cb m expr +:+ Str.replace_placeholders cb (String.length m - 1) s'.
Proof. intros Hm. cbn [Str.replace_placeholders]. by rewrite Hm. Qed.

Lemma interpolate_single_placeholder context expr :
  expr ≠ "" →
  Str.starts_blank expr = false →
  Str.all (λ c, negb (Str.is_brace c)) expr = true →
  interpolate H (VStr ("{{" +:+ expr +:+ "}}")) context
    = VStr (replacement H context ("{{" +:+ expr +:+ "}}") expr).
Proof.
  intros Hne Hblank Hall. unfold interpolate. f_equal.
  pose proof (match_single_placeholder expr Hne Hblank Hall) as Hm.
  rewrite !append_cons, append_nil in Hm |- *.
  rewrite (replace_at_match _ _ _ _ _ _ Hm).
  rewrite replace_skip_all; [apply app_string_empty|]. simpl. lia.
Qed.

(** C6, as the code has it.  A placeholder whose evaluation throws inside
    the callback's own [try] (no context object to read [ctx] and [result]
    from, or [JSON.stringify] throwing) is left as it stands, braces
    included.  A failure of the general-expression fallback, which an
    expression without a dot reaches when it names no property of the
    evaluation context, is caught inside [evaluateExpression], which
    returns the expression text: the placeholder is then replaced by that
    text, without the braces. *)
Theorem failed_placeholder_evaluation (context : value) (expr : string) :
  expr ≠ "" →
  Str.starts_blank expr = false →
  Str.all (λ c, negb (Str.is_brace c)) expr = true →
  let placeholder := "{{" +:+ expr +:+ "}}" in
  (∀ ctx result e,
     Js.get context "ctx" = Done ctx →
     Js.get context "result" = Done result →
     String.prefix "json(" expr = false →
     Str.includes_dot expr = false →
     Js.assoc_get expr (evalContext_of ctx result) = None →
     Js.inherited expr = false →
     js_function H expr ctx result = inr e →
     interpolate H (VStr placeholder) context = VStr expr) ∧
  (nullish context = true →
     interpolate H (VStr placeholder) context = VStr placeholder) ∧
  (∀ v e,
     String.prefix "json(" expr = true →
     evaluateExpression H (Str.slice_5_m1 expr) context = Done v →
     JSON_stringify H v = inr e →
     interpolate H (VStr placeholder) context = VStr placeholder).
Proof.
  intros Hne Hblank Hall. cbv zeta.
  rewrite (interpolate_single_placeholder _ _ Hne Hblank Hall).
  repeat split.
  - intros ctx result e Hctx Hres Hjson Hdot Hown _ Hfail. f_equal.
    unfold replacement, evaluateExpression. rewrite Hjson, Hctx, Hres.
    cbn [obind]. by rewrite Hdot, Hown, Hfail.
  - intros Hnull. f_equal. unfold replacement, evaluateExpression.
    destruct context; try done; by destruct (String.prefix "json(" expr).
  - intros v e Hjson Hv Hfail. f_equal. unfold replacement.
    rewrite Hjson, Hv. cbn [obind]. by rewrite Hfail.
Qed.

End InterpolateFacts.
Section CompileFacts.
Context {W : Type}.
Implicit Types (s : @state W) (nd : @node W) (r : ref).

Lemma creates_new_object c max w : creates_node (W:=W) (new_object c max w).
Proof.
  intros s r s'. unfold new_object, alloc_table, alloc_node, bind, with_nodes, with_tables.
  simpl. intros [= <- <-]. simpl.
  split; [apply not_elem_of_dom, is_fresh|].
  eexists. split; [apply lookup_insert_eq|]. simpl.
  split; [apply not_elem_of_dom, is_fresh|].
  split; [apply lookup_insert_eq|].
  split; intros x Hx; by rewrite lookup_insert_ne.
Qed.

Lemma creates_of_outcome {A} (o : outcome A) (k : A → M (@state W) ref) :
  (∀ a, creates_node (k a)) → creates_node (let! a := of_outcome o in k a).
Proof.
  intros Hk s r s'. unfold bind, of_outcome. destruct o as [a| | |]; try done.
  apply Hk.
Qed.

Lemma creates_then_write (f : M (@state W) ref) (g : @node W → @node W) :
  creates_node f → (∀ nd, successors (g nd) = successors nd) →
  creates_node (let! r := f in write r g;; ret r).
Proof.
  intros Hf Hg s r s'. unfold bind at 1.
  destruct (f s) as [[r0| | |] s1] eqn:Ef; try done.
  destruct (Hf s r0 s1 Ef) as (Hfresh & nd & Hnd & Ht0 & Ht1 & Hnodes & Htables).
  erewrite bind_Done by (by apply write_Some). unfold ret, with_nodes.
  intros [= <- <-]. simpl. split; [done|].
  exists (g nd). rewrite lookup_insert_eq, Hg. repeat split; try done.
  intros x Hx. rewrite lookup_insert_ne by done. by apply Hnodes.
Qed.

Lemma creates_new_with_retry c cfg : creates_node (W:=W) (new_with_retry c cfg).
Proof.
  unfold new_with_retry. repeat (apply creates_of_outcome; intros ?).
  apply creates_new_object.
Qed.

Lemma default_registry_creates H env_llm env_globals global_fetch kind factory cfg :
  default_registry (W:=W) H env_llm env_globals global_fetch !! kind = Some factory →
  creates_node (factory cfg).
Proof.
  unfold default_registry. intros Hk.
  apply elem_of_list_to_map_2 in Hk.
  repeat (apply elem_of_cons in Hk; destruct Hk as [Heq|Hk];
          [inversion Heq; subst; clear Heq|]);
    [..|by apply elem_of_nil in Hk];
    first [ apply creates_new_with_retry
          | apply creates_then_write;
            [first [apply creates_new_with_retry | apply creates_new_object]|done] ].
Qed.

End CompileFacts.
Section CompileCounts.
Context {W : Type}.
Implicit Types (s : @state W) (nd : @node W) (r : ref) (m : list (value * ref)).

Lemma map_set_fresh m id r :
  includes (fst <$> m) id = false → map_set m id r = m ++ [(id, r)].
Proof.
  induction m as [|[k x] m IH]; simpl; [done|].
  intros Hk. apply orb_false_iff in Hk as [Hk Hm]. by rewrite Hk, IH.
Qed.

Lemma separate_extend s s' refs r :
  separate s refs →
  nodes s !! r = None →
  (∃ nd, nodes s' !! r = Some nd ∧
         tables s !! successors nd = None ∧
         tables s' !! successors nd = Some ∅ ∧
         (∀ x, x ≠ r → nodes s' !! x = nodes s !! x) ∧
         (∀ t, t ≠ successors nd → tables s' !! t = tables s !! t)) →
  separate s' (refs ++ [r]) ∧
  table_of s' r = ∅ ∧
  (∀ x, x ∈ refs → table_of s' x = table_of s x).
Proof.
  intros (Hnd & Hlive & Hinj) Hfresh (nd & Hr & Ht0 & Ht1 & Hnodes & Htables).
  assert (Hnotin : r ∉ refs).
  { intros Hin. destruct (Hlive r Hin) as (nd' & Hnd' & _). congruence. }
  assert (Hold : ∀ x, x ∈ refs → x ≠ r) by (intros x Hx ->; done).
  assert (Hkeep : ∀ x ndx, x ∈ refs → nodes s !! x = Some ndx →
            nodes s' !! x = Some ndx ∧ successors ndx ≠ successors nd ∧
            tables s' !! successors ndx = tables s !! successors ndx).
  { intros x ndx Hx Hndx. rewrite Hnodes by auto. split; [done|].
    destruct (Hlive x Hx) as (ndx' & Hndx' & Hsome).
    assert (ndx' = ndx) as -> by congruence.
    assert (successors ndx ≠ successors nd).
    { intros Heq. rewrite Heq, Ht0 in Hsome. by destruct Hsome. }
    split; [done|]. by apply Htables. }
  split; [split; [|split]|split].
  - apply NoDup_app. split; [done|]. split; [|apply NoDup_singleton].
    intros x Hx Hx'. apply list_elem_of_singleton in Hx'. subst. done.
  - intros x Hx. apply elem_of_app in Hx as [Hx|Hx].
    + destruct (Hlive x Hx) as (ndx & Hndx & Hsome).
      destruct (Hkeep x ndx Hx Hndx) as (H1 & _ & H3).
      exists ndx. split; [done|]. by rewrite H3.
    + apply list_elem_of_singleton in Hx. subst. exists nd. by rewrite Ht1.
  - intros r1 r2 nd1 nd2 H1 H2 Hn1 Hn2 Heq.
    apply elem_of_app in H1 as [H1|H1]; apply elem_of_app in H2 as [H2|H2];
      rewrite ?list_elem_of_singleton in *; subst; try done.
    + rewrite Hnodes in Hn1, Hn2 by auto. by apply (Hinj r1 r2 nd1 nd2).
    + rewrite Hnodes in Hn1 by auto. assert (nd2 = nd) as -> by congruence.
      destruct (Hkeep r1 nd1 H1 Hn1) as (_ & Hne & _). done.
    + rewrite Hnodes in Hn2 by auto. assert (nd1 = nd) as -> by congruence.
      destruct (Hkeep r2 nd2 H2 Hn2) as (_ & Hne & _). done.
  - unfold table_of. by rewrite Hr, Ht1.
  - intros x Hx. unfold table_of.
    destruct (Hlive x Hx) as (ndx & Hndx & Hsome).
    destruct (Hkeep x ndx Hx Hndx) as (H1 & _ & H3). by rewrite H1, Hndx, H3.
Qed.

Lemma create_nodes_spec (C : @PocketFlowCompiler W) :
  (∀ k f cfg, registry C !! k = Some f → creates_node (f cfg)) →
  ∀ nodeConfigs nodeIds m s m' s',
    nodeIds = fst <$> m →
    separate s (snd <$> m) →
    (∀ r, r ∈ snd <$> m → table_of s r = ∅) →
    create_nodes C nodeConfigs nodeIds m s = (Done m', s') →
    separate s' (snd <$> m') ∧
    (∀ r, r ∈ snd <$> m' → table_of s' r = ∅) ∧
    length m' = (length m + length nodeConfigs)%nat.
Proof.
  intros Hreg. induction nodeConfigs as [|cfg rest IH];
    intros nodeIds m s m' s' Hids Hsep Hempty Hrun.
  - simpl in Hrun. inversion Hrun; subst.
    split; [done|]. split; [done|]. simpl. lia.
  - simpl in Hrun. unfold bind at 1, of_outcome in Hrun.
    destruct (Js.get cfg "id") as [id| | |]; try done.
    destruct (includes nodeIds id) eqn:Hinc; [done|].
    destruct (registry C !! Js.to_string (Js.get_own cfg "kind")) as [factory|] eqn:Hf;
      [|by destruct (Js.inherited _)].
    unfold bind at 1 in Hrun.
    destruct (factory cfg s) as [[node| | |] s1] eqn:Hfac; try done.
    destruct (Hreg _ _ cfg Hf s node s1 Hfac) as (Hfresh & Hnew).
    destruct (separate_extend s s1 (snd <$> m) node Hsep Hfresh Hnew)
      as (Hsep1 & Hnew_empty & Hold).
    subst nodeIds. rewrite (map_set_fresh _ _ _ Hinc) in Hrun.
    apply IH in Hrun.
    + destruct Hrun as (H1 & H2 & H3).
      split; [done|]. split; [done|]. rewrite H3, length_app. simpl. lia.
    + by rewrite fmap_app.
    + by rewrite fmap_app.
    + rewrite fmap_app. simpl. intros r Hr.
      apply elem_of_app in Hr as [Hr|Hr].
      * rewrite Hold by done. by apply Hempty.
      * apply list_elem_of_singleton in Hr. by subst.
Qed.

Lemma sum_list_update (f g : ref → nat) (l : list ref) x d :
  NoDup l → x ∈ l →
  (∀ y, y ∈ l → y ≠ x → g y = f y) → g x = (f x + d)%nat →
  sum_list (g <$> l) = (sum_list (f <$> l) + d)%nat.
Proof.
  induction l as [|a l IH]; intros Hnd Hx Hother Hat; [by apply elem_of_nil in Hx|].
  apply NoDup_cons in Hnd as [Ha Hnd]. rewrite !fmap_cons. cbn [sum_list_with id].
  destruct (decide (a = x)) as [->|Hne].
  - rewrite Hat.
    assert (g <$> l = f <$> l) as ->; [|lia].
    apply list_fmap_ext. intros i y Hy. apply Hother.
    + right. by eapply list_elem_of_lookup_2.
    + intros ->. apply Ha. by eapply list_elem_of_lookup_2.
  - apply elem_of_cons in Hx as [->|Hx]; [done|].
    rewrite (Hother a) by (done || left). rewrite IH; try done; [lia|].
    intros y Hy. apply Hother. by right.
Qed.

Lemma map_get_elem m k r : map_get m k = Some r → r ∈ snd <$> m.
Proof.
  unfold map_get. destruct (List.find _ m) as [[k' r']|] eqn:Hf; [|done].
  simpl. intros [= <-]. apply find_some in Hf as [Hin _].
  apply list_elem_of_In in Hin. apply (list_elem_of_fmap_2 snd) in Hin. done.
Qed.

Lemma next_spec s refs from to label :
  separate s refs → from ∈ refs →
  ∃ s1, next from to label s = (Done to, s1) ∧
        nodes s1 = nodes s ∧
        table_of s1 from = <[label := to]> (table_of s from) ∧
        (∀ x, x ∈ refs → x ≠ from → table_of s1 x = table_of s x) ∧
        separate s1 refs.
Proof.
  intros (Hnd & Hlive & Hinj) Hfrom.
  destruct (Hlive from Hfrom) as (nd & Hn & Hsome).
  eexists. unfold next. erewrite bind_Done by (by apply read_Some).
  unfold bind, modify, ret, with_tables. simpl. split; [reflexivity|].
  split; [done|]. split; [|split; [|split; [done|split]]].
  - unfold table_of. simpl. by rewrite Hn, lookup_insert_eq.
  - intros x Hx Hne. unfold table_of. simpl.
    destruct (nodes s !! x) as [ndx|] eqn:Hnx; [|done].
    rewrite lookup_insert_ne; [done|]. intros Heq.
    apply Hne. by apply (Hinj x from ndx nd).
  - intros x Hx. simpl. destruct (Hlive x Hx) as (ndx & Hnx & Hsx).
    exists ndx. split; [done|].
    destruct (decide (successors nd = successors ndx)) as [->|?].
    + rewrite lookup_insert_eq. eauto.
    + by rewrite lookup_insert_ne.
  - simpl. done.
Qed.

Lemma wired_step s s1 refs done r l to :
  NoDup refs → r ∈ refs →
  wired s refs done →
  table_of s1 r = <[l := to]> (table_of s r) →
  (∀ x, x ∈ refs → x ≠ r → table_of s1 x = table_of s x) →
  wired s1 refs (done ++ [(r, l)]).
Proof.
  intros Hnd Hr [Hsum Hdom] Hat Hother. split.
  - rewrite list_to_set_snoc_L.
    destruct (table_of s r !! l) as [old|] eqn:Hl.
    + assert ((r, l) ∈ done) by (apply Hdom; [done|by rewrite Hl]).
      assert (list_to_set done ∪ {[(r, l)]} = (list_to_set done : gset _)) as ->
        by set_solver.
      rewrite <- Hsum. replace (sum_list (links_of s <$> refs))
        with (sum_list (links_of s <$> refs) + 0)%nat by lia.
      apply (sum_list_update _ _ _ r); try done.
      * intros y Hy Hne. unfold links_of. by rewrite Hother.
      * unfold links_of. rewrite Hat, map_size_insert, Hl. unfold id. lia.
    + assert ((r, l) ∉ done).
      { intros Hin. apply Hdom in Hin; [|done]. rewrite Hl in Hin. by destruct Hin. }
      rewrite size_union by set_solver. rewrite size_singleton, <- Hsum.
      apply (sum_list_update _ _ _ r); try done.
      * intros y Hy Hne. unfold links_of. by rewrite Hother.
      * unfold links_of. rewrite Hat, map_size_insert, Hl. lia.
  - intros x k Hx. rewrite elem_of_app, list_elem_of_singleton.
    destruct (decide (x = r)) as [->|Hne].
    + rewrite Hat. destruct (decide (k = l)) as [->|Hk].
      * rewrite lookup_insert_eq. split; [by right|eauto].
      * rewrite lookup_insert_ne by done. rewrite Hdom by done.
        split; [by left|]. intros [?|[= ?]]; done.
    + rewrite Hother by done. rewrite Hdom by done.
      split; [by left|]. intros [?|[= ?]]; done.
Qed.

Lemma get_Done o k v : Js.get o k = Done v → v = Js.get_own o k.
Proof. destruct o; simpl; by intros [= <-]. Qed.

Lemma connect_edges_spec m : ∀ edges s s' done,
  separate s (snd <$> m) →
  wired s (snd <$> m) done →
  connect_edges m edges s = (Done tt, s') →
  ∃ slots,
    Forall2 (λ e sl, slot_of m e = Some sl) edges slots ∧
    separate s' (snd <$> m) ∧
    wired s' (snd <$> m) (done ++ slots) ∧
    nodes s' = nodes s.
Proof.
  induction edges as [|edge rest IH]; intros s s' done Hsep Hw Hrun.
  - simpl in Hrun. inversion Hrun; subst. exists []. rewrite app_nil_r.
    split; [constructor|]. split; [done|]. split; done.
  - simpl in Hrun. unfold bind at 1, of_outcome in Hrun.
    destruct (Js.get edge "from") as [from| | |] eqn:Hfrom; try done.
    apply get_Done in Hfrom.
    destruct (map_get m from) as [fromNode|] eqn:Hf; [|done].
    destruct (map_get m (Js.get_own edge "to")) as [toNode|] eqn:Ht; [|done].
    pose proof (map_get_elem _ _ _ Hf) as Hin.
    destruct (next_spec s (snd <$> m) fromNode toNode
                (Js.to_string (Js.or_else (Js.get_own edge "label") (VStr "default")))
                Hsep Hin) as (s1 & Hnext & Hnodes & Hat & Hother & Hsep1).
    erewrite bind_Done in Hrun by exact Hnext.
    apply (IH s1 s' (done ++ [(fromNode, Js.to_string
             (Js.or_else (Js.get_own edge "label") (VStr "default")))])) in Hrun;
      [|done|].
    + destruct Hrun as (slots & Hall & Hsep' & Hw' & Hn').
      eexists (_ :: slots). split; [constructor; [|done]|].
      * unfold slot_of. rewrite <- Hfrom, Hf. reflexivity.
      * rewrite <- app_assoc in Hw'. simpl in Hw'.
        split; [done|]. split; [done|]. by rewrite Hn'.
    + destruct Hsep as [Hnd _]. by eapply wired_step.
Qed.

Lemma sum_list_zero (f : ref → nat) (l : list ref) :
  (∀ r, r ∈ l → f r = 0%nat) → sum_list (f <$> l) = 0%nat.
Proof.
  induction l as [|a l IH]; intros Hz; [done|].
  rewrite fmap_cons. cbn [sum_list_with id]. rewrite (Hz a) by left.
  rewrite IH; [done|]. intros r Hr. apply Hz. by right.
Qed.

Lemma some_node_state test m s b s' :
  some_node (W:=W) test m s = (Done b, s') → s' = s.
Proof.
  induction m as [|[k r] m IH]; simpl; [by intros [= _ <-]|].
  unfold bind, read. destruct (nodes s !! r) as [nd|]; [|done].
  destruct (test (class nd)); [by intros [= _ <-]|]. apply IH.
Qed.

Lemma table_of_write s s1 x g r :
  r ≠ x → write x g s = (Done tt, s1) → table_of s1 r = table_of s r.
Proof.
  intros Hne. unfold write, bind, read. destruct (nodes s !! x) as [nd|]; [|done].
  unfold modify, with_nodes. intros [= <-]. unfold table_of. simpl.
  by rewrite lookup_insert_ne.
Qed.

Lemma connect_edges_targets m : ∀ edges s s',
  separate s (snd <$> m) →
  connect_edges m edges s = (Done tt, s') →
  ∀ r l, r ∈ snd <$> m →
    table_of s' r !! l
      = match target_of m edges (r, l) with
        | Some t => Some t
        | None => table_of s r !! l
        end.
Proof.
  induction edges as [|edge rest IH]; intros s s' Hsep Hrun r l Hr.
  - simpl in Hrun. by inversion Hrun.
  - simpl in Hrun. unfold bind at 1, of_outcome in Hrun.
    destruct (Js.get edge "from") as [from| | |] eqn:Hfrom; try done.
    apply get_Done in Hfrom.
    destruct (map_get m from) as [fromNode|] eqn:Hf; [|done].
    destruct (map_get m (Js.get_own edge "to")) as [toNode|] eqn:Ht; [|done].
    pose proof (map_get_elem _ _ _ Hf) as Hin.
    destruct (next_spec s (snd <$> m) fromNode toNode
                (Js.to_string (Js.or_else (Js.get_own edge "label") (VStr "default")))
                Hsep Hin) as (s1 & Hnext & Hnodes & Hat & Hother & Hsep1).
    erewrite bind_Done in Hrun by exact Hnext.
    rewrite (IH s1 s' Hsep1 Hrun r l Hr). cbn [target_of].
    destruct (target_of m rest (r, l)) as [t|]; [done|].
    unfold slot_of. rewrite <- Hfrom, Hf. cbn [mbind option_bind].
    case_bool_decide as Hslot.
    + injection Hslot as <- <-. by rewrite Ht, Hat, lookup_insert_eq.
    + destruct (decide (r = fromNode)) as [->|Hne].
      * rewrite Hat, lookup_insert_ne; [done|]. intros <-. by apply Hslot.
      * by rewrite Hother.
Qed.

Lemma size_list_to_set_le (l : list (ref * string)) :
  (size (list_to_set l : gset (ref * string)) ≤ length l)%nat.
Proof.
  induction l as [|a l IH]; [done|].
  rewrite list_to_set_cons, size_union_alt, size_singleton. simpl.
  pose proof (subseteq_size (list_to_set l ∖ {[a]}) (list_to_set l : gset _)) as Hle.
  specialize (Hle ltac:(set_solver)). lia.
Qed.

(** C5, as the code has it.  A description with N node specs and M edge
    specs whose kinds are strings registered in the compiler, with
    factories that each return a new node object, and whose labels are
    false values or strings other than [__proto__], when it compiles,
    gives N distinct live node objects; every edge is written to the slot
    (source node, label, "default" for a false label)
    of the source's successor table, a later edge overwrites an earlier
    one in the same slot, so that every slot leads to the target of the
    last edge written to it, and the number of successor links installed
    is the number of distinct slots: at most M, and M exactly when no two
    edges share source and label. *)
Theorem compile_yields_nodes_and_links (C : @PocketFlowCompiler W) config s out s' :
  (∀ k f cfg, registry C !! k = Some f → creates_node (f cfg)) →
  kinds_registered C config = true →
  labels_plain config = true →
  compile C config s = (Done out, s') →
  ∃ nodeConfigs edges slots,
    iterate (Js.get_own config "nodes") = Done nodeConfigs ∧
    iterate (Js.get_own config "edges") = Done edges ∧
    length (compiled_nodes out) = length nodeConfigs ∧
    NoDup (snd <$> compiled_nodes out) ∧
    (∀ r, r ∈ snd <$> compiled_nodes out → is_Some (nodes s' !! r)) ∧
    Forall2 (λ e sl, slot_of (compiled_nodes out) e = Some sl) edges slots ∧
    (∀ r l, r ∈ snd <$> compiled_nodes out →
       table_of s' r !! l = target_of (compiled_nodes out) edges (r, l)) ∧
    installed_links s' out = size (list_to_set slots : gset (ref * string)) ∧
    (installed_links s' out ≤ length edges)%nat ∧
    (NoDup slots → installed_links s' out = length edges).
Proof.
  intros Hreg _ _ Hrun. unfold compile in Hrun.
  unfold bind at 1, of_outcome in Hrun.
  destruct (Js.get config "version") as [version| | |]; try done.
  destruct (negb _); [done|].
  unfold bind at 1, of_outcome in Hrun.
  destruct (iterate (Js.get_own config "nodes")) as [nodeConfigs| | |]; try done.
  unfold bind at 1 in Hrun.
  destruct (create_nodes C nodeConfigs [] [] s) as [[m| | |] s1] eqn:Hcreate; try done.
  unfold bind at 1, of_outcome in Hrun.
  destruct (iterate (Js.get_own config "edges")) as [edges| | |]; try done.
  unfold bind at 1 in Hrun.
  destruct (connect_edges m edges s1) as [[[]| | |] s2] eqn:Hconnect; try done.
  destruct (map_get m (Js.get_own config "entry")) as [startNode|] eqn:Hentry; [|done].
  unfold bind at 1 in Hrun.
  destruct (some_node instanceof_AsyncNode m s2) as [[hasAsync| | |] s2a] eqn:Ha; try done.
  apply some_node_state in Ha as ->.
  unfold bind at 1 in Hrun.
  destruct (some_node _ m s2) as [[hasBatch| | |] s2b] eqn:Hb; try done.
  apply some_node_state in Hb as ->.
  unfold bind at 1 in Hrun.
  destruct (new_object _ 1 0 s2) as [[fl| | |] s3] eqn:Hnew; try done.
  unfold bind at 1 in Hrun.
  destruct (start fl startNode s3) as [[?| | |] s4] eqn:Hstart; try done.
  unfold bind at 1 in Hrun.
  destruct (setParams fl _ s4) as [[[]| | |] s5] eqn:Hset; try done.
  unfold ret in Hrun. inversion Hrun; subst out s'. clear Hrun. simpl.
  (* the nodes *)
  destruct (create_nodes_spec C Hreg nodeConfigs [] [] s m s1)
    as (Hsep1 & Hempty1 & Hlen); try done.
  { split; [constructor|]. split; [|intros r1 r2 ? ? Hr1; by apply elem_of_nil in Hr1].
    intros r Hr. by apply elem_of_nil in Hr. }
  { intros r Hr. by apply elem_of_nil in Hr. }
  (* the edges *)
  destruct (connect_edges_spec m edges s1 s2 []) as (slots & Hslots & Hsep2 & Hw2 & Hn2);
    try done.
  { split.
    - rewrite sum_list_zero; [done|].
      intros r Hr. unfold links_of. rewrite Hempty1 by done. apply map_size_empty.
    - intros r l Hr. rewrite Hempty1 by done. rewrite lookup_empty.
      split; [by intros []|]. intros Hin. by apply elem_of_nil in Hin. }
  simpl in Hw2.
  (* the flow object *)
  destruct (creates_new_object _ _ _ s2 fl s3 Hnew) as (Hfresh & Hflow).
  destruct (separate_extend s2 s3 (snd <$> m) fl Hsep2 Hfresh Hflow)
    as (Hsep3 & _ & Hkeep3).
  assert (Hne : ∀ r, r ∈ snd <$> m → r ≠ fl).
  { intros r Hr ->. destruct Hsep2 as (_ & Hlive & _).
    destruct (Hlive fl Hr) as (nd & Hnd & _). congruence. }
  assert (Hstart' : write fl (set_startNode (Some startNode)) s3 = (Done tt, s4)).
  { unfold start, bind in Hstart.
    destruct (write fl (set_startNode (Some startNode)) s3) as [[[]| | |] ?]; try done.
    unfold ret in Hstart. by inversion Hstart. }
  assert (Htab : ∀ r, r ∈ snd <$> m → table_of s5 r = table_of s2 r).
  { intros r Hr.
    rewrite (table_of_write s4 s5 fl _ r (Hne r Hr) Hset).
    rewrite (table_of_write s3 s4 fl _ r (Hne r Hr) Hstart').
    by apply Hkeep3. }
  assert (Hlinks : installed_links s5
            {| flow := fl; compiled_nodes := m; config := config |}
          = size (list_to_set slots : gset (ref * string))).
  { unfold installed_links. simpl. destruct Hw2 as [<- _]. f_equal.
    apply list_fmap_ext. intros i r Hr. unfold links_of.
    rewrite Htab; [done|]. by eapply list_elem_of_lookup_2. }
  exists nodeConfigs, edges, slots.
  split; [done|]. split; [done|]. split; [simpl in Hlen; lia|].
  split; [by destruct Hsep2|]. split.
  { intros r Hr. destruct Hsep3 as (_ & Hlive & _).
    destruct (Hlive r) as (nd & Hnd & _); [apply elem_of_app; by left|].
    assert (Hw4 : nodes s4 !! r = Some nd).
    { unfold write, bind, read in Hstart'.
      destruct (nodes s3 !! fl); [|done]. unfold modify, with_nodes in Hstart'.
      inversion Hstart'; subst. simpl. rewrite lookup_insert_ne; [done|].
      intros Heq. by apply (Hne r Hr). }
    unfold setParams, write, bind, read in Hset.
    destruct (nodes s4 !! fl); [|done]. unfold modify, with_nodes in Hset.
    inversion Hset; subst. simpl. rewrite lookup_insert_ne; [eauto|].
    intros Heq. by apply (Hne r Hr). }
  split; [done|]. split.
  { intros r l Hr. rewrite Htab by done.
    rewrite (connect_edges_targets m edges s1 s2 Hsep1 Hconnect r l Hr).
    rewrite Hempty1 by done. rewrite lookup_empty.
    by destruct (target_of m edges (r, l)). }
  split; [done|].
  pose proof (Forall2_length _ _ _ Hslots) as Hlen2.
  split.
  - rewrite Hlinks, Hlen2. apply size_list_to_set_le.
  - intros Hnd. rewrite Hlinks, Hlen2. by apply size_list_to_set.
Qed.

End CompileCounts.
Section LoopGuardFacts.
Context {W : Type}.
Variable H : host.
Variable env_llm : option (value → M (@env W) value).
Variable env_globals : value.
Variable global_fetch : value → value → M (@env W) response.

Lemma get_same a b k :
  same_but_loop_guard a b → k ≠ "loop_guard" → Js.get a k = Js.get b k.
Proof.
  intros [Hn Hk] Hne. specialize (Hk k Hne).
  unfold Js.get. destruct a, b; try done; by f_equal.
Qed.

Lemma new_with_retry_same c a b :
  same_but_loop_guard a b → new_with_retry (W:=W) c a = new_with_retry c b.
Proof. intros Hab. unfold new_with_retry. by rewrite (get_same a b "retry"). Qed.

Lemma saving_post_same remember a b :
  same_but_loop_guard a b →
  saving_post (W:=W) H remember a = saving_post H remember b.
Proof.
  intros [_ Hk]. unfold saving_post, save_outputs, next_label.
  by rewrite (Hk "post").
Qed.

Lemma router_post_same a b :
  same_but_loop_guard a b → router_post (W:=W) H a = router_post H b.
Proof. intros [_ Hk]. unfold router_post. by rewrite (Hk "exec"). Qed.

Lemma batch_prep_same a b :
  same_but_loop_guard a b → batch_prep (W:=W) a = batch_prep b.
Proof. intros [_ Hk]. unfold batch_prep. by rewrite (Hk "prep"). Qed.

Lemma default_registry_same kind factory a b :
  default_registry H env_llm env_globals global_fetch !! kind = Some factory →
  same_but_loop_guard a b → factory a = factory b.
Proof.
  unfold default_registry. intros Hk Hab.
  pose proof Hab as [_ Hget].
  apply elem_of_list_to_map_2 in Hk.
  repeat (apply elem_of_cons in Hk; destruct Hk as [Heq|Hk];
          [inversion Heq; subst; clear Heq|]);
    [..|by apply elem_of_nil in Hk];
    unfold createLLMNode, createHTTPNode, createRouterNode, createDataNode,
      createBatchNode, createAsyncNode, createParallelNode;
    rewrite ?(new_with_retry_same _ a b Hab), ?(saving_post_same _ a b Hab),
      ?(router_post_same a b Hab), ?(batch_prep_same a b Hab), ?(Hget "exec");
    done.
Qed.

Lemma assoc_get_set_eq k v fs : Js.assoc_get k (Js.assoc_set k v fs) = Some v.
Proof.
  induction fs as [|[k' v'] fs IH]; simpl.
  - by rewrite String.eqb_refl.
  - destruct (String.eqb k k') eqn:E; simpl; rewrite ?String.eqb_refl, ?E; done.
Qed.

Lemma assoc_get_set_ne k k' v fs :
  k ≠ k' → Js.assoc_get k (Js.assoc_set k' v fs) = Js.assoc_get k fs.
Proof.
  intros Hne. apply String.eqb_neq in Hne.
  induction fs as [|[k0 v0] fs IH]; simpl.
  - by rewrite Hne.
  - destruct (String.eqb k' k0) eqn:E; simpl.
    + apply String.eqb_eq in E. subst. by rewrite Hne.
    + by rewrite IH.
Qed.

Lemma create_nodes_same (C : @PocketFlowCompiler W) ns ns' :
  (∀ kind factory a b, registry C !! kind = Some factory →
     same_but_loop_guard a b → factory a = factory b) →
  Forall2 same_but_loop_guard ns ns' →
  ∀ ids m s, create_nodes C ns ids m s = create_nodes C ns' ids m s.
Proof.
  intros Hreg. induction 1 as [|a b ns ns' Hab _ IH]; intros ids m s; [done|].
  simpl. rewrite (get_same a b "id" Hab) by done.
  destruct Hab as [Hn Hk]. rewrite (Hk "kind") by done.
  unfold bind at 1 3. destruct (of_outcome (Js.get b "id") s) as [[id| | |] s0]; try done.
  destruct (includes ids id); [done|].
  destruct (registry C !! _) as [factory|] eqn:Hf; [|done].
  rewrite (Hreg _ _ a b Hf) by done.
  unfold bind. destruct (factory b s0) as [[node| | |] s1]; try done.
Qed.

Lemma bind_with_config {A} (m1 m2 : M (@state W) A) k1 k2 c s :
  (∀ s', m1 s' = m2 s') →
  (∀ a s', k1 a s' = (with_config c (k2 a s').1, (k2 a s').2)) →
  bind m1 k1 s = (with_config c (bind m2 k2 s).1, (bind m2 k2 s).2).
Proof.
  intros Hm Hk. unfold bind. rewrite Hm.
  destruct (m2 s) as [[a| | |] s']; simpl; auto.
Qed.

(** C8, as the code has it.  Neither the compiler nor a node reads
    [loop_guard]: two descriptions whose node specs differ at most in
    their [loop_guard] fields compile to the same store, the same flow and
    the same node objects, and run alike.  The number of times the revise
    node of a review/revise cycle is run is therefore not bounded by its
    [loop_guard]. *)
Theorem loop_guard_is_not_read fs ns ns' (s : @state W) :
  Js.assoc_get "nodes" fs = Some (VArr ns) →
  Forall2 same_but_loop_guard ns ns' →
  let C := new_compiler H env_llm env_globals global_fetch in
  let cfg := VObj fs in
  let cfg' := VObj (Js.assoc_set "nodes" (VArr ns') fs) in
  compile C cfg' s = (with_config cfg' (compile C cfg s).1, (compile C cfg s).2) ∧
  ∀ fuel, compile_and_run C cfg' fuel s = compile_and_run C cfg fuel s.
Proof.
  intros Hnodes Hsame. cbv zeta.
  assert (Hother : ∀ k, k ≠ "nodes" →
            Js.get_own (VObj (Js.assoc_set "nodes" (VArr ns') fs)) k
            = Js.get_own (VObj fs) k).
  { intros k Hk. simpl. by rewrite assoc_get_set_ne. }
  assert (Hn' : Js.get_own (VObj (Js.assoc_set "nodes" (VArr ns') fs)) "nodes" = VArr ns').
  { simpl. by rewrite assoc_get_set_eq. }
  assert (Hn : Js.get_own (VObj fs) "nodes" = VArr ns) by (simpl; by rewrite Hnodes).
  assert (Hcompile :
    compile (new_compiler H env_llm env_globals global_fetch)
      (VObj (Js.assoc_set "nodes" (VArr ns') fs)) s
    = (with_config (VObj (Js.assoc_set "nodes" (VArr ns') fs))
         (compile (new_compiler H env_llm env_globals global_fetch) (VObj fs) s).1,
       (compile (new_compiler H env_llm env_globals global_fetch) (VObj fs) s).2)).
  { unfold compile.
    change (Js.get (VObj ?f) ?k) with (Done (Js.get_own (VObj f) k)).
    rewrite !Hn', !Hn, !Hother by done.
    apply bind_with_config; [done|]. intros version s0.
    change (Js.truthy (VArr ns')) with true. change (Js.truthy (VArr ns)) with true.
    destruct (negb _); [reflexivity|].
    change (bind (of_outcome (iterate (VArr ns'))) ?k s0) with (k ns' s0).
    change (bind (of_outcome (iterate (VArr ns))) ?k s0) with (k ns s0).
    cbv beta.
    apply bind_with_config.
    { intros s'. symmetry. apply (create_nodes_same _ ns ns'); [|done].
      intros ? ? ? ?. apply default_registry_same. }
    intros m s2.
    apply bind_with_config; [done|]. intros edges s3.
    apply bind_with_config; [done|]. intros [] s4.
    destruct (map_get m _); [|reflexivity].
    apply bind_with_config; [done|]. intros b1 s5.
    apply bind_with_config; [done|]. intros b2 s6.
    apply bind_with_config; [done|]. intros fl s7.
    apply bind_with_config; [done|]. intros r s8.
    apply bind_with_config; [done|]. intros [] s9.
    reflexivity. }
  split; [exact Hcompile|].
  intros fuel. unfold compile_and_run, bind. rewrite Hcompile.
  by destruct (compile _ (VObj fs) s) as [[out| | |] s'].
Qed.

End LoopGuardFacts.
Section BatchFacts.
Context {W : Type}.
Implicit Types (s : @state W) (nd : @node W) (this : ref).

(** [map] runs every activation up to its first [await]: when the execute
    stage is an [async] function and at least one attempt is allowed, each
    element's execute stage is called once, in collection order, and every
    activation is left pending in the job queue.  No activation has ended,
    and no retry has been made, when the next element's execute stage
    starts. *)
Lemma launch_starts_every_element (items : list value) : ∀ fuel this i sch s nd,
  nodes s !! this = Some nd →
  exec_async nd = true →
  0 < maxRetries nd →
  (∀ item σ, match (exec nd (params nd) item σ).1 with
             | Done _ | Throw _ => True
             | _ => False
             end) →
  ∃ sch' s',
    launch (S fuel) this items i sch s = (Done sch', s') ∧
    log s' = log s ++ (EvExec <$> items) ∧
    t_item <$> jobs sch' = (t_item <$> jobs sch) ++ items ∧
    timers sch' = timers sch ∧
    fulfilled sch' = fulfilled sch ∧
    rejected sch' = rejected sch.
Proof.
  induction items as [|item rest IH]; intros fuel this i sch s nd Hnd Hasync Hmax Hexec.
  - exists sch, s. simpl. rewrite !app_nil_r. by repeat split.
  - cbn [launch]. erewrite bind_Done by (by apply write_Some).
    set (nd0 := set_curRetry 0 nd).
    set (s0 := with_nodes <[this := nd0]> s).
    assert (Hnd0 : nodes s0 !! this = Some nd0) by apply lookup_insert_eq.
    assert (Hseg : ∃ pd σ',
      segment (S fuel) this item AtCheck s0
        = (Done (Suspend true pd),
           {| nodes := nodes s0; tables := tables s0; outer := σ';
              log := log s0 ++ [EvExec item] |})).
    { cbn [segment]. erewrite bind_Done by (by apply read_Some).
      replace (curRetry nd0 <? maxRetries nd0) with true
        by (symmetry; apply Z.ltb_lt; simpl; lia).
      unfold bind, emit, modify, stage. simpl.
      specialize (Hexec item (outer s)).
      destruct (exec nd (params nd) item (outer s)) as [[v|e| |] σ']; simpl in *;
        try done; [|rewrite Hasync]; eauto. }
    destruct Hseg as (pd & σ' & Hseg).
    erewrite bind_Done by exact Hseg.
    edestruct (IH fuel this (S i)
                 (absorb sch i item (Suspend true pd))
                 {| nodes := nodes s0; tables := tables s0; outer := σ';
                    log := log s0 ++ [EvExec item] |} nd0)
      as (sch' & s' & Hrun & Hlog & Hjobs & Ht & Hf & Hr); try done.
    exists sch', s'. split; [exact Hrun|].
    rewrite Hlog, Hjobs, Ht, Hf, Hr. simpl.
    rewrite fmap_app, <- !app_assoc. by repeat split.
Qed.

End BatchFacts.

(** * Concrete runs *)

Import Sample.

(** Witness of C1: three attempts two seconds apart, then the fallback,
    then the error of the third attempt. *)
Lemma Node_retries_then_fallback_witness :
  ∃ es, length es = 3%nat ∧
        List.last es (JsError "") = JsError "attempt 2" ∧
        (_run 0 1%positive stubborn_store).1 = Throw (List.last es (JsError "")) ∧
        log (_run 0 1%positive stubborn_store).2
          = failing_trace (VStr "input") 2 es ∧
        count is_exec (failing_trace (VStr "input") 2 es) = 3%nat ∧
        count is_fallback (failing_trace (VStr "input") 2 es) = 1%nat ∧
        count is_sleep (failing_trace (VStr "input") 2 es) = 2%nat.
Proof.
  destruct (Node_retries_then_fallback 0 1%positive stubborn_store stubborn
              (VStr "input") (outer stubborn_store))
    as (es & σ' & Hes & Hlen & Hexec & Hfb & Hsleep & Hlast & _ & Hrun).
  - reflexivity.
  - reflexivity.
  - simpl. lia.
  - reflexivity.
  - intros σ. eexists _, _. reflexivity.
  - exists es. rewrite (Hrun eq_refl). simpl in *.
    repeat split; try done. by inversion Hes.
Defined.

(** C2, at a failing input.  A [BatchNode] with two attempts over
    [["a1", "a2"]] whose [async] execute stage fails on its first call:
    the execute stage of [a2] is started after the first attempt of [a1]
    and before its retry (as [launch_starts_every_element] says of every
    such node).  With an execute stage that fails on every call
    the elements' activations also share [curRetry]: [a2] gets one attempt
    instead of two, three calls are made in all, and the error of [a2] is
    the one the batch is rejected with. *)
Theorem BatchNode_interleaves_elements :
  log (_run 0 1%positive (batch_store flaky_exec)).2
    = [EvExec (VStr "a1"); EvExec (VStr "a2"); EvExec (VStr "a1")] ∧
  (_exec 1%positive (VArr [VStr "a1"; VStr "a2"]) (batch_store flaky_exec)).1
    = Done (VArr [VStr "a1"; VStr "a2"]) ∧
  log (_run 0 1%positive (batch_store failing_exec)).2
    = [EvExec (VStr "a1"); EvExec (VStr "a2"); EvExec (VStr "a1");
       EvFallback (VStr "a2") (JsError "fails");
       EvFallback (VStr "a1") (JsError "fails")] ∧
  (_run 0 1%positive (batch_store failing_exec)).1 = Throw (JsError "fails").
Proof. repeat split; vm_compute; reflexivity. Qed.

(** C3 fails for a batch flow.  The batch flow over two parameter objects
    runs the two-step flow once per object.  The label "done" of the last
    node has no successor and ends the first traversal, which returns it;
    the flow then goes on with the second object, and its run returns
    [null], which [BatchFlow._run] hands to the post stage in place of a
    label. *)
Lemma batch_flow_returns_null :
  (_orch 2 3%positive (VObj [("run", VNum 2)]) EngineExamples.batch_flow_store).1
    = Done (VStr "done") ∧
  (BatchFlow_run 2 3%positive EngineExamples.batch_flow_store).1 = Done VNull ∧
  log (BatchFlow_run 2 3%positive EngineExamples.batch_flow_store).2
    = [EvVisit 1%positive; EvExec VUndef; EvVisit 2%positive; EvExec VUndef;
       EvVisit 1%positive; EvExec VUndef; EvVisit 2%positive; EvExec VUndef].
Proof. repeat split; vm_compute; reflexivity. Qed.

(** Witness of C3: the two-step flow ends at [last], whose label "done"
    has no successor, and returns that label. *)
Lemma flow_ends_on_unmatched_label_witness :
  _orch 2 3%positive VNull two_step_store = (Done (VStr "done"), after_last) ∧
  run 2 3%positive two_step_store = (Done (VStr "done"), after_last).
Proof.
  destruct (flow_ends_on_unmatched_label 2 0 3%positive two_step_store two_step_flow
              1%positive 4%positive at_first 5%positive at_last (VStr "done") after_last
              (set_params two_step_params (leaf (VStr "done") 2%positive)))
    as [Horch Hrun].
  - reflexivity.
  - reflexivity.
  - vm_compute. reflexivity.
  - apply (traverses_hop _ 1 4%positive at_first (VStr "") after_first 2%positive
             5%positive at_last).
    + vm_compute. reflexivity.
    + vm_compute. reflexivity.
    + vm_compute. reflexivity.
    + apply traverses_here.
  - vm_compute. reflexivity.
  - vm_compute. reflexivity.
  - reflexivity.
  - vm_compute. reflexivity.
  - vm_compute. reflexivity.
  - reflexivity.
  - split; [exact Horch|]. apply Hrun; reflexivity.
Defined.

(** Witness of C9: the run of the two-step flow leaves the three
    registered objects and their tables as they were. *)
Lemma flow_run_leaves_graph_unchanged_witness :
  (∀ x nd, nodes two_step_store !! x = Some nd →
     nodes after_last !! x = Some nd ∧
     tables after_last !! successors nd = tables two_step_store !! successors nd) ∧
  tables after_last = tables two_step_store.
Proof.
  destruct (flow_run_leaves_graph_unchanged 2 3%positive two_step_store two_step_flow
              (Done (VStr "done")) after_last) as (Hnodes & Htables & _).
  - reflexivity.
  - reflexivity.
  - vm_compute. reflexivity.
  - split; assumption.
Defined.

(** C10, at a failing input.  The node of the one-node flow returns the
    truthy label "constructor", which matches no entry of its successor
    table: successor resolution yields the inherited member, and the
    traversal throws a [TypeError] instead of ending.  A false label is
    looked up under "default", finds nothing there and ends the flow. *)
Theorem member_label_does_not_end_the_flow :
  (getNextNode 1%positive (VStr "constructor") (dead_end_store (VStr "constructor"))).1
    = Done Member ∧
  (_orch 1 2%positive VNull (dead_end_store (VStr "constructor"))).1 = Throw not_a_node ∧
  (getNextNode 1%positive (VStr "") (dead_end_store (VStr ""))).1 = Done NoSuccessor ∧
  (_orch 1 2%positive VNull (dead_end_store (VStr ""))).1 = Done (VStr "").
Proof. repeat split; vm_compute; reflexivity. Qed.

(** Witness of X31: [first] returns the empty string; the loop looks up
    "default" and goes on with a copy of [last]. *)
Lemma falsy_label_resolves_to_default_witness :
  getNextNode 4%positive (VStr "") after_first
    = (Done (Successor 2%positive), after_first) ∧
  orch_loop 2 4%positive two_step_params at_first
    = (let! c := clone 2%positive in
       emit (EvVisit 2%positive);; orch_loop 1 c two_step_params) after_first.
Proof.
  destruct (falsy_label_resolves_to_default 1 4%positive two_step_params at_first
              (VStr "") after_first
              (set_params two_step_params (leaf (VStr "") 1%positive)))
    as (_ & Hnext & Hloop & _).
  - vm_compute. reflexivity.
  - vm_compute. reflexivity.
  - reflexivity.
  - split; [rewrite Hnext; vm_compute; reflexivity|]. apply Hloop. vm_compute. reflexivity.
Defined.


(** Counterexample to C5 as stated: [fan_out] passes both validations and
    compiles; it has three node specs and two edge specs, and the compiled
    graph has three nodes and one successor link, because both edges leave
    [a] under "default". *)
Lemma compile_overwrites_shared_slot :
  Validator.passes_validation sample_schema fan_out ∧
  iterate (Js.get_own fan_out "nodes")
    = Done [data_node "a"; data_node "b"; data_node "c"] ∧
  iterate (Js.get_own fan_out "edges") = Done [edge "a" "b"; edge "a" "c"] ∧
  match compile bare_compiler fan_out (empty_store (VObj []) tt) with
  | (Done out, s') =>
      length (compiled_nodes out) = 3%nat ∧ installed_links s' out = 1%nat ∧
      table_of s' 1%positive = {[ "default" := 3%positive ]}
  | _ => False
  end.
Proof. vm_compute. repeat split. Qed.

(** Validation does not look for repeated ids; [compile] does. *)
Lemma validated_twins_do_not_compile :
  Validator.passes_validation sample_schema twins ∧
  (compile bare_compiler twins (empty_store (VObj []) tt)).1
    = Throw (JsError "Duplicate node ID: a").
Proof. vm_compute. repeat split. Qed.

(** Witness of C5 as amended, on [fan_out]: three nodes, one link, and
    the slot leads to [c], the target of the later edge. *)
Lemma compile_yields_nodes_and_links_witness :
  ∃ out s',
    compile bare_compiler fan_out (empty_store (VObj []) tt) = (Done out, s') ∧
    length (compiled_nodes out) = 3%nat ∧
    (installed_links s' out ≤ 2)%nat ∧
    table_of s' 1%positive !! "default" = map_get (compiled_nodes out) (VStr "c").
Proof.
  destruct (compile bare_compiler fan_out (empty_store (VObj []) tt))
    as [[out| | |] s'] eqn:E; try (vm_compute in E; discriminate E).
  exists out, s'. split; [reflexivity|].
  destruct (compile_yields_nodes_and_links bare_compiler fan_out
              (empty_store (VObj []) tt) out s')
    as (nodeConfigs & edges & slots & Hn & He & Hlen & _ & _ & _ & Hto & _ & Hle & _).
  - intros k f cfg Hk. eapply default_registry_creates. exact Hk.
  - vm_compute. reflexivity.
  - vm_compute. reflexivity.
  - exact E.
  - vm_compute in Hn, He. inversion Hn. inversion He. subst.
    split; [exact Hlen|]. split; [exact Hle|].
    assert (Hout : compiled_nodes out
                   = [(VStr "a", 1%positive); (VStr "b", 2%positive);
                      (VStr "c", 3%positive)]).
    { vm_compute in E. by inversion E. }
    rewrite Hto by (rewrite Hout; vm_compute; left).
    rewrite Hout. vm_compute. reflexivity.
Defined.

(** Counterexample to C6 as stated: the expression [foo bar] does not
    evaluate (a syntax error), and the placeholder is replaced by the
    expression text, without its braces. *)
Lemma failed_expression_loses_braces :
  js_function sample_host "foo bar" (VObj []) VUndef
    = inr (JsThrown (VStr "SyntaxError: missing ) after argument list")) ∧
  interpolate sample_host (VStr "{{foo bar}}")
    (VObj [("ctx", VObj []); ("result", VUndef)]) = VStr "foo bar" ∧
  VStr "foo bar" ≠ VStr "{{foo bar}}".
Proof. split; [reflexivity|]. split; [vm_compute; reflexivity|discriminate]. Qed.

(** Witness of C6 as amended. *)
Lemma failed_placeholder_evaluation_witness :
  interpolate sample_host (VStr "{{foo bar}}")
    (VObj [("ctx", VObj []); ("result", VUndef)]) = VStr "foo bar" ∧
  interpolate sample_host (VStr "{{foo bar}}") VUndef = VStr "{{foo bar}}".
Proof.
  destruct (failed_placeholder_evaluation sample_host
              (VObj [("ctx", VObj []); ("result", VUndef)]) "foo bar")
    as (Hbare & _); [discriminate|reflexivity|reflexivity|].
  destruct (failed_placeholder_evaluation sample_host VUndef "foo bar")
    as (_ & Hkept & _); [discriminate|reflexivity|reflexivity|].
  split.
  - apply (Hbare (VObj []) VUndef
             (JsThrown (VStr "SyntaxError: missing ) after argument list")));
      reflexivity.
  - apply Hkept. reflexivity.
Defined.

(** Counterexample to C7 as stated: the graph of the specification has no
    [version], and [compile] rejects it.  With a version, the kind
    [static-data] is unknown; with the kind [data], the key
    [valueTemplate] is not read and [out] is set to [undefined]; and under
    the key [value] the template [{{exec.message}}] yields the text
    "undefined", the evaluation context having no [exec]. *)
Lemma greet_as_specified_is_rejected :
  (compile_and_run bare_compiler greet_as_specified 5 (empty_store (VObj []) tt)).1
    = Throw missing_fields ∧
  (compile_and_run bare_compiler
     (greet_graph [("version", VStr "pf-js/1.0")] "static-data" "valueTemplate"
        "{{exec.message}}") 5 (empty_store (VObj []) tt)).1
    = Throw (JsError "Unknown node kind: static-data") ∧
  shared (outer (compile_and_run bare_compiler
     (greet_graph [("version", VStr "pf-js/1.0")] "data" "valueTemplate"
        "{{exec.message}}") 5 (empty_store (VObj []) tt)).2)
    = VObj [("out", VUndef)] ∧
  shared (outer (compile_and_run bare_compiler
     (greet_graph [("version", VStr "pf-js/1.0")] "data" "value"
        "{{exec.message}}") 5 (empty_store (VObj []) tt)).2)
    = VObj [("out", VStr "undefined")].
Proof. repeat split; vm_compute; reflexivity. Qed.

(** C7, as the code has it.  With a [version], the kind [data], the key
    [value] and the template [{{result.message}}], the single-node graph
    compiles and runs against an empty shared context, whatever the host
    and the collaborators: [out] is "hi" and the flow returns [null]. *)
Theorem greet_end_to_end {W} (H : host) (env_llm : option (value → M (@env W) value))
    (env_globals : value) (global_fetch : value → value → M (@env W) response)
    (w : W) (fuel : nat) :
  let r := compile_and_run (new_compiler H env_llm env_globals global_fetch) greet
             (S fuel) (empty_store (VObj []) w) in
  r.1 = Done VNull ∧
  outer r.2 = {| shared := VObj [("out", VStr "hi")]; world := w |}.
Proof. cbv zeta. split; vm_compute; reflexivity. Qed.

(** Counterexample to C8 as stated: the cycle passes both validations,
    [revise] declares [loop_guard.max_iterations = 3], and the run, which
    ends normally, copies and runs [revise] five times, calling the LLM
    five times. *)
Lemma revise_runs_five_times :
  Validator.passes_validation sample_schema cycle ∧
  Js.get_own guarded_revise "loop_guard" = VObj [("max_iterations", VNum 3)] ∧
  match compile cycle_compiler cycle (empty_store (VObj []) O) with
  | (Done out, s) =>
      map_get (compiled_nodes out) (VStr "revise") = Some 2%positive ∧
      (run 20 (flow out) s).1 = Done VNull ∧
      visits 2%positive (log (run 20 (flow out) s).2) = 5%nat ∧
      world (outer (run 20 (flow out) s).2) = 5%nat
  | _ => False
  end.
Proof. vm_compute. repeat split. Qed.

Lemma same_but_loop_guard_snoc fs g :
  same_but_loop_guard (VObj (fs ++ [("loop_guard", g)])) (VObj fs).
Proof.
  split; [done|]. intros k Hk. simpl. f_equal.
  induction fs as [|[k' v] fs IH]; simpl.
  - apply String.eqb_neq in Hk. by rewrite Hk.
  - by destruct (String.eqb k k').
Qed.

Lemma same_but_loop_guard_refl a : same_but_loop_guard a a.
Proof. by split. Qed.

(** Witness of C8 as amended: the cycle compiles to the same store, flow
    and nodes with and without the loop guard of [revise]. *)
Lemma loop_guard_is_not_read_witness :
  compile cycle_compiler (VObj (cycle_fields (VObj revise_fields)))
    (empty_store (VObj []) O)
  = (with_config (VObj (cycle_fields (VObj revise_fields)))
       (compile cycle_compiler cycle (empty_store (VObj []) O)).1,
     (compile cycle_compiler cycle (empty_store (VObj []) O)).2) ∧
  compile_and_run cycle_compiler (VObj (cycle_fields (VObj revise_fields))) 20
    (empty_store (VObj []) O)
  = compile_and_run cycle_compiler cycle 20 (empty_store (VObj []) O).
Proof.
  destruct (loop_guard_is_not_read sample_host (Some counting_llm) VUndef no_fetch
              (cycle_fields guarded_revise)
              [review_spec; guarded_revise] [review_spec; VObj revise_fields]
              (empty_store (VObj []) O)) as [Hcompile Hrun].
  - reflexivity.
  - constructor; [apply same_but_loop_guard_refl|].
    constructor; [apply same_but_loop_guard_snoc|constructor].
  - split; [exact Hcompile|exact (Hrun 20%nat)].
Defined.

(** * Further properties of the compiler and the engine *)

(** ** Templates *)

Section TemplateFacts.
Variable H : host.

Lemma match_placeholder_other c s :
  Ascii.eqb c "{"%char = false → Str.match_placeholder (String c s) = None.
Proof.
  destruct c as [[] [] [] [] [] [] [] []]; try done.
Qed.

Lemma replace_plain_prefix cb pre rest :
  Str.all not_open_brace pre = true →
  Str.replace_placeholders cb O (pre +:+ rest)
    = pre +:+ Str.replace_placeholders cb O rest.
Proof.
  induction pre as [|c pre IH]; intros Hall; [done|].
  simpl in Hall. apply andb_true_iff in Hall as [Hc Hpre].
  apply negb_true_iff in Hc.
  rewrite !append_cons. cbn [Str.replace_placeholders].
  rewrite (match_placeholder_other _ _ Hc). by rewrite (IH Hpre).
Qed.

Lemma replace_skip_prefix cb a rest :
  Str.replace_placeholders cb (String.length a) (a +:+ rest)
    = Str.replace_placeholders cb O rest.
Proof.
  induction a as [|c a IH]; [by destruct rest|].
  rewrite append_cons. simpl. apply IH.
Qed.

Lemma append_assoc (a b c : string) : (a +:+ b) +:+ c = a +:+ (b +:+ c).
Proof. induction a as [|x a IH]; [done|]. by rewrite !append_cons, IH. Qed.

Lemma span_stops p a c rest :
  Str.all p a = true → p c = false →
  Str.span p (a +:+ String c rest) = (a, String c rest).
Proof.
  intros Ha Hc. rewrite (span_all _ _ _ Ha). simpl. rewrite Hc. simpl.
  by rewrite app_string_empty.
Qed.

Lemma match_placeholder_at blanks expr rest :
  Str.all Str.is_space blanks = true →
  expr ≠ "" →
  Str.starts_blank expr = false →
  Str.all not_brace expr = true →
  Str.match_placeholder ("{{" +:+ blanks +:+ expr +:+ "}}" +:+ rest)
    = Some ("{{" +:+ blanks +:+ expr +:+ "}}", expr, rest).
Proof.
  intros Hbl Hne Hblank Hall. unfold Str.match_placeholder.
  rewrite !append_cons, append_nil.
  destruct expr as [|c expr]; [done|]. simpl in Hblank.
  rewrite !append_cons.
  rewrite (span_stops _ blanks c _ Hbl Hblank).
  rewrite <- (append_cons c expr).
  change ("}}" +:+ rest) with (String "}" (String "}" rest)).
  rewrite (span_stops _ (String c expr) "}"%char _ Hall eq_refl).
  reflexivity.
Qed.

Lemma replace_placeholder_at cb blanks expr rest :
  Str.all Str.is_space blanks = true →
  expr ≠ "" →
  Str.starts_blank expr = false →
  Str.all not_brace expr = true →
  Str.replace_placeholders cb O ("{{" +:+ blanks +:+ expr +:+ "}}" +:+ rest)
    = cb ("{{" +:+ blanks +:+ expr +:+ "}}") expr
      +:+ Str.replace_placeholders cb O rest.
Proof.
  intros Hbl Hne Hblank Hall.
  pose proof (match_placeholder_at blanks expr rest Hbl Hne Hblank Hall) as Hm.
  rewrite !append_cons, append_nil in Hm.
  rewrite !append_cons, append_nil.
  rewrite (replace_at_match _ _ _ _ _ _ Hm). f_equal.
  cbn [String.length]. rewrite Nat.sub_succ, Nat.sub_0_r.
  rewrite <- (replace_skip_prefix cb (String "{" (blanks +:+ expr +:+ "}}")) rest).
  cbn [String.length]. f_equal.
  rewrite append_cons, !append_assoc. reflexivity.
Qed.

(** X1.  [interpolate] copies the text before a placeholder, replaces the
    placeholder by what the callback makes of its expression, the blanks
    after the opening braces left out of the expression, and goes on
    with the text after the closing braces on its own.  A template without
    an opening brace comes back as it is. *)
Theorem interpolate_is_compositional (context : value) (pre blanks expr post : string) :
  Str.all not_open_brace pre = true →
  Str.all Str.is_space blanks = true →
  expr ≠ "" →
  Str.starts_blank expr = false →
  Str.all not_brace expr = true →
  interpolate H (VStr pre) context = VStr pre ∧
  interpolate H (VStr (pre +:+ "{{" +:+ blanks +:+ expr +:+ "}}" +:+ post)) context
    = VStr (pre +:+ replacement H context ("{{" +:+ blanks +:+ expr +:+ "}}") expr
                +:+ Js.to_string (interpolate H (VStr post) context)).
Proof.
  intros Hpre Hbl Hne Hblank Hall. unfold interpolate. split; f_equal.
  - rewrite <- (app_string_empty pre) at 1.
    rewrite (replace_plain_prefix _ _ _ Hpre). simpl. apply app_string_empty.
  - rewrite (replace_plain_prefix _ _ _ Hpre).
    by rewrite (replace_placeholder_at _ _ _ _ Hbl Hne Hblank Hall).
Qed.

End TemplateFacts.

(** ** Property paths *)

Section PathFacts.

Lemma split_dot_nonempty s : Str.split_dot s ≠ [].
Proof.
  destruct s as [|c s]; [done|]. simpl.
  destruct (Ascii.eqb c "."); [done|]. by destruct (Str.split_dot s).
Qed.

Lemma split_dot_plain k : Str.includes_dot k = false → Str.split_dot k = [k].
Proof.
  induction k as [|c k IH]; [done|]. simpl.
  destruct (Ascii.eqb c "."); [done|]. simpl. intros Hk. by rewrite (IH Hk).
Qed.

Lemma split_dot_app a b :
  Str.split_dot (a +:+ "." +:+ b) = Str.split_dot a ++ Str.split_dot b.
Proof.
  induction a as [|c a IH]; [done|].
  rewrite append_cons. simpl. rewrite IH.
  destruct (Ascii.eqb c "."); [done|].
  pose proof (split_dot_nonempty a). by destruct (Str.split_dot a).
Qed.

Lemma getNestedProperty_key obj k :
  Str.includes_dot k = false →
  getNestedProperty obj k
    = if (Js.truthy obj && negb (Js.is_undefined (Js.get_own obj k)))%bool
      then Js.get_own obj k else VUndef.
Proof. intros Hk. unfold getNestedProperty. by rewrite (split_dot_plain _ Hk). Qed.

Lemma getNestedProperty_app obj a b :
  getNestedProperty obj (a +:+ "." +:+ b)
    = getNestedProperty (getNestedProperty obj a) b.
Proof. unfold getNestedProperty. by rewrite split_dot_app, fold_left_app. Qed.

Lemma getNestedProperty_falsy obj b :
  Js.truthy obj = false → getNestedProperty obj b = VUndef.
Proof.
  intros Hobj. unfold getNestedProperty.
  pose proof (split_dot_nonempty b) as Hne.
  destruct (Str.split_dot b) as [|k keys]; [done|]. simpl. rewrite Hobj. simpl.
  clear. induction keys as [|k' keys IH]; [done|]. simpl. apply IH.
Qed.

(** X2.  A path is read segment by segment: reading [a.b] is reading [b]
    from what [a] reads, however many segments [a] and [b] have.  From
    [undefined], [null], [false], [0] or the empty string every path reads
    [undefined]. *)
Theorem getNestedProperty_composes (obj : value) (a b : string) :
  getNestedProperty obj (a +:+ "." +:+ b)
    = getNestedProperty (getNestedProperty obj a) b ∧
  (Js.truthy obj = false → getNestedProperty obj a = VUndef).
Proof.
  split; [apply getNestedProperty_app|]. apply getNestedProperty_falsy.
Qed.

End PathFacts.

(** ** Nested assignment *)

Section NestedFacts.

Lemma pretty_go_digit x : ∀ s,
  starts_digit s = true → starts_digit (pretty_N_go x s) = true.
Proof.
  induction (N.lt_wf_0 x) as [x _ IH]; intros s Hs.
  assert (x = 0 ∨ 0 < x)%N as [->|Hx] by lia.
  - by rewrite pretty_N_go_0.
  - rewrite pretty_N_go_step by done. apply IH.
    { by apply N.div_lt. }
    simpl. unfold pretty_N_char. by repeat case_match.
Qed.

Lemma pretty_nat_digit (i : nat) : starts_digit (pretty i) = true.
Proof.
  unfold pretty, pretty_nat, pretty, pretty_N.
  case_decide; [done|].
  rewrite pretty_N_go_step by lia. apply pretty_go_digit.
  simpl. unfold pretty_N_char. by repeat case_match.
Qed.

Lemma pretty_nat_not_length (i : nat) : String.eqb (pretty i) "length" = false.
Proof.
  pose proof (pretty_nat_digit i) as Hd.
  destruct (pretty i) as [|c r]; [done|].
  simpl in Hd. apply not_true_is_false. intros He.
  apply String.eqb_eq in He. injection He as -> _. done.
Qed.

Lemma find_seq (f : nat → bool) i : ∀ n a,
  (a ≤ i < a + n)%nat → f i = true → (∀ j, j ≠ i → f j = false) →
  List.find f (seq a n) = Some i.
Proof.
  induction n as [|n IH]; intros a Hi Hfi Hf; [lia|]. simpl.
  destruct (decide (a = i)) as [->|Hne]; [by rewrite Hfi|].
  rewrite (Hf a Hne). apply IH; [lia|done..].
Qed.

Lemma index_of_key_pretty i n :
  (i < n)%nat → Js.index_of_key (pretty i) n = Some i.
Proof.
  intros Hi. unfold Js.index_of_key. apply find_seq; [lia|apply String.eqb_refl|].
  intros j Hj. apply String.eqb_neq. intros He. by apply (inj pretty) in He.
Qed.

Lemma index_of_key_spec k n i :
  Js.index_of_key k n = Some i → k = pretty i ∧ (i < n)%nat.
Proof.
  unfold Js.index_of_key. intros Hf. apply find_some in Hf as [Hin He].
  apply String.eqb_eq in He. apply in_seq in Hin. split; [done|lia].
Qed.

Lemma get_own_set o k v o' :
  Js.set o k v = Done o' → Js.get_own o' k = v ∧ Js.typeof_object o' = true
                           ∧ Js.truthy o' = true.
Proof.
  destruct o as [| | | | |l|fs|]; simpl; try done.
  - destruct (Js.index_of_key k (S (length l))) as [i|] eqn:Hk; [|done].
    apply index_of_key_spec in Hk as [-> Hi]. intros [= <-]. split; [|done].
    simpl. rewrite pretty_nat_not_length.
    case_decide as Hlt.
    + rewrite length_insert, (index_of_key_pretty _ _ Hlt).
      by rewrite list_lookup_insert_eq.
    + assert (i = length l) as -> by lia.
      rewrite length_app. simpl.
      rewrite index_of_key_pretty by lia.
      by rewrite lookup_app_r, Nat.sub_diag.
  - destruct (String.eqb k "__proto__"); [done|].
    intros [= <-]. split; [|done]. simpl. by rewrite assoc_get_set_eq.
Qed.

Lemma set_along_cons obj k k' rest v :
  set_along obj (k :: k' :: rest) v
    = let? present := Js.has k obj in
      if String.eqb k "__proto__" then Unmodelled
      else
        let? child' :=
          set_along (if (present && Js.typeof_object (Js.get_own obj k))%bool
                     then Js.get_own obj k else VObj []) (k' :: rest) v in
        Js.set obj k child'.
Proof. reflexivity. Qed.

Lemma set_along_get keys : ∀ obj v obj',
  keys ≠ [] →
  set_along obj keys v = Done obj' →
  fold_left
    (λ current key,
       if (Js.truthy current && negb (Js.is_undefined (Js.get_own current key)))%bool
       then Js.get_own current key else VUndef) keys obj' = v
  ∧ Js.typeof_object obj' = true.
Proof.
  induction keys as [|k rest IH]; intros obj v obj' Hne Hset; [done|].
  destruct rest as [|k' rest].
  - simpl in Hset. apply get_own_set in Hset as (Hget & Hty & Htr).
    split; [|done]. simpl. rewrite Htr, Hget. by destruct v.
  - rewrite set_along_cons in Hset.
    destruct (Js.has k obj) as [present| | |]; try done. cbn [obind] in Hset.
    destruct (String.eqb k "__proto__"); [done|].
    match type of Hset with
    | context [set_along ?c _ _] => destruct (set_along c (k' :: rest) v) as [child'| | |] eqn:Hc
    end; try done.
    cbn [obind] in Hset.
    apply IH in Hc as [Hfold Hty']; [|done].
    apply get_own_set in Hset as (Hget & Hty & Htr).
    split; [|done].
    cbn [fold_left]. rewrite Htr, Hget.
    replace (negb (Js.is_undefined child')) with true by (by destruct child').
    simpl. exact Hfold.
Qed.

(** X3.  What [setNestedProperty] stores under a path none of whose
    segments is [__proto__], [getNestedProperty] reads back under that
    path. *)
Theorem nested_set_then_get (obj v obj' : value) (path : string) :
  proto_free path = true →
  setNestedProperty obj (VStr path) v = Done obj' →
  getNestedProperty obj' path = v.
Proof.
  intros _ Hset. unfold getNestedProperty.
  by apply (set_along_get _ obj v obj' (split_dot_nonempty path)).
Qed.

Lemma set_along_fresh keys v :
  keys ≠ [] →
  forallb (λ k, negb (String.eqb k "__proto__")) keys = true →
  set_along (VObj []) keys v = Done (nest keys v).
Proof.
  induction keys as [|k rest IH]; [done|]. intros _ Hfree.
  cbn [forallb] in Hfree. apply andb_true_iff in Hfree as [Hk Hfree].
  apply negb_true_iff in Hk.
  destruct rest as [|k' rest].
  - cbn [set_along Js.set]. by rewrite Hk.
  - rewrite set_along_cons. cbn [Js.has Js.assoc_get obind].
    rewrite bool_decide_eq_false_2 by (by intros [? ?]).
    rewrite Hk. cbn [andb]. rewrite IH by done. cbn [obind Js.set]. by rewrite Hk.
Qed.

(** X5.  On the way to the last segment [setNestedProperty] keeps what it
    finds only when it is an object.  Where a segment is missing or holds
    a string, a number or a boolean, a new chain of objects is stored in
    its place and the old value is gone.  Where it holds [null], which is
    an object for [typeof], the assignment throws a [TypeError].  No
    segment of the path is [__proto__]. *)
Theorem nested_set_through (fs : list (string * value)) (k rest : string) (v : value) :
  Str.includes_dot k = false →
  proto_free (k +:+ "." +:+ rest) = true →
  let path := VStr (k +:+ "." +:+ rest) in
  (Js.typeof_object (Js.get_own (VObj fs) k) = false →
   setNestedProperty (VObj fs) path v
     = Done (VObj (Js.assoc_set k (nest (Str.split_dot rest) v) fs))) ∧
  (Js.get_own (VObj fs) k = VNull →
   ∃ msg, setNestedProperty (VObj fs) path v = Throw (JsTypeError msg)).
Proof.
  intros Hk Hfree path. unfold path, setNestedProperty.
  unfold proto_free in Hfree. revert Hfree.
  rewrite split_dot_app, (split_dot_plain _ Hk).
  pose proof (split_dot_nonempty rest) as Hne.
  destruct (Str.split_dot rest) as [|k' keys] eqn:Hrest; [done|].
  cbn [app forallb]. intros Hfree. apply andb_true_iff in Hfree as [Hk0 Hfree].
  apply negb_true_iff in Hk0.
  rewrite set_along_cons. cbn [Js.has obind]. rewrite Hk0. split.
  - intros ->. rewrite andb_false_r, set_along_fresh by done.
    cbn [obind Js.set]. by rewrite Hk0.
  - intros Hnull. rewrite Hnull.
    assert (bool_decide (is_Some (Js.assoc_get k fs)) = true) as ->.
    { apply bool_decide_eq_true_2. simpl in Hnull.
      destruct (Js.assoc_get k fs); [by eexists|done]. }
    cbn [andb Js.typeof_object].
    destruct keys as [|k'' keys]; [by eexists|].
    rewrite set_along_cons. by eexists.
Qed.

End NestedFacts.


(** ** Expressions in templates *)

Section ExpressionFacts.

Lemma replace_ext cb1 cb2 :
  (∀ m e, cb1 m e = cb2 m e) →
  ∀ s n, Str.replace_placeholders cb1 n s = Str.replace_placeholders cb2 n s.
Proof.
  intros Hcb. induction s as [|c s IH]; intros n; [done|].
  cbn [Str.replace_placeholders]. destruct n as [|n]; [|apply IH].
  destruct (Str.match_placeholder (String c s)) as [[[m e] r]|].
  - by rewrite Hcb, IH.
  - by rewrite IH.
Qed.

Lemma includes_dot_app a b :
  Str.includes_dot (a +:+ b) = (Str.includes_dot a || Str.includes_dot b)%bool.
Proof.
  induction a as [|c a IH]; [done|]. rewrite append_cons. simpl.
  by rewrite IH, orb_assoc.
Qed.

Lemma evaluateExpression_dotted H expr ctx result :
  Str.includes_dot expr = true →
  evaluateExpression H expr (VObj [("ctx", ctx); ("result", result)])
    = Done (getNestedProperty (VObj (evalContext_of ctx result)) expr).
Proof. intros Hd. unfold evaluateExpression. simpl. by rewrite Hd. Qed.

(** X6.  An expression with a dot in it is read as a property path and
    never handed to the JavaScript evaluator, operators or not: two hosts
    that differ only in how they evaluate such expressions give every
    template the same text. *)
Theorem dotted_expressions_are_paths (H1 H2 : host) (template context : value) :
  (∀ v, JSON_stringify H1 v = JSON_stringify H2 v) →
  (∀ expr ctx result, Str.includes_dot expr = false →
     js_function H1 expr ctx result = js_function H2 expr ctx result) →
  interpolate H1 template context = interpolate H2 template context.
Proof.
  intros Hjson Hfun.
  assert (Heval : ∀ e, evaluateExpression H1 e context = evaluateExpression H2 e context).
  { intros e. unfold evaluateExpression.
    destruct (Js.get context "ctx") as [ctx| | |]; try done.
    destruct (Js.get context "result") as [result| | |]; try done.
    cbn [obind]. destruct (Str.includes_dot e) eqn:Hd; [done|].
    destruct (Js.assoc_get e (evalContext_of ctx result)); [done|].
    by rewrite (Hfun e ctx result Hd). }
  destruct template; try done. unfold interpolate. f_equal.
  apply replace_ext. intros m e. unfold replacement.
  destruct (String.prefix "json(" e).
  - rewrite Heval. destruct (evaluateExpression H2 _ context); try done.
    cbn [obind]. by rewrite Hjson.
  - by rewrite Heval.
Qed.

(** X7.  The blanks before the closing braces belong to the expression.
    In a dotted path they become the end of the last segment, which then
    names a property that is not there: the placeholder is replaced by
    the text "undefined". *)
Theorem trailing_blank_joins_last_key (H : host) (ctx result : value)
    (parent key : string) :
  let expr := parent +:+ "." +:+ key +:+ " " in
  String.prefix "json(" expr = false →
  Str.starts_blank expr = false →
  Str.all not_brace expr = true →
  Str.includes_dot key = false →
  Js.get_own (getNestedProperty (VObj (evalContext_of ctx result)) parent)
             (key +:+ " ") = VUndef →
  interpolate H (VStr ("{{" +:+ expr +:+ "}}"))
              (VObj [("ctx", ctx); ("result", result)]) = VStr "undefined".
Proof.
  intros expr Hjson Hblank Hall Hkey Hmissing.
  rewrite interpolate_single_placeholder; [|by destruct parent|done..].
  f_equal. unfold replacement. rewrite Hjson.
  rewrite evaluateExpression_dotted.
  2:{ unfold expr. rewrite !includes_dot_app. simpl. by rewrite orb_true_r. }
  unfold expr. rewrite getNestedProperty_app, getNestedProperty_key.
  2:{ rewrite includes_dot_app, Hkey. done. }
  rewrite Hmissing. simpl. by rewrite andb_false_r.
Qed.

End ExpressionFacts.

(** ** Retries that succeed *)

Section RecoveryFacts.
Context {W : Type}.
Implicit Types (s : @state W) (nd : @node W) (this r : ref).

Lemma retry_loop_recovers k : ∀ fuel this p s nd es σk v σ',
  nodes s !! this = Some nd →
  attempts (exec nd (params nd) p) k (outer s) = (es, σk) →
  length es = k →
  exec nd (params nd) p σk = (Done v, σ') →
  curRetry nd + Z.of_nat k < maxRetries nd →
  (k < fuel)%nat →
  retry_loop fuel this p s =
    (Done v,
     {| nodes := <[this := set_curRetry (curRetry nd + Z.of_nat k) nd]> (nodes s);
        tables := tables s; outer := σ';
        log := log s ++ retried_trace p (wait nd) k |}).
Proof.
  induction k as [|k IH]; intros fuel this p s nd es σk v σ' Hnd Hatt Hlen Hok Hcur Hfuel.
  - destruct fuel as [|fuel]; [lia|]. simpl in Hatt. injection Hatt as <- <-.
    cbn [retry_loop]. rewrite (bind_Done _ _ _ _ _ (read_Some _ _ _ Hnd)).
    replace (curRetry nd <? maxRetries nd) with true by (symmetry; apply Z.ltb_lt; lia).
    unfold emit, modify, bind at 1, try_catch, stage at 1. simpl. rewrite Hok.
    rewrite Z.add_0_r, set_curRetry_same, (insert_id _ _ _ Hnd). done.
  - destruct fuel as [|fuel]; [lia|]. simpl in Hatt.
    destruct (exec nd (params nd) p (outer s)) as [[v1|e| |] σ1] eqn:He;
      try (injection Hatt as <- <-; simpl in Hlen; lia).
    destruct (attempts (exec nd (params nd) p) k σ1) as [es' σ''] eqn:Hes.
    injection Hatt as <- <-. simpl in Hlen.
    set (s1 := {| nodes := <[this := set_curRetry (curRetry nd + 1) nd]> (nodes s);
                  tables := tables s; outer := σ1;
                  log := log s ++ EvExec p :: (if 0 <? wait nd then [EvSleep (wait nd * 1000)] else []) |}).
    cbn [retry_loop]. rewrite (bind_Done _ _ _ _ _ (read_Some _ _ _ Hnd)).
    replace (curRetry nd <? maxRetries nd) with true by (symmetry; apply Z.ltb_lt; lia).
    unfold emit, modify, bind at 1, try_catch, stage at 1. simpl. rewrite He.
    erewrite bind_Done by (by apply read_Some).
    replace (curRetry nd =? maxRetries nd - 1) with false by (symmetry; apply Z.eqb_neq; lia).
    assert (Hstep :
      ((if 0 <? wait nd then emit (EvSleep (wait nd * 1000)) else ret ());;
       write this (set_curRetry (curRetry nd + 1));;
       retry_loop fuel this p)
        {| nodes := nodes s; tables := tables s; outer := σ1;
           log := log s ++ [EvExec p] |} = retry_loop fuel this p s1).
    { unfold s1. destruct (0 <? wait nd); unfold emit, modify, ret, bind at 1; simpl;
        (erewrite bind_Done by (by apply write_Some)); unfold with_nodes; simpl;
        rewrite <- ?app_assoc; done. }
    transitivity (retry_loop fuel this p s1); [exact Hstep|].
    rewrite (IH fuel this p s1 (set_curRetry (curRetry nd + 1) nd) es' σ'' v σ').
    + unfold s1. simpl. rewrite insert_insert_eq, <- app_assoc. simpl.
      replace (curRetry nd + 1 + Z.of_nat k) with (curRetry nd + Z.of_nat (S k)) by lia.
      reflexivity.
    + apply lookup_insert_eq.
    + exact Hes.
    + lia.
    + exact Hok.
    + simpl. lia.
    + lia.
Qed.

Lemma run_after_failures (fuel : nat) this s nd p σ0 (k : nat) es σk v σ' :
  nodes s !! this = Some nd →
  class nd = CNode →
  prep nd (params nd) (outer s) = (Done p, σ0) →
  attempts (exec nd (params nd) p) k σ0 = (es, σk) →
  length es = k →
  exec nd (params nd) p σk = (Done v, σ') →
  Z.of_nat k < maxRetries nd →
  let s_k := {| nodes := <[this := set_curRetry (Z.of_nat k) nd]> (nodes s);
                tables := tables s; outer := σ';
                log := log s ++ retried_trace p (wait nd) k |} in
  _exec this p {| nodes := nodes s; tables := tables s; outer := σ0; log := log s |}
    = (Done v, s_k) ∧
  _run fuel this s = stage (post nd (params nd) p v) s_k.
Proof.
  intros Hnd Hcls Hprep Hatt Hlen Hok Hk. cbv zeta.
  set (nd0 := set_curRetry 0 nd).
  set (s0 := {| nodes := <[this := nd0]> (nodes s); tables := tables s;
                outer := σ0; log := log s |}).
  assert (Hexec :
    _exec this p {| nodes := nodes s; tables := tables s; outer := σ0; log := log s |}
      = (Done v, {| nodes := <[this := set_curRetry (Z.of_nat k) nd]> (nodes s);
                    tables := tables s; outer := σ';
                    log := log s ++ retried_trace p (wait nd) k |})).
  { unfold _exec. erewrite bind_Done by (by apply read_Some). rewrite Hcls.
    unfold Node_exec. erewrite bind_Done by (by apply write_Some).
    erewrite bind_Done by (apply read_Some; apply lookup_insert_eq).
    rewrite (retry_loop_recovers k _ this p s0 nd0 es σk v σ');
      [|apply lookup_insert_eq|done|done|done|simpl; lia|simpl; lia].
    simpl. by rewrite insert_insert_eq. }
  split; [exact Hexec|].
  unfold _run, _run_with.
  erewrite bind_Done by (by apply read_Some). rewrite Hcls.
  unfold bind at 1, stage at 1. rewrite Hprep.
  unfold bind at 1. rewrite Hexec.
  erewrite bind_Done by (apply read_Some; apply lookup_insert_eq).
  reflexivity.
Qed.

Lemma retried_trace_counts p w k :
  count is_exec (retried_trace p w k) = S k ∧
  count is_fallback (retried_trace p w k) = 0%nat ∧
  count is_sleep (retried_trace p w k) = (if 0 <? w then k else 0%nat).
Proof.
  unfold count. induction k as [|k (I1 & I2 & I3)].
  - simpl. by destruct (0 <? w).
  - cbn [retried_trace]. destruct (0 <? w); simpl; rewrite ?I1, ?I2, ?I3; done.
Qed.

(** X8.  A node of class [Node] whose execute stage throws on its first
    [k] calls and returns [v] on the next, with [k < maxRetries]: the
    lifecycle calls the execute stage [k + 1] times, never the fallback
    hook, waits after each failed attempt when [wait] is positive, leaves
    [curRetry] at [k] and hands [v] to [post]. *)
Theorem Node_recovers_after_failures (fuel : nat) this s nd p σ0 (k : nat) es σk v σ' :
  nodes s !! this = Some nd →
  class nd = CNode →
  prep nd (params nd) (outer s) = (Done p, σ0) →
  attempts (exec nd (params nd) p) k σ0 = (es, σk) →
  length es = k →
  exec nd (params nd) p σk = (Done v, σ') →
  Z.of_nat k < maxRetries nd →
  let evs := retried_trace p (wait nd) k in
  let s_k := {| nodes := <[this := set_curRetry (Z.of_nat k) nd]> (nodes s);
                tables := tables s; outer := σ'; log := log s ++ evs |} in
  _exec this p {| nodes := nodes s; tables := tables s; outer := σ0; log := log s |}
    = (Done v, s_k) ∧
  count is_exec evs = S k ∧
  count is_fallback evs = 0%nat ∧
  count is_sleep evs = (if 0 <? wait nd then k else 0%nat) ∧
  _run fuel this s = stage (post nd (params nd) p v) s_k.
Proof.
  intros Hnd Hcls Hprep Hatt Hlen Hok Hk. cbv zeta.
  destruct (run_after_failures fuel this s nd p σ0 k es σk v σ') as [Hexec Hrun];
    try done.
  destruct (retried_trace_counts p (wait nd) k) as (C1 & C2 & C3).
  by repeat (split; [done|]).
Qed.

(** X9.  A node of class [Node] whose [maxRetries] is zero or negative
    never calls its execute stage: [_exec] yields [undefined], and that is
    what [post] receives. *)
Theorem Node_without_attempts (fuel : nat) this s nd p σ0 :
  nodes s !! this = Some nd →
  class nd = CNode →
  maxRetries nd ≤ 0 →
  prep nd (params nd) (outer s) = (Done p, σ0) →
  let s0 := {| nodes := <[this := set_curRetry 0 nd]> (nodes s);
               tables := tables s; outer := σ0; log := log s |} in
  _exec this p {| nodes := nodes s; tables := tables s; outer := σ0; log := log s |}
    = (Done VUndef, s0) ∧
  _run fuel this s = stage (post nd (params nd) p VUndef) s0.
Proof.
  intros Hnd Hcls Hmax Hprep. cbv zeta.
  assert (Hexec :
    _exec this p {| nodes := nodes s; tables := tables s; outer := σ0; log := log s |}
      = (Done VUndef, {| nodes := <[this := set_curRetry 0 nd]> (nodes s);
                         tables := tables s; outer := σ0; log := log s |})).
  { unfold _exec. erewrite bind_Done by (by apply read_Some). rewrite Hcls.
    unfold Node_exec. erewrite bind_Done by (by apply write_Some).
    erewrite bind_Done by (apply read_Some; apply lookup_insert_eq).
    cbn [retry_loop maxRetries set_curRetry].
    erewrite bind_Done by (apply read_Some; apply lookup_insert_eq).
    cbn [curRetry maxRetries set_curRetry].
    replace (0 <? maxRetries nd) with false by (symmetry; apply Z.ltb_ge; lia).
    reflexivity. }
  split; [exact Hexec|].
  unfold _run, _run_with.
  erewrite bind_Done by (by apply read_Some). rewrite Hcls.
  unfold bind at 1, stage at 1. rewrite Hprep.
  unfold bind at 1. rewrite Hexec.
  erewrite bind_Done by (apply read_Some; apply lookup_insert_eq).
  reflexivity.
Qed.

End RecoveryFacts.

(** ** Batches whose elements all succeed *)

Section BatchSuccess.
Context {W : Type}.
Implicit Types (s : @state W) (nd : @node W) (this : ref).

Lemma exec_each_length (call : value → M (@env W) value) items : ∀ σ vs σ',
  exec_each call items σ = (Some vs, σ') → length vs = length items.
Proof.
  induction items as [|item rest IH]; intros σ vs σ'; simpl.
  - by intros [= <- _].
  - destruct (call item σ) as [[v|e| |] σ1]; try done.
    destruct (exec_each call rest σ1) as [[vs'|] σ2] eqn:Hrest; try done.
    simpl. intros [= <- _]. simpl. f_equal. by eapply IH.
Qed.

Lemma launch_all_return (items : list value) : ∀ fuel this i sch s nd vs σ',
  nodes s !! this = Some nd →
  0 < maxRetries nd →
  (0 < fuel)%nat →
  exec_each (exec nd (params nd)) items (outer s) = (Some vs, σ') →
  launch fuel this items i sch s
    = (Done {| jobs := jobs sch ++ pending_of i items vs; timers := timers sch;
               fulfilled := fulfilled sch; rejected := rejected sch |},
       {| nodes := match items with
                   | [] => nodes s
                   | _ => <[this := set_curRetry 0 nd]> (nodes s)
                   end;
          tables := tables s; outer := σ'; log := log s ++ (EvExec <$> items) |}).
Proof.
  induction items as [|item rest IH]; intros fuel this i sch s nd vs σ' Hnd Hmax Hfuel Hall.
  - simpl in Hall. injection Hall as <- <-. simpl. rewrite !app_nil_r.
    by destruct s, sch.
  - simpl in Hall.
    destruct (exec nd (params nd) item (outer s)) as [[v|e| |] σ1] eqn:He; try done.
    destruct (exec_each (exec nd (params nd)) rest σ1) as [[vs'|] σ2] eqn:Hrest; try done.
    simpl in Hall. injection Hall as <- <-.
    cbn [launch]. erewrite bind_Done by (by apply write_Some).
    set (nd0 := set_curRetry 0 nd).
    set (s0 := with_nodes <[this := nd0]> s).
    assert (Hnd0 : nodes s0 !! this = Some nd0) by apply lookup_insert_eq.
    destruct fuel as [|fuel]; [lia|].
    assert (Hseg :
      segment (S fuel) this item AtCheck s0
        = (Done (Suspend true (AwaitExec (inl v))),
           {| nodes := nodes s0; tables := tables s0; outer := σ1;
              log := log s0 ++ [EvExec item] |})).
    { cbn [segment]. erewrite bind_Done by (by apply read_Some).
      replace (curRetry nd0 <? maxRetries nd0) with true
        by (symmetry; apply Z.ltb_lt; simpl; lia).
      unfold bind, emit, modify, stage. simpl. by rewrite He. }
    erewrite bind_Done by exact Hseg.
    rewrite (IH (S fuel) this (S i) _ _ nd0 vs' σ2); [|done|done|lia|done].
    simpl. rewrite <- !app_assoc. simpl. f_equal. f_equal.
    destruct rest; [done|]. by rewrite insert_insert_eq.
Qed.

Lemma drain_all_return (items : list value) : ∀ fuel this i vs done rej s,
  (length items < fuel)%nat →
  length vs = length items →
  drain fuel this {| jobs := pending_of i items vs; timers := [];
                     fulfilled := done; rejected := rej |} s
    = (Done {| jobs := []; timers := [];
               fulfilled := done ++ zip (seq i (length items)) vs;
               rejected := rej |}, s).
Proof.
  induction items as [|item rest IH]; intros fuel this i vs done rej s Hfuel Hlen.
  - destruct fuel as [|fuel]; [simpl in Hfuel; lia|].
    destruct vs; [|done]. simpl. by rewrite app_nil_r.
  - destruct fuel as [|fuel]; [simpl in Hfuel; lia|].
    destruct vs as [|v vs]; [done|]. simpl in Hlen, Hfuel.
    cbn [pending_of drain jobs timers]. unfold resume. cbn [t_pending].
    unfold bind at 1, ret at 1. cbn [absorb t_index t_item jobs timers fulfilled rejected].
    rewrite IH by lia. cbn [length seq zip zip_with]. by rewrite <- app_assoc.
Qed.

Lemma gather_zip (vs : list value) : ∀ a pre,
  (∀ p, p ∈ pre → (fst p < a)%nat) →
  omap (λ i, snd <$> List.find (λ p : nat * value, Nat.eqb (fst p) i)
                       (pre ++ zip (seq a (length vs)) vs))
       (seq a (length vs)) = vs.
Proof.
  induction vs as [|v vs IH]; intros a pre Hpre; [done|].
  cbn [length seq zip zip_with omap].
  assert (Hfind : List.find (λ p : nat * value, Nat.eqb (fst p) a)
                    (pre ++ (a, v) :: zip (seq (S a) (length vs)) vs) = Some (a, v)).
  { clear IH. induction pre as [|p pre IHp]; simpl.
    - by rewrite Nat.eqb_refl.
    - assert (fst p < a)%nat as Hp by (apply Hpre; left).
      replace (Nat.eqb (fst p) a) with false by (symmetry; apply Nat.eqb_neq; lia).
      apply IHp. intros q Hq. apply Hpre. by right. }
  cbn [list_omap]. rewrite Hfind. simpl. f_equal.
  specialize (IH (S a) (pre ++ [(a, v)])).
  rewrite <- app_assoc in IH. apply IH.
  intros p [Hp|Hp]%elem_of_app; [apply Hpre in Hp; lia|].
  apply list_elem_of_singleton in Hp as ->. simpl. lia.
Qed.

Lemma BatchNode_exec_returns this s nd (v : value) items vs σ' :
  nodes s !! this = Some nd →
  class nd = CBatchNode →
  0 < maxRetries nd →
  items_of v = Done items →
  exec_each (exec nd (params nd)) items (outer s) = (Some vs, σ') →
  _exec this v s
    = (Done (VArr vs),
       {| nodes := match items with
                   | [] => nodes s
                   | _ => <[this := set_curRetry 0 nd]> (nodes s)
                   end;
          tables := tables s; outer := σ'; log := log s ++ (EvExec <$> items) |}) ∧
  length vs = length items.
Proof.
  intros Hnd Hcls Hmax Hitems Hall.
  pose proof (exec_each_length _ _ _ _ _ Hall) as Hlen.
  split; [|done].
  unfold _exec. erewrite bind_Done by (by apply read_Some). rewrite Hcls.
  unfold BatchNode_exec. rewrite Hitems. unfold of_outcome at 1, bind at 1.
  erewrite bind_Done by (by apply read_Some).
  assert (Hfuel : (length items < batch_fuel (length items) (maxRetries nd))%nat).
  { unfold batch_fuel. nia. }
  erewrite bind_Done.
  2:{ apply (launch_all_return items _ this 0%nat _ s nd vs σ'); [done|done|lia|done]. }
  cbn [jobs timers fulfilled rejected app].
  erewrite bind_Done by (by apply drain_all_return).
  cbn [rejected fulfilled app]. unfold ret, gather. do 3 f_equal.
  rewrite <- Hlen. apply (gather_zip vs 0%nat []). by intros p Hp%elem_of_nil.
Qed.

(** X10.  A batch node with [maxRetries] at least 1 whose execute stage
    returns for every element: [_exec] calls the stage once per element,
    in collection order, and yields the results in that order; a
    collection that is [undefined], [null] or another false value counts
    as empty. *)
Theorem BatchNode_maps_in_order this s nd (v : value) items vs σ' :
  nodes s !! this = Some nd →
  class nd = CBatchNode →
  0 < maxRetries nd →
  items_of v = Done items →
  exec_each (exec nd (params nd)) items (outer s) = (Some vs, σ') →
  _exec this v s
    = (Done (VArr vs),
       {| nodes := match items with
                   | [] => nodes s
                   | _ => <[this := set_curRetry 0 nd]> (nodes s)
                   end;
          tables := tables s; outer := σ'; log := log s ++ (EvExec <$> items) |}) ∧
  length vs = length items.
Proof. apply BatchNode_exec_returns. Qed.

End BatchSuccess.

(** ** Wiring and lookup *)

Section WiringFacts.
Context {W : Type}.
Implicit Types (s : @state W) (nd : @node W) (this r target : ref).

Lemma next_Some this target action s nd :
  nodes s !! this = Some nd →
  next this target action s
    = (Done target,
       with_tables (λ ts, <[successors nd :=
                              <[action := target]> (default ∅ (ts !! successors nd))]> ts) s).
Proof.
  intros Hnd. unfold next. by erewrite bind_Done by (by apply read_Some).
Qed.

Lemma next_lookup this target action s nd r nd' a :
  nodes s !! this = Some nd →
  nodes s !! r = Some nd' → successors nd' = successors nd →
  Js.to_string (Js.or_else a (VStr "default")) = action →
  ∃ s', next this target action s = (Done target, s') ∧
        getNextNode r a s' = (Done (Successor target), s').
Proof.
  intros Hnd Hr Hsame Hkey. eexists. split; [by apply next_Some|].
  rewrite (getNextNode_Some r a _ nd') by done.
  simpl. rewrite Hsame, lookup_insert_eq. simpl.
  by rewrite Hkey, (find_successor_own _ _ target) by apply lookup_insert_eq.
Qed.

(** X11.  [next] and [getNextNode] are insert and lookup on the node's
    successor table, for labels that are strings or false values: the
    successor registered under a label is what the flow finds under that
    label, and every object that shares the table, such as the copies a
    flow has made of the node, finds the new successor as well.  Unless
    the label is [__proto__], what the other labels find is as before.
    The label "default" is the one every false label is looked up
    under. *)
Theorem next_then_getNextNode this target (action : string) s nd :
  nodes s !! this = Some nd →
  ∃ s',
    next this target action s = (Done target, s') ∧
    nodes s' = nodes s ∧
    (∀ r nd' a,
       nodes s !! r = Some nd' → successors nd' = successors nd →
       is_label a = true →
       Js.to_string (Js.or_else a (VStr "default")) = action →
       getNextNode r a s' = (Done (Successor target), s')) ∧
    (action ≠ "__proto__" →
     ∀ r a,
       is_label a = true →
       Js.to_string (Js.or_else a (VStr "default")) ≠ action →
       (getNextNode r a s').1 = (getNextNode r a s).1) ∧
    (∀ r nd' a,
       nodes s !! r = Some nd' → successors nd' ≠ successors nd →
       is_label a = true →
       (getNextNode r a s').1 = (getNextNode r a s).1).
Proof.
  intros Hnd. eexists. split; [by apply next_Some|].
  split; [done|]. split; [|split].
  - intros r nd' a Hr Hsame _ Hkey.
    rewrite (getNextNode_Some r a _ nd') by done.
    simpl. rewrite Hsame, lookup_insert_eq. simpl.
    by rewrite Hkey, (find_successor_own _ _ target) by apply lookup_insert_eq.
  - intros Hproto r a _ Hkey. unfold getNextNode, bind, read, gets, of_outcome. simpl.
    destruct (nodes s !! r) as [nd'|]; [|done]. simpl.
    destruct (decide (successors nd' = successors nd)) as [->|Hne].
    + rewrite lookup_insert_eq. simpl. unfold find_successor.
      rewrite !lookup_insert_ne by done. done.
    + by rewrite lookup_insert_ne.
  - intros r nd' a Hr Hne _.
    rewrite !(getNextNode_Some r a _ nd') by done. simpl.
    by rewrite lookup_insert_ne.
Qed.

(** X12.  The helpers: [connect(a, b)] registers [b] under "default",
    where every false label finds it; [conditionalConnect(a, action, b)]
    registers [b] under a label that is a string, after which, when the
    string is not empty, the flow goes from [a] to [b] on that label, and
    with any other kind of label it throws a [TypeError] and wires
    nothing. *)
Theorem conditionalConnect_wires a b (action : value) s nd :
  nodes s !! a = Some nd →
  (∀ l, action = VStr l → l ≠ "" →
     ∃ s', conditionalConnect a action b s = (Done b, s') ∧
           getNextNode a action s' = (Done (Successor b), s')) ∧
  ((∀ l, action ≠ VStr l) →
     ∃ msg, conditionalConnect a action b s = (Throw (JsTypeError msg), s)) ∧
  (∃ s', connect a b s = (Done b, s') ∧
         ∀ label, Js.truthy label = false →
           getNextNode a label s' = (Done (Successor b), s')).
Proof.
  intros Hnd. split; [|split].
  - intros l -> Hl.
    apply (next_lookup a b l s nd a nd); [done|done|done|].
    simpl. unfold Js.or_else. simpl.
    destruct (String.eqb l "") eqn:He; [by apply String.eqb_eq in He|done].
  - intros Hns. eexists. destruct action; try done. by destruct (Hns s0).
  - eexists. split; [by apply next_Some|].
    intros label Hf.
    destruct (next_lookup a b "default" s nd a nd label) as (s' & Hnext & Hget);
      [done|done|done|unfold Js.or_else; by rewrite Hf|].
    unfold connect, rshift in *. rewrite (next_Some _ _ _ _ _ Hnd) in Hnext.
    injection Hnext as <-. exact Hget.
Qed.

End WiringFacts.

(** ** What [compile] accepts *)

Section CompileDomain.
Context {W : Type}.
Implicit Types (s : @state W) (nd : @node W) (r : ref) (m : list (value * ref)).

Lemma get_nullish o k v : Js.get o k = Done v → nullish o = false.
Proof. by destruct o. Qed.

Lemma includes_app l1 l2 v : includes (l1 ++ l2) v = (includes l1 v || includes l2 v)%bool.
Proof. unfold includes. apply existsb_app. Qed.

Lemma includes_false l v a :
  includes l v = false → a ∈ l → Js.same_value_zero a v = false.
Proof.
  unfold includes. intros Hf Ha. apply not_true_is_false. intros Ht.
  assert (existsb (λ x, Js.same_value_zero x v) l = true); [|congruence].
  apply existsb_exists. exists a. split; [by apply list_elem_of_In|done].
Qed.

Lemma map_get_includes m k :
  is_Some (map_get m k) ↔ includes (fst <$> m) k = true.
Proof.
  unfold map_get, includes. induction m as [|[k' r] m IH]; simpl.
  - split; [by intros [? ?]|done].
  - destruct (Js.same_value_zero k' k); simpl; [split; eauto|done].
Qed.

(** What the first loop of [compile] has checked when it returns. *)
Lemma create_nodes_checks (C : @PocketFlowCompiler W) cfgs : ∀ m s m' s',
  create_nodes C cfgs (fst <$> m) m s = (Done m', s') →
  fst <$> m' = (fst <$> m) ++ ids_of cfgs ∧
  (∀ n, n ∈ cfgs → nullish n = false ∧ is_Some (registry C !! kind_of n)) ∧
  (∀ i a, ids_of cfgs !! i = Some a →
     includes ((fst <$> m) ++ take i (ids_of cfgs)) a = false).
Proof.
  induction cfgs as [|cfg rest IH]; intros m s m' s' Hrun.
  - simpl in Hrun. injection Hrun as <- <-. rewrite app_nil_r.
    split; [done|]. split; [by intros n Hn%elem_of_nil|]. by intros i a.
  - simpl in Hrun. unfold bind at 1, of_outcome in Hrun.
    destruct (Js.get cfg "id") as [id| | |] eqn:Hid; try done.
    pose proof (get_nullish _ _ _ Hid) as Hnn. apply get_Done in Hid. subst id.
    destruct (includes (fst <$> m) (Js.get_own cfg "id")) eqn:Hinc; [done|].
    destruct (registry C !! Js.to_string (Js.get_own cfg "kind")) as [factory|] eqn:Hf;
      [|by destruct (Js.inherited _)].
    unfold bind at 1 in Hrun.
    destruct (factory cfg s) as [[node| | |] s1] eqn:Hfac; try done.
    rewrite (map_set_fresh _ _ _ Hinc) in Hrun.
    replace ((fst <$> m) ++ [Js.get_own cfg "id"])
      with (fst <$> (m ++ [(Js.get_own cfg "id", node)])) in Hrun
      by (by rewrite fmap_app).
    apply IH in Hrun as (Hids & Hkinds & Hfresh).
    rewrite fmap_app in Hids, Hfresh. simpl in Hids, Hfresh.
    split; [by rewrite Hids, <- app_assoc|]. split.
    + intros n [->|Hn]%elem_of_cons; [|by apply Hkinds].
      split; [done|]. unfold kind_of. by rewrite Hf.
    + intros [|i] a Ha; simpl in Ha.
      * injection Ha as <-. by rewrite app_nil_r.
      * specialize (Hfresh i a Ha). by rewrite <- app_assoc in Hfresh.
Qed.

Lemma connect_edges_checks m : ∀ edges s s',
  connect_edges (W:=W) m edges s = (Done tt, s') →
  ∀ e, e ∈ edges →
    nullish e = false ∧
    includes (fst <$> m) (Js.get_own e "from") = true ∧
    includes (fst <$> m) (Js.get_own e "to") = true.
Proof.
  induction edges as [|edge rest IH]; intros s s' Hrun e He;
    [by apply elem_of_nil in He|].
  simpl in Hrun. unfold bind at 1, of_outcome in Hrun.
  destruct (Js.get edge "from") as [from| | |] eqn:Hfrom; try done.
  pose proof (get_nullish _ _ _ Hfrom) as Hnn. apply get_Done in Hfrom. subst from.
  destruct (map_get m (Js.get_own edge "from")) as [fromNode|] eqn:Hf; [|done].
  destruct (map_get m (Js.get_own edge "to")) as [toNode|] eqn:Ht; [|done].
  unfold bind at 1 in Hrun.
  destruct (next fromNode toNode _ s) as [[?| | |] s1]; try done.
  apply elem_of_cons in He as [->|He]; [|by eapply IH].
  split; [done|]. split; apply map_get_includes; by eexists.
Qed.

Lemma fresh_ids_distinct (ids : list value) :
  (∀ i a, ids !! i = Some a → includes (take i ids) a = false) →
  ∀ i j a b, (i < j)%nat → ids !! i = Some a → ids !! j = Some b →
    Js.same_value_zero a b = false.
Proof.
  intros Hfresh i j a b Hij Ha Hb. apply (includes_false _ _ _ (Hfresh j b Hb)).
  apply list_elem_of_lookup. exists i. by rewrite lookup_take_lt.
Qed.

(** The steps of a compilation that returns. *)
Lemma compile_inv (C : @PocketFlowCompiler W) config s out s' :
  compile C config s = (Done out, s') →
  ∃ nodeConfigs edges m s1 s2 startNode fl s3 s4,
    nullish config = false ∧
    (Js.truthy (Js.get_own config "version") && Js.truthy (Js.get_own config "entry")
       && Js.truthy (Js.get_own config "nodes")
       && Js.truthy (Js.get_own config "edges"))%bool = true ∧
    iterate (Js.get_own config "nodes") = Done nodeConfigs ∧
    iterate (Js.get_own config "edges") = Done edges ∧
    create_nodes C nodeConfigs [] [] s = (Done m, s1) ∧
    connect_edges m edges s1 = (Done tt, s2) ∧
    map_get m (Js.get_own config "entry") = Some startNode ∧
    (∃ hasAsync hasBatch,
       some_node instanceof_AsyncNode m s2 = (Done hasAsync, s2) ∧
       some_node (λ c, instanceof_BatchNode c || instanceof_AsyncBatchNode c) m s2
         = (Done hasBatch, s2) ∧
       new_object (if hasAsync && hasBatch then CAsyncBatchFlow
                   else if hasAsync then CAsyncFlow else CFlow) 1 0 s2
         = (Done fl, s3)) ∧
    write fl (set_startNode (Some startNode)) s3 = (Done tt, s4) ∧
    setParams fl (Js.or_else (Js.get_own config "globals") (VObj [])) s4 = (Done tt, s') ∧
    out = {| flow := fl; compiled_nodes := m; config := config |}.
Proof.
  intros Hrun. unfold compile in Hrun.
  unfold bind at 1, of_outcome in Hrun.
  destruct (Js.get config "version") as [version| | |] eqn:Hv; try done.
  pose proof (get_nullish _ _ _ Hv) as Hnn. apply get_Done in Hv. subst version.
  destruct (_ && _ && _ && _)%bool eqn:Htruthy; [|done]. simpl in Hrun.
  unfold bind at 1, of_outcome in Hrun.
  destruct (iterate (Js.get_own config "nodes")) as [nodeConfigs| | |]; try done.
  unfold bind at 1 in Hrun.
  destruct (create_nodes C nodeConfigs [] [] s) as [[m| | |] s1] eqn:Hcreate; try done.
  unfold bind at 1, of_outcome in Hrun.
  destruct (iterate (Js.get_own config "edges")) as [edges| | |]; try done.
  unfold bind at 1 in Hrun.
  destruct (connect_edges m edges s1) as [[[]| | |] s2] eqn:Hconnect; try done.
  destruct (map_get m (Js.get_own config "entry")) as [startNode|] eqn:Hentry; [|done].
  unfold bind at 1 in Hrun.
  destruct (some_node instanceof_AsyncNode m s2) as [[hasAsync| | |] s2a] eqn:Ha; try done.
  pose proof (some_node_state _ _ _ _ _ Ha) as ->.
  unfold bind at 1 in Hrun.
  destruct (some_node _ m s2) as [[hasBatch| | |] s2b] eqn:Hb; try done.
  pose proof (some_node_state _ _ _ _ _ Hb) as ->.
  unfold bind at 1 in Hrun.
  destruct (new_object _ 1 0 s2) as [[fl| | |] s3] eqn:Hnew; try done.
  unfold bind at 1 in Hrun.
  destruct (start fl startNode s3) as [[?| | |] s4] eqn:Hstart; try done.
  unfold bind at 1 in Hrun.
  destruct (setParams fl _ s4) as [[[]| | |] s5] eqn:Hset; try done.
  unfold ret in Hrun. injection Hrun as <- <-.
  assert (Hstart' : write fl (set_startNode (Some startNode)) s3 = (Done tt, s4)).
  { unfold start, bind in Hstart.
    destruct (write fl (set_startNode (Some startNode)) s3) as [[[]| | |] ?]; try done.
    unfold ret in Hstart. by inversion Hstart. }
  exists nodeConfigs, edges, m, s1, s2, startNode, fl, s3, s4.
  repeat (split; [done|]). split; [by exists hasAsync, hasBatch|]. done.
Qed.

(** X13.  For a description whose node kinds are strings that name no
    member of [Object.prototype], [compile] returns only when the
    description is well formed: it has its four required fields, its node
    and edge specs are neither [null] nor [undefined], its ids are
    pairwise different, its kinds are all registered, and its entry and
    edge ends all name a node.  The compiled nodes are listed under the
    ids in the order of the description. *)
Theorem compile_accepts_only_well_formed (C : @PocketFlowCompiler W) config s out s' :
  kinds_plain config = true →
  compile C config s = (Done out, s') →
  ∃ nodeConfigs edges,
    well_formed (registry C) config nodeConfigs edges ∧
    fst <$> compiled_nodes out = ids_of nodeConfigs.
Proof.
  intros _ Hrun.
  destruct (compile_inv _ _ _ _ _ Hrun)
    as (nodeConfigs & edges & m & s1 & s2 & startNode & fl & s3 & s4 & Hnn & Htruthy
        & Hnodes & Hedges & Hcreate & Hconnect & Hentry & _ & _ & _ & ->).
  apply andb_true_iff in Htruthy as [Htruthy He].
  apply andb_true_iff in Htruthy as [Htruthy Hn].
  apply andb_true_iff in Htruthy as [Hv Hen].
  destruct (create_nodes_checks C nodeConfigs [] s m s1 Hcreate) as (Hids & Hkinds & Hfresh).
  simpl in Hids, Hfresh.
  exists nodeConfigs, edges. split; [|done].
  repeat (split; [done|]). split; [|split].
  - by apply fresh_ids_distinct.
  - intros e He'. rewrite <- Hids. by eapply connect_edges_checks.
  - rewrite <- Hids. apply map_get_includes. by eexists.
Qed.

Lemma create_nodes_returns (C : @PocketFlowCompiler W) cfgs : ∀ m s,
  (∀ n, n ∈ cfgs → nullish n = false ∧ is_Some (registry C !! kind_of n)) →
  (∀ n f s0, n ∈ cfgs → registry C !! kind_of n = Some f →
     ∃ r s1, f n s0 = (Done r, s1)) →
  (∀ i a, ids_of cfgs !! i = Some a →
     includes ((fst <$> m) ++ take i (ids_of cfgs)) a = false) →
  ∃ m' s', create_nodes C cfgs (fst <$> m) m s = (Done m', s').
Proof.
  induction cfgs as [|cfg rest IH]; intros m s Hkinds Hret Hfresh; [by eexists _, _|].
  destruct (Hkinds cfg) as [Hnn [factory Hf]]; [left|].
  simpl. unfold bind at 1, of_outcome. rewrite (get_not_nullish _ _ Hnn).
  pose proof (Hfresh 0%nat _ eq_refl) as Hinc. simpl in Hinc.
  rewrite app_nil_r in Hinc. rewrite Hinc.
  unfold kind_of in Hf. rewrite Hf.
  destruct (Hret cfg factory s) as (r & s1 & Hfac); [left|done|].
  unfold bind at 1. rewrite Hfac. rewrite (map_set_fresh _ _ _ Hinc).
  replace ((fst <$> m) ++ [Js.get_own cfg "id"])
    with (fst <$> (m ++ [(Js.get_own cfg "id", r)]))
    by (by rewrite fmap_app).
  apply IH.
  - intros n Hn. apply Hkinds. by right.
  - intros n f s0 Hn. apply Hret. by right.
  - intros i a Ha. rewrite fmap_app, <- app_assoc. simpl.
    by apply (Hfresh (S i) a).
Qed.

Lemma connect_edges_returns m : ∀ edges s,
  separate s (snd <$> m) →
  (∀ e, e ∈ edges →
     nullish e = false ∧
     includes (fst <$> m) (Js.get_own e "from") = true ∧
     includes (fst <$> m) (Js.get_own e "to") = true) →
  ∃ s', connect_edges m edges s = (Done tt, s') ∧ separate s' (snd <$> m).
Proof.
  induction edges as [|edge rest IH]; intros s Hsep Hedges; [by eexists|].
  destruct (Hedges edge) as (Hnn & Hfrom & Hto); [left|].
  apply map_get_includes in Hfrom as [fromNode Hfrom].
  apply map_get_includes in Hto as [toNode Hto].
  simpl. unfold bind at 1, of_outcome. rewrite (get_not_nullish _ _ Hnn).
  rewrite Hfrom, Hto.
  destruct (next_spec s (snd <$> m) fromNode toNode
              (Js.to_string (Js.or_else (Js.get_own edge "label") (VStr "default")))
              Hsep (map_get_elem _ _ _ Hfrom)) as (s1 & Hnext & _ & _ & _ & Hsep1).
  erewrite bind_Done by exact Hnext.
  apply IH; [done|]. intros e He. apply Hedges. by right.
Qed.

Lemma some_node_returns test m s :
  separate s (snd <$> m) → ∃ b, some_node (W:=W) test m s = (Done b, s).
Proof.
  intros (_ & Hlive & _). induction m as [|[k r] m IH]; [by eexists|].
  simpl. destruct (Hlive r) as (nd & Hnd & _); [left|].
  erewrite bind_Done by (by apply read_Some).
  destruct (test (class nd)); [by eexists|].
  apply IH. intros x Hx. apply Hlive. by right.
Qed.

Lemma well_formed_compiles (C : @PocketFlowCompiler W) config nodeConfigs edges s :
  (∀ k f cfg, registry C !! k = Some f → creates_node (f cfg)) →
  (∀ n f s0, n ∈ nodeConfigs → registry C !! kind_of n = Some f →
     ∃ r s1, f n s0 = (Done r, s1)) →
  well_formed (registry C) config nodeConfigs edges →
  ∃ out s', compile C config s = (Done out, s') ∧
            fst <$> compiled_nodes out = ids_of nodeConfigs.
Proof.
  intros Hreg Hret (Hnn & Hv & Hen & Hn & Hnodes & He & Hedges & Hkinds & Hfresh
                    & Hends & Hentry).
  destruct (create_nodes_returns C nodeConfigs [] s Hkinds Hret) as (m & s1 & Hcreate).
  { intros i a Ha. simpl. apply not_true_is_false. intros Hin.
    unfold includes in Hin. apply existsb_exists in Hin as (b & Hb & Hsame).
    apply list_elem_of_In, list_elem_of_lookup in Hb as [j Hj].
    apply lookup_take_Some in Hj as [Hj Hlt].
    by rewrite (Hfresh j i b a Hlt Hj Ha) in Hsame. }
  destruct (create_nodes_checks C nodeConfigs [] s m s1 Hcreate) as (Hids & _ & _).
  simpl in Hids.
  destruct (create_nodes_spec C Hreg nodeConfigs [] [] s m s1) as (Hsep1 & _ & _);
    try done.
  { split; [constructor|]. split; [|intros r1 r2 ? ? Hr1; by apply elem_of_nil in Hr1].
    intros r Hr. by apply elem_of_nil in Hr. }
  { intros r Hr. by apply elem_of_nil in Hr. }
  destruct (connect_edges_returns m edges s1 Hsep1) as (s2 & Hconnect & Hsep2).
  { by rewrite Hids. }
  rewrite <- Hids in Hentry. apply map_get_includes in Hentry as [startNode Hstart].
  destruct (some_node_returns instanceof_AsyncNode m s2 Hsep2) as [hasAsync Ha].
  destruct (some_node_returns (λ c, instanceof_BatchNode c || instanceof_AsyncBatchNode c)
              m s2 Hsep2) as [hasBatch Hb].
  unfold compile. rewrite (get_not_nullish _ _ Hnn).
  erewrite bind_Done by reflexivity.
  rewrite Hv, Hen, Hn, He. cbn [negb andb].
  rewrite Hnodes. erewrite bind_Done by reflexivity.
  erewrite bind_Done by exact Hcreate.
  rewrite Hedges. erewrite bind_Done by reflexivity.
  erewrite bind_Done by exact Hconnect. rewrite Hstart.
  erewrite bind_Done by exact Ha. erewrite bind_Done by exact Hb.
  set (cls := if hasAsync && hasBatch then CAsyncBatchFlow
              else if hasAsync then CAsyncFlow else CFlow).
  destruct (new_object cls 1 0 s2) as [[fl| | |] s3] eqn:Hnew;
    try (unfold new_object, alloc_table, alloc_node, bind in Hnew; done).
  destruct (creates_new_object _ _ _ s2 fl s3 Hnew) as (_ & ndf & Hfl & _).
  erewrite bind_Done by exact Hnew.
  erewrite bind_Done.
  2:{ unfold start. erewrite bind_Done by (by apply write_Some). reflexivity. }
  unfold setParams.
  erewrite bind_Done by (apply write_Some; apply lookup_insert_eq).
  unfold ret. eexists _, _. split; [reflexivity|]. done.
Qed.


End CompileDomain.

(** ** What [compile] builds *)

Section CompileResult.
Context {W : Type}.
Implicit Types (s : @state W) (nd : @node W) (r : ref) (m : list (value * ref)).
Variable H : host.
Variable env_llm : option (value → M (@env W) value).
Variable env_globals : value.
Variable global_fetch : value → value → M (@env W) response.

Local Abbreviation default_compiler := (new_compiler H env_llm env_globals global_fetch).
Local Abbreviation has_kind_class s :=
  (λ (cfg : value) (p : value * ref),
     ∃ nd, nodes s !! p.2 = Some nd ∧ class_of_kind (kind_of cfg) = Some (class nd)).

Lemma existsb_pointwise {A} (f g : A → bool) (l : list A) :
  (∀ x, f x = g x) → existsb f l = existsb g l.
Proof. intros Hfg. induction l as [|x l IH]; [done|]. simpl. by rewrite Hfg, IH. Qed.

Lemma new_object_class c max w s r s1 :
  new_object (W:=W) c max w s = (Done r, s1) →
  ∃ nd, nodes s1 !! r = Some nd ∧ class nd = c ∧ prep nd = default_prep ∧
        post nd = (if instanceof_Flow c then Flow_post else default_post) ∧
        startNode nd = None ∧ maxRetries nd = max.
Proof.
  unfold new_object, alloc_table, alloc_node, bind, with_nodes. simpl.
  intros [= <- <-]. simpl. eexists. by rewrite lookup_insert_eq.
Qed.

Lemma new_with_retry_class c cfg s r s1 :
  new_with_retry (W:=W) c cfg s = (Done r, s1) →
  ∃ nd, nodes s1 !! r = Some nd ∧ class nd = c.
Proof.
  unfold new_with_retry, bind, of_outcome.
  destruct (Js.get cfg "retry"); try done.
  destruct (as_int _); try done. destruct (as_int _); try done.
  intros Hnew. apply new_object_class in Hnew as (nd & ? & ? & _). eauto.
Qed.

Lemma then_write_class (f : M (@state W) ref) g c s r s1 :
  (∀ s r s1, f s = (Done r, s1) → ∃ nd, nodes s1 !! r = Some nd ∧ class nd = c) →
  (∀ nd, class (g nd) = class nd) →
  (let! node := f in write node g;; ret node) s = (Done r, s1) →
  ∃ nd, nodes s1 !! r = Some nd ∧ class nd = c.
Proof.
  intros Hf Hg. unfold bind at 1.
  destruct (f s) as [[r0| | |] s0] eqn:Ef; try done.
  destruct (Hf _ _ _ Ef) as (nd & Hnd & Hc).
  erewrite bind_Done by (by apply write_Some). unfold ret, with_nodes.
  intros [= <- <-]. simpl. exists (g nd). by rewrite lookup_insert_eq, Hg.
Qed.

Lemma default_registry_class kind factory cfg s r s1 :
  default_registry (W:=W) H env_llm env_globals global_fetch !! kind = Some factory →
  factory cfg s = (Done r, s1) →
  ∃ nd, nodes s1 !! r = Some nd ∧ class_of_kind kind = Some (class nd).
Proof.
  unfold default_registry. intros Hk Hrun.
  apply elem_of_list_to_map_2 in Hk.
  repeat (apply elem_of_cons in Hk; destruct Hk as [Heq|Hk];
          [inversion Heq; subst; clear Heq|]);
    [..|by apply elem_of_nil in Hk].
  - eapply then_write_class in Hrun as (nd & ? & Hc); [exists nd; by rewrite Hc| |done].
    apply new_with_retry_class.
  - eapply then_write_class in Hrun as (nd & ? & Hc); [exists nd; by rewrite Hc| |done].
    apply new_with_retry_class.
  - eapply then_write_class in Hrun as (nd & ? & Hc); [exists nd; by rewrite Hc| |done].
    intros ??? Hn. apply new_object_class in Hn as (nd & ? & ? & _). eauto.
  - eapply then_write_class in Hrun as (nd & ? & Hc); [exists nd; by rewrite Hc| |done].
    intros ??? Hn. apply new_object_class in Hn as (nd & ? & ? & _). eauto.
  - eapply then_write_class in Hrun as (nd & ? & Hc); [exists nd; by rewrite Hc| |done].
    apply new_with_retry_class.
  - apply new_with_retry_class in Hrun as (nd & ? & Hc). exists nd. by rewrite Hc.
  - apply new_with_retry_class in Hrun as (nd & ? & Hc). exists nd. by rewrite Hc.
Qed.

Lemma new_object_quiet c max w s r s1 :
  new_object (W:=W) c max w s = (Done r, s1) → outer s1 = outer s ∧ log s1 = log s.
Proof.
  unfold new_object, alloc_table, alloc_node, bind, with_nodes, with_tables.
  by intros [= _ <-].
Qed.

Lemma new_with_retry_quiet c cfg s r s1 :
  new_with_retry (W:=W) c cfg s = (Done r, s1) → outer s1 = outer s ∧ log s1 = log s.
Proof.
  unfold new_with_retry, bind, of_outcome.
  destruct (Js.get cfg "retry"); try done.
  destruct (as_int _); try done. destruct (as_int _); try done.
  apply new_object_quiet.
Qed.

Lemma then_write_quiet (f : M (@state W) ref) g s r s1 :
  (∀ s r s1, f s = (Done r, s1) → outer s1 = outer s ∧ log s1 = log s) →
  (let! node := f in write node g;; ret node) s = (Done r, s1) →
  outer s1 = outer s ∧ log s1 = log s.
Proof.
  intros Hf. unfold bind at 1.
  destruct (f s) as [[r0| | |] s0] eqn:Ef; try done.
  destruct (Hf _ _ _ Ef) as [Ho Hl].
  unfold write, read, bind. destruct (nodes s0 !! r0); simpl; [|done].
  unfold modify, ret, with_nodes. intros [= _ <-]. by simpl.
Qed.

Lemma default_registry_quiet kind factory cfg s r s1 :
  default_registry (W:=W) H env_llm env_globals global_fetch !! kind = Some factory →
  factory cfg s = (Done r, s1) →
  outer s1 = outer s ∧ log s1 = log s.
Proof.
  unfold default_registry. intros Hk Hrun.
  apply elem_of_list_to_map_2 in Hk.
  repeat (apply elem_of_cons in Hk; destruct Hk as [Heq|Hk];
          [inversion Heq; subst; clear Heq|]);
    [..|by apply elem_of_nil in Hk];
    first [ by eapply new_with_retry_quiet
          | eapply then_write_quiet; [|exact Hrun];
            first [apply new_with_retry_quiet | apply new_object_quiet] ].
Qed.

Lemma create_nodes_quiet cfgs : ∀ ids m s m' s',
  create_nodes default_compiler cfgs ids m s = (Done m', s') →
  outer s' = outer s ∧ log s' = log s.
Proof.
  induction cfgs as [|cfg rest IH]; intros ids m s m' s' Hrun.
  - simpl in Hrun. by injection Hrun as _ <-.
  - simpl in Hrun. unfold bind at 1, of_outcome in Hrun.
    destruct (Js.get cfg "id") as [id| | |]; try done.
    destruct (includes ids id); [done|].
    destruct (default_registry H env_llm env_globals global_fetch
                !! Js.to_string (Js.get_own cfg "kind")) as [factory|] eqn:Hf; [|by destruct (Js.inherited _)].
    unfold bind at 1 in Hrun.
    destruct (factory cfg s) as [[node| | |] s1] eqn:Hfac; try done.
    destruct (default_registry_quiet _ _ cfg s node s1 Hf Hfac) as [<- <-].
    by eapply IH.
Qed.

Lemma create_nodes_classes cfgs : ∀ done m s m' s',
  Forall2 (has_kind_class s) done m →
  create_nodes default_compiler cfgs (fst <$> m) m s = (Done m', s') →
  Forall2 (has_kind_class s') (done ++ cfgs) m'.
Proof.
  induction cfgs as [|cfg rest IH]; intros done m s m' s' Hdone Hrun.
  - simpl in Hrun. injection Hrun as <- <-. by rewrite app_nil_r.
  - simpl in Hrun. unfold bind at 1, of_outcome in Hrun.
    destruct (Js.get cfg "id") as [id| | |] eqn:Hid; try done.
    destruct (includes (fst <$> m) id) eqn:Hinc; [done|].
    destruct (default_registry H env_llm env_globals global_fetch
                !! Js.to_string (Js.get_own cfg "kind")) as [factory|] eqn:Hf; [|by destruct (Js.inherited _)].
    unfold bind at 1 in Hrun.
    destruct (factory cfg s) as [[node| | |] s1] eqn:Hfac; try done.
    destruct (default_registry_creates _ _ _ _ _ _ cfg Hf s node s1 Hfac)
      as (Hfresh & _ & _ & _ & _ & Hframe & _).
    destruct (default_registry_class _ _ cfg s node s1 Hf Hfac) as (nd & Hnd & Hcls).
    rewrite (map_set_fresh _ _ _ Hinc) in Hrun.
    replace ((fst <$> m) ++ [id]) with (fst <$> (m ++ [(id, node)])) in Hrun
      by (by rewrite fmap_app).
    apply (IH (done ++ [cfg])) in Hrun; [by rewrite <- app_assoc in Hrun|].
    apply Forall2_app.
    + eapply Forall2_impl; [exact Hdone|].
      intros c [k x] (ndx & Hx & Hc). simpl in *. exists ndx. split; [|done].
      rewrite Hframe; [done|]. intros ->. congruence.
    + constructor; [|constructor]. by exists nd.
Qed.

Lemma connect_edges_nodes m : ∀ edges s s',
  connect_edges (W:=W) m edges s = (Done tt, s') →
  nodes s' = nodes s ∧ outer s' = outer s ∧ log s' = log s.
Proof.
  induction edges as [|edge rest IH]; intros s s' Hrun.
  - simpl in Hrun. by injection Hrun as <-.
  - simpl in Hrun. unfold bind at 1, of_outcome in Hrun.
    destruct (Js.get edge "from") as [from| | |]; try done.
    destruct (map_get m from) as [fromNode|]; [|done].
    destruct (map_get m (Js.get_own edge "to")) as [toNode|]; [|done].
    unfold bind at 1 in Hrun.
    destruct (next fromNode toNode _ s) as [[?| | |] s1] eqn:Hnext; try done.
    apply IH in Hrun as (-> & -> & ->).
    unfold next, bind, read in Hnext. destruct (nodes s !! fromNode); [|done].
    unfold modify, ret, with_tables in Hnext. by injection Hnext as _ <-.
Qed.

Lemma some_node_value test cfgs m s :
  Forall2 (has_kind_class s) cfgs m →
  some_node test m s
    = (Done (existsb (λ cfg, match class_of_kind (kind_of cfg) with
                             | Some c => test c
                             | None => false
                             end) cfgs), s).
Proof.
  induction 1 as [|cfg [k r] cfgs m (nd & Hnd & Hc) _ IH]; [done|].
  simpl in *. erewrite bind_Done by (by apply read_Some).
  rewrite Hc. destruct (test (class nd)); [done|]. exact IH.
Qed.

Ltac split_kind cfg :=
  repeat match goal with
  | |- context [String.eqb (kind_of cfg) ?k] =>
      let E := fresh in
      destruct (String.eqb_spec (kind_of cfg) k) as [E|E]; [by rewrite ?E|]
  end.

Lemma async_kind_class cfg :
  match class_of_kind (kind_of cfg) with
  | Some c => instanceof_AsyncNode c
  | None => false
  end = is_async_kind cfg.
Proof.
  unfold class_of_kind, is_async_kind.
  by split_kind cfg.
Qed.

Lemma batch_kind_class cfg :
  match class_of_kind (kind_of cfg) with
  | Some c => (instanceof_BatchNode c || instanceof_AsyncBatchNode c)%bool
  | None => false
  end = is_batch_kind cfg.
Proof.
  unfold class_of_kind, is_batch_kind. by split_kind cfg.
Qed.

(** What a compilation with the default registry leaves in the store. *)
Lemma compile_post config s out s' :
  compile default_compiler config s = (Done out, s') →
  ∃ nodeConfigs fl start,
    iterate (Js.get_own config "nodes") = Done nodeConfigs ∧
    fst <$> compiled_nodes out = ids_of nodeConfigs ∧
    (∀ i j a b, (i < j)%nat → ids_of nodeConfigs !! i = Some a →
       ids_of nodeConfigs !! j = Some b → Js.same_value_zero a b = false) ∧
    Forall2 (has_kind_class s') nodeConfigs (compiled_nodes out) ∧
    map_get (compiled_nodes out) (Js.get_own config "entry") = Some start ∧
    nodes s' !! flow out = Some fl ∧
    (∀ p, p ∈ compiled_nodes out → p.2 ≠ flow out) ∧
    class fl = flow_class_for nodeConfigs ∧
    startNode fl = Some start ∧
    params fl = Js.or_else (Js.get_own config "globals") (VObj []) ∧
    prep fl = default_prep ∧ post fl = Flow_post ∧
    outer s' = outer s ∧ log s' = log s.
Proof.
  intros Hrun.
  destruct (compile_inv _ _ _ _ _ Hrun)
    as (nodeConfigs & edges & m & s1 & s2 & start & fl & s3 & s4 & Hnn & Htruthy
        & Hnodes & Hedges & Hcreate & Hconnect & Hentry
        & (hasAsync & hasBatch & Ha & Hb & Hnew) & Hstart & Hset & ->).
  assert (Hcls : Forall2 (has_kind_class s1) ([] ++ nodeConfigs) m).
  { apply (create_nodes_classes nodeConfigs [] [] s m s1); [constructor|done]. }
  simpl in Hcls.
  destruct (connect_edges_nodes _ _ _ _ Hconnect) as (Hn2 & Ho2 & Hl2).
  assert (Hcls2 : Forall2 (has_kind_class s2) nodeConfigs m).
  { eapply Forall2_impl; [exact Hcls|]. intros c p (nd & ? & ?). exists nd.
    by rewrite Hn2. }
  rewrite (some_node_value _ _ _ _ Hcls2) in Ha.
  rewrite (some_node_value _ _ _ _ Hcls2) in Hb.
  injection Ha as <-. injection Hb as <-.
  rewrite (existsb_pointwise _ _ _ async_kind_class) in Hnew.
  rewrite (existsb_pointwise _ _ _ batch_kind_class) in Hnew.
  destruct (creates_new_object _ _ _ s2 fl s3 Hnew) as (Hfresh & _ & _ & _ & _ & Hframe & _).
  destruct (new_object_class _ _ _ _ _ _ Hnew) as (ndf & Hfl & Hc & Hprep & Hpost & _).
  rewrite (write_Some _ _ _ _ Hfl) in Hstart. injection Hstart as <-.
  unfold setParams in Hset.
  rewrite (write_Some _ _ (set_startNode (Some start) ndf)) in Hset
    by apply lookup_insert_eq.
  injection Hset as <-.
  assert (Hne : ∀ p, p ∈ m → p.2 ≠ fl).
  { intros p Hp Heq. apply list_elem_of_lookup in Hp as [i Hi].
    destruct (Forall2_lookup_r _ _ _ _ _ Hcls2 Hi) as (c & _ & nd & Hnd & _).
    rewrite Heq in Hnd. congruence. }
  exists nodeConfigs, (set_params (Js.or_else (Js.get_own config "globals") (VObj []))
                        (set_startNode (Some start) ndf)), start.
  simpl. split; [done|]. split.
  { by destruct (create_nodes_checks _ nodeConfigs [] s m s1 Hcreate) as (? & _). }
  split.
  { destruct (create_nodes_checks _ nodeConfigs [] s m s1 Hcreate) as (_ & _ & Hfr).
    by apply fresh_ids_distinct. }
  split.
  { apply Forall2_same_length_lookup_2; [by eapply Forall2_length|].
    intros i c p Hc' Hp.
    destruct (Forall2_lookup_lr _ _ _ _ _ _ Hcls2 Hc' Hp) as (nd & Hnd & Hk).
    exists nd. split; [|done].
    rewrite !lookup_insert_ne; [by rewrite Hframe; [|eapply Hne, list_elem_of_lookup_2]| |];
      intros Heq; symmetry in Heq; revert Heq; by eapply Hne, list_elem_of_lookup_2. }
  split; [done|]. split; [apply lookup_insert_eq|]. split; [done|].
  split.
  { exact Hc. }
  split; [done|]. split; [done|]. split; [done|]. split.
  { etrans; [exact Hpost|].
    by destruct (existsb is_async_kind nodeConfigs), (existsb is_batch_kind nodeConfigs). }
  destruct (new_object_quiet _ _ _ _ _ _ Hnew) as [Ho3 Hl3].
  destruct (create_nodes_quiet _ _ _ _ _ _ Hcreate) as [Ho1 Hl1].
  simpl. by rewrite Ho3, Hl3, Ho2, Hl2, Ho1, Hl1.
Qed.

(** X15.  With the default registry, and for a description whose node
    kinds are strings that name no member of [Object.prototype], every
    node spec becomes an object of the class of its kind, and the kinds
    decide the class of the flow: an [AsyncBatchFlow] when the description
    has both an [async] or [parallel] node and a [batch] node, an
    [AsyncFlow] when it has an [async] or [parallel] node only, a [Flow]
    otherwise.  The flow starts at the entry node and carries the
    description's [globals] as its parameters.  Compiling runs nothing:
    the shared context and the observer's log are as before. *)
Theorem compile_builds_by_kind config s out s' :
  kinds_plain config = true →
  compile default_compiler config s = (Done out, s') →
  ∃ nodeConfigs fl,
    iterate (Js.get_own config "nodes") = Done nodeConfigs ∧
    Forall2 (λ cfg p, ∃ nd, nodes s' !! p.2 = Some nd ∧
                            class_of_kind (kind_of cfg) = Some (class nd))
            nodeConfigs (compiled_nodes out) ∧
    nodes s' !! flow out = Some fl ∧
    class fl = flow_class_for nodeConfigs ∧
    startNode fl = map_get (compiled_nodes out) (Js.get_own config "entry") ∧
    is_Some (startNode fl) ∧
    params fl = Js.or_else (Js.get_own config "globals") (VObj []) ∧
    outer s' = outer s ∧ log s' = log s.
Proof.
  intros _ Hrun.
  destruct (compile_post _ _ _ _ Hrun)
    as (nodeConfigs & fl & start & Hn & _ & _ & Hcls & Hentry & Hfl & _ & Hc & Hst & Hp
        & _ & _ & Ho & Hl).
  exists nodeConfigs, fl. rewrite Hentry, Hst. by repeat (split; [done|]).
Qed.

Lemma same_value_zero_eq a b : Js.same_value_zero a b = true → a = b.
Proof.
  destruct a, b; simpl; try done.
  - intros Hb. apply bool_decide_eq_true in Hb. by subst.
  - intros Hn. apply Z.eqb_eq in Hn. by subst.
  - intros Hs. apply String.eqb_eq in Hs. by subst.
Qed.

Lemma map_get_at (m : list (value * ref)) k r i x :
  map_get m k = Some r →
  m !! i = Some (k, x) →
  (∀ i j a b, (i < j)%nat → (fst <$> m) !! i = Some a → (fst <$> m) !! j = Some b →
     Js.same_value_zero a b = false) →
  r = x.
Proof.
  unfold map_get. intros Hget Hi Hdist.
  destruct (List.find _ m) as [[k' r']|] eqn:Hfind; [|done].
  simpl in Hget. injection Hget as ->.
  apply find_some in Hfind as [Hin Hsame]. simpl in Hsame.
  apply same_value_zero_eq in Hsame as Heq. subst k'.
  apply list_elem_of_In, list_elem_of_lookup in Hin as [j Hj].
  destruct (decide (i = j)) as [->|Hne]; [congruence|].
  assert (Hfi : (fst <$> m) !! i = Some k) by (by rewrite list_lookup_fmap, Hi).
  assert (Hfj : (fst <$> m) !! j = Some k) by (by rewrite list_lookup_fmap, Hj).
  destruct (decide (i < j)%nat).
  - rewrite (Hdist i j k k) in Hsame; [done|lia|done|done].
  - rewrite (Hdist j i k k) in Hsame; [done|lia|done|done].
Qed.

(** X16.  A description whose entry node is of kind [async] or [parallel]
    compiles to a flow that [run] cannot run: the flow copies the entry
    node, and the node's [_run] throws "Use runAsync." before any stage of
    it is called.  The shared context is left as it was. *)
Theorem run_rejects_async_entry config s out s' (fuel i : nat) nodeConfigs cfg :
  compile default_compiler config s = (Done out, s') →
  iterate (Js.get_own config "nodes") = Done nodeConfigs →
  nodeConfigs !! i = Some cfg →
  Js.get_own cfg "id" = Js.get_own config "entry" →
  is_async_kind cfg = true →
  ∃ start s'',
    map_get (compiled_nodes out) (Js.get_own config "entry") = Some start ∧
    run (S fuel) (flow out) s' = (Throw (JsError "Use runAsync."), s'') ∧
    outer s'' = outer s' ∧
    log s'' = log s' ++ [EvVisit start].
Proof.
  intros Hrun Hn Hi Hid Hasync.
  destruct (compile_post _ _ _ _ Hrun)
    as (nodeConfigs' & fl & start & Hn' & Hids & Hdist & Hcls & Hentry & Hfl & Hne & Hc
        & Hst & Hp & Hprep & Hpost & _ & _).
  assert (nodeConfigs' = nodeConfigs) as -> by congruence.
  destruct (Forall2_lookup_l _ _ _ _ _ Hcls Hi) as ([k x] & Hx & ndx & Hndx & Hk).
  simpl in Hndx.
  assert (k = Js.get_own config "entry") as ->.
  { assert ((fst <$> compiled_nodes out) !! i = Some k) as Hfk
      by (by rewrite list_lookup_fmap, Hx).
    rewrite Hids in Hfk. unfold ids_of in Hfk. rewrite list_lookup_fmap, Hi in Hfk.
    simpl in Hfk. congruence. }
  assert (start = x) as ->.
  { eapply map_get_at; [exact Hentry|exact Hx|]. by rewrite Hids. }
  assert (Hxa : instanceof_AsyncNode (class ndx) = true).
  { pose proof (async_kind_class cfg) as Ha. rewrite Hk, Hasync in Ha. done. }
  assert (Hflow : instanceof_Flow (class fl) = true).
  { rewrite Hc. unfold flow_class_for.
    by destruct (existsb is_async_kind nodeConfigs), (existsb is_batch_kind nodeConfigs). }
  assert (Horch :
    _orch (S fuel) (flow out) VNull s'
    = (Throw (JsError "Use runAsync."),
       {| nodes := <[fresh (dom (nodes s')) := set_params (spread (params fl)) ndx]>
                     (<[fresh (dom (nodes s')) := ndx]> (nodes s'));
          tables := tables s'; outer := outer s';
          log := log s' ++ [EvVisit x] |})).
  { unfold _orch, _orch_with.
    erewrite bind_Done by (by apply read_Some). rewrite Hst.
    erewrite bind_Done.
    2:{ unfold clone. erewrite bind_Done by (by apply read_Some). reflexivity. }
    erewrite bind_Done by reflexivity.
    cbn [orch_loop Js.truthy].
    erewrite bind_Done by (apply write_Some; apply lookup_insert_eq).
    erewrite bind_Throw; [reflexivity|].
    unfold _run_with.
    erewrite bind_Done by (apply read_Some; apply lookup_insert_eq).
    cbn [class set_params]. by destruct (class ndx). }
  exists x.
  exists {| nodes := <[fresh (dom (nodes s')) := set_params (spread (params fl)) ndx]>
                          (<[fresh (dom (nodes s')) := ndx]> (nodes s'));
               tables := tables s'; outer := outer s';
               log := log s' ++ [EvVisit x] |}.
  split; [done|]. split; [|split; reflexivity].
  unfold run, _run, _run_with.
  erewrite bind_Done by (by apply read_Some).
  assert (Hbody : ∀ (A C : M (@state W) value),
    match class fl with
    | CNode | CBatchNode => A
    | CFlow | CAsyncFlow | CAsyncBatchFlow =>
        let! p := stage (prep fl (params fl)) in
        let! e := _orch (S fuel) (flow out) VNull in
        let! nd := read (flow out) in stage (post nd (params nd) p e)
    | _ => C
    end s'
    = (Throw (JsError "Use runAsync."),
       {| nodes := <[fresh (dom (nodes s')) := set_params (spread (params fl)) ndx]>
                     (<[fresh (dom (nodes s')) := ndx]> (nodes s'));
          tables := tables s'; outer := outer s';
          log := log s' ++ [EvVisit x] |})).
  { intros A C.
    assert (Hflow' :
      (let! p := stage (prep fl (params fl)) in
       let! e := _orch (S fuel) (flow out) VNull in
       let! nd := read (flow out) in stage (post nd (params nd) p e)) s'
      = (Throw (JsError "Use runAsync."),
         {| nodes := <[fresh (dom (nodes s')) := set_params (spread (params fl)) ndx]>
                       (<[fresh (dom (nodes s')) := ndx]> (nodes s'));
            tables := tables s'; outer := outer s';
            log := log s' ++ [EvVisit x] |})).
    { rewrite Hprep. erewrite bind_Done.
      2:{ unfold default_prep, stage, ret. simpl. reflexivity. }
      replace {| nodes := nodes s'; tables := tables s'; outer := outer s';
                 log := log s' |} with s' by (by destruct s').
      by erewrite bind_Throw by exact Horch. }
    by destruct (class fl). }
  apply Hbody.
Qed.

End CompileResult.

(** ** The nodes that [compile] builds *)

Section CompiledNodes.
Context {W : Type}.
Implicit Types (s : @state W) (nd : @node W) (r : ref).
Variable H : host.
Variable env_globals : value.
Variable global_fetch : value → value → M (@env W) response.

Lemma attempts_pure (call : M (@env W) value) e n σ :
  (∀ σ, call σ = (Throw e, σ)) → attempts call n σ = (replicate n e, σ).
Proof.
  intros Hcall. induction n as [|n IH]; [done|]. simpl. by rewrite Hcall, IH.
Qed.

Lemma last_replicate {A} (e d : A) n : List.last (replicate (S n) e) d = e.
Proof. induction n as [|n IH]; [done|]. exact IH. Qed.

(** A node whose execute stage fails in the same way on every call and
    touches nothing: the lifecycle ends with that error. *)
Lemma run_exhausts (fuel : nat) this s nd p σ0 e :
  nodes s !! this = Some nd →
  class nd = CNode →
  1 ≤ maxRetries nd →
  prep nd (params nd) (outer s) = (Done p, σ0) →
  (∀ σ, exec nd (params nd) p σ = (Throw e, σ)) →
  execFallback nd = default_execFallback →
  _run fuel this s
    = (Throw e,
       {| nodes := <[this := set_curRetry (maxRetries nd - 1) nd]> (nodes s);
          tables := tables s; outer := σ0;
          log := log s ++ failing_trace p (wait nd)
                            (replicate (Z.to_nat (maxRetries nd)) e) |}).
Proof.
  intros Hnd Hcls Hk Hprep Hfail Hfb.
  set (nd0 := set_curRetry 0 nd).
  set (s0 := {| nodes := <[this := nd0]> (nodes s); tables := tables s;
                outer := σ0; log := log s |}).
  destruct (retry_loop_exhausts (Z.to_nat (maxRetries nd) - 1)
              (S (Z.to_nat (maxRetries nd))) this p s0 nd0)
    as (es & σ' & Hes & Hlen & Hloop).
  { apply lookup_insert_eq. }
  { intros σ. exists e, σ. apply Hfail. }
  { simpl. lia. }
  { lia. }
  rewrite (attempts_pure _ e _ _ Hfail) in Hes. injection Hes as <- <-.
  unfold _run, _run_with.
  erewrite bind_Done by (by apply read_Some). rewrite Hcls.
  unfold bind at 1, stage at 1. rewrite Hprep.
  erewrite bind_Throw; [reflexivity|].
  unfold _exec. erewrite bind_Done by (by apply read_Some). rewrite Hcls.
  unfold Node_exec. erewrite bind_Done by (by apply write_Some).
  erewrite bind_Done by (apply read_Some; apply lookup_insert_eq).
  etrans; [exact Hloop|]. subst nd0 s0. cbn [execFallback set_curRetry params
    maxRetries wait nodes tables outer log].
  change (e :: replicate (Z.to_nat (maxRetries nd) - 1) e)
    with (replicate (S (Z.to_nat (maxRetries nd) - 1)) e).
  rewrite Hfb, last_replicate.
  replace (S (Z.to_nat (maxRetries nd) - 1)) with (Z.to_nat (maxRetries nd)) by lia.
  unfold default_execFallback, stage, throw. cbn [nodes tables outer log].
  by rewrite insert_insert_eq.
Qed.

Lemma new_with_retry_node c cfg s r s1 max :
  new_with_retry (W:=W) c cfg s = (Done r, s1) →
  retry_max cfg = Done max →
  ∃ nd, nodes s1 !! r = Some nd ∧ class nd = c ∧ maxRetries nd = max ∧
        params nd = VObj [] ∧ curRetry nd = 0 ∧
        execFallback nd = default_execFallback ∧
        outer s1 = outer s ∧ log s1 = log s.
Proof.
  unfold new_with_retry, retry_max, bind, of_outcome.
  destruct (Js.get cfg "retry") as [retry| | |] eqn:Hr; try done.
  apply get_Done in Hr. subst retry. intros Hnew Hmax. rewrite Hmax in Hnew.
  destruct (as_int _) as [w| | |]; try done.
  unfold new_object, alloc_table, alloc_node, bind, with_nodes, with_tables in Hnew.
  injection Hnew as <- <-. simpl. eexists. by rewrite lookup_insert_eq.
Qed.

Lemma factory_node c cfg P E a PO s r s1 max :
  (let! node := new_with_retry (W:=W) c cfg in
   write node (with_stages P E a PO);; ret node) s = (Done r, s1) →
  retry_max cfg = Done max →
  ∃ nd, nodes s1 !! r = Some nd ∧ class nd = c ∧ maxRetries nd = max ∧
        params nd = VObj [] ∧ execFallback nd = default_execFallback ∧
        prep nd = P ∧ exec nd = E ∧ exec_async nd = a ∧ post nd = PO ∧
        outer s1 = outer s ∧ log s1 = log s.
Proof.
  intros Hrun Hmax. unfold bind at 1 in Hrun.
  destruct (new_with_retry c cfg s) as [[r0| | |] s0] eqn:Hnew; try done.
  destruct (new_with_retry_node _ _ _ _ _ _ Hnew Hmax)
    as (nd & Hnd & Hc & Hm & Hp & _ & Hfb & Ho & Hl).
  erewrite bind_Done in Hrun by (by apply write_Some).
  unfold ret, with_nodes in Hrun. injection Hrun as <- <-. simpl.
  eexists. rewrite lookup_insert_eq. split; [done|]. simpl.
  by repeat (split; [done|]).
Qed.

Lemma context_of_shared_Done (σ : @env W) :
  nullish (shared σ) = false →
  context_of_shared σ
    = (Done (VObj [("ctx", shared σ); ("result", Js.get_own (shared σ) "_lastResult")]), σ).
Proof.
  intros Hnn. unfold context_of_shared, bind, gets, of_outcome. simpl.
  by rewrite (get_not_nullish _ _ Hnn).
Qed.



(** X19.  A data node hands the [exec] object of its spec (an empty object
    when it has none) to its post stage and, unlike the LLM, HTTP and
    batch nodes, does not store it under [_lastResult]: without outputs to
    save, the lifecycle leaves the shared context as it was.  The label is
    [post.next], or [null]. *)
Theorem data_node_lifecycle cfg s r s1 (fuel : nat) :
  createDataNode H cfg s = (Done r, s1) →
  let execRes := Js.or_else (Js.get_own cfg "exec") (VObj []) in
  let prepRes := VObj [("shared", shared (outer s1))] in
  ∃ nd,
    nodes s1 !! r = Some nd ∧
    _run fuel r s1
      = stage (save_outputs H cfg execRes;; ret (next_label cfg))
          {| nodes := <[r := set_curRetry 0 nd]> (nodes s1); tables := tables s1;
             outer := outer s1; log := log s1 ++ [EvExec prepRes] |} ∧
    (Js.truthy (Js.opt_get (Js.opt_get (Js.get_own cfg "post") "outputs") "save") = false →
     _run fuel r s1
       = (Done (next_label cfg),
          {| nodes := <[r := set_curRetry 0 nd]> (nodes s1); tables := tables s1;
             outer := outer s1; log := log s1 ++ [EvExec prepRes] |})).
Proof.
  intros Hcreate execRes prepRes.
  unfold createDataNode in Hcreate. unfold bind at 1 in Hcreate.
  destruct (new_object CNode 1 0 s) as [[r0| | |] s0] eqn:Hnew; try done.
  destruct (new_object_class _ _ _ _ _ _ Hnew) as (nd0 & Hnd0 & Hc & _ & _ & _ & Hm).
  erewrite bind_Done in Hcreate by (by apply write_Some).
  unfold ret, with_nodes in Hcreate. injection Hcreate as <- <-.
  eexists. split; [apply lookup_insert_eq|].
  match goal with
  | |- context [set_curRetry 0 ?n] => set (nd := n)
  end.
  destruct (run_after_failures fuel r0
              {| nodes := <[r0 := nd]> (nodes s0); tables := tables s0;
                 outer := outer s0; log := log s0 |}
              nd prepRes (outer s0) 0 [] (outer s0) execRes (outer s0))
    as [_ Hrun]; try done.
  - apply lookup_insert_eq.
  - simpl. lia.
  - cbn [nodes tables outer log] in Hrun |- *.
    assert (Hrun' : _run fuel r0
        {| nodes := <[r0 := nd]> (nodes s0); tables := tables s0;
           outer := outer s0; log := log s0 |}
      = stage (save_outputs H cfg execRes;; ret (next_label cfg))
          {| nodes := <[r0 := set_curRetry 0 nd]> (<[r0 := nd]> (nodes s0));
             tables := tables s0; outer := outer s0;
             log := log s0 ++ [EvExec prepRes] |}).
    { rewrite Hrun. reflexivity. }
    split; [exact Hrun'|].
    intros Hnone. rewrite Hrun'.
    unfold stage, save_outputs, bind, ret. cbn [outer]. rewrite Hnone.
    by destruct (outer s0).
Qed.

End CompiledNodes.

(** ** Validation *)

Section VersionFacts.

Lemma prefix_app p x : String.prefix p (p +:+ x) = true.
Proof.
  induction p as [|c p IH]; [by destruct x|]. rewrite append_cons. simpl.
  by destruct (Ascii.ascii_dec c c).
Qed.

Lemma prefix_inv p s : String.prefix p s = true → ∃ x, s = p +:+ x.
Proof.
  revert s. induction p as [|c p IH]; intros s Hp; [by exists s|].
  destruct s as [|d s]; [done|]. simpl in Hp.
  destruct (Ascii.ascii_dec c d) as [->|]; [|done].
  destruct (IH s Hp) as [x ->]. by exists x.
Qed.

Lemma substring_all x : String.substring 0 (String.length x) x = x.
Proof. induction x as [|c x IH]; [done|]. simpl. by rewrite IH. Qed.

Lemma span_inv p x a b :
  Str.span p x = (a, b) →
  x = a +:+ b ∧ Str.all p a = true ∧ Str.span p b = ("", b).
Proof.
  revert a b. induction x as [|c x IH]; intros a b; simpl.
  - by intros [= <- <-].
  - destruct (p c) eqn:Hc.
    + destruct (Str.span p x) as [a' b'] eqn:Hx. intros [= <- <-].
      destruct (IH a' b' eq_refl) as (-> & Ha & Hb).
      rewrite append_cons. simpl. by rewrite Hc, Ha.
    + intros [= <- <-]. simpl. by rewrite Hc.
Qed.

Lemma span_whole p a : Str.all p a = true → Str.span p a = (a, "").
Proof.
  intros Ha. rewrite <- (app_string_empty a) at 1.
  rewrite (span_all _ _ "" Ha). simpl. by rewrite app_string_empty.
Qed.

(** X21.  The version test [/^pf-js\/\d+\.\d+$/]: a string passes exactly
    when it is "pf-js/", one or more digits, a dot, and one or more
    digits, with nothing before or after. *)
Theorem is_version_spec (s : string) :
  Str.is_version s = true ↔
  ∃ major minor,
    s = "pf-js/" +:+ major +:+ "." +:+ minor ∧
    major ≠ "" ∧ minor ≠ "" ∧
    Str.all Str.is_digit major = true ∧ Str.all Str.is_digit minor = true.
Proof.
  unfold Str.is_version. split.
  - destruct (String.prefix "pf-js/" s) eqn:Hp; [|done].
    apply prefix_inv in Hp as [x ->].
    change (String.substring 6 (String.length ("pf-js/" +:+ x) - 6) ("pf-js/" +:+ x))
      with (String.substring 0 (String.length x - 0) x).
    rewrite Nat.sub_0_r, substring_all.
    destruct (Str.span Str.is_digit x) as [major r1] eqn:H1.
    apply span_inv in H1 as (-> & Hmaj & _).
    destruct r1 as [|c r2]; [done|].
    destruct (Ascii.eqb_spec c ".") as [->|Hc].
    2:{ destruct c as [[] [] [] [] [] [] [] []]; try done. }
    destruct (Str.span Str.is_digit r2) as [minor r3] eqn:H2.
    apply span_inv in H2 as (-> & Hmin & _).
    intros Hb. apply andb_true_iff in Hb as [Hb H3].
    apply andb_true_iff in Hb as [Hb1 Hb2].
    apply String.eqb_eq in H3 as ->.
    exists major, minor. rewrite app_string_empty.
    split; [done|]. split; [by intros ->|]. split; [by intros ->|]. done.
  - intros (major & minor & -> & Hmaj & Hmin & Hdmaj & Hdmin).
    rewrite prefix_app.
    change (String.substring 6 (String.length ("pf-js/" +:+ major +:+ "." +:+ minor) - 6)
              ("pf-js/" +:+ major +:+ "." +:+ minor))
      with (String.substring 0 (String.length (major +:+ "." +:+ minor) - 0)
              (major +:+ "." +:+ minor)).
    rewrite Nat.sub_0_r, substring_all.
    change ("." +:+ minor) with (String "." minor).
    rewrite (span_stops _ major "."%char minor Hdmaj eq_refl).
    rewrite (span_whole _ _ Hdmin).
    destruct major; [done|]. destruct minor; [done|]. done.
Qed.

End VersionFacts.

Section ValidatorFacts.
Import Validator.

Lemma all_unit_spec {A} (f : A → outcome unit) l :
  all_unit f l = Done tt → ∀ x, x ∈ l → f x = Done tt.
Proof.
  induction l as [|a l IH]; intros Hall x Hx; [by apply elem_of_nil in Hx|].
  simpl in Hall. destruct (f a) as [[]| | |] eqn:Ha; try done. simpl in Hall.
  apply elem_of_cons in Hx as [->|Hx]; [done|]. by apply IH.
Qed.

Lemma all_unit_returns {A} (f : A → outcome unit) l :
  (∀ x, x ∈ l → f x = Done tt) → all_unit f l = Done tt.
Proof.
  induction l as [|a l IH]; intros Hall; [done|].
  simpl. rewrite (Hall a) by left. simpl. apply IH. intros x Hx. apply Hall. by right.
Qed.

Lemma all_values_spec {A B} (f : A → outcome B) l ys :
  all_values f l = Done ys → Forall2 (λ x y, f x = Done y) l ys.
Proof.
  revert ys. induction l as [|a l IH]; intros ys; simpl.
  - intros [= <-]. constructor.
  - destruct (f a) as [y| | |] eqn:Ha; try done. simpl.
    destruct (all_values f l) as [ys'| | |]; try done. simpl.
    intros [= <-]. constructor; [done|]. by apply IH.
Qed.

Lemma all_ids nodes nodeIds :
  all_values (λ n, Js.get n "id") nodes = Done nodeIds →
  nodeIds = ids_of nodes ∧ ∀ n, n ∈ nodes → nullish n = false.
Proof.
  intros Hall. apply all_values_spec in Hall.
  induction Hall as [|n id nodes ids Hid _ [-> IH]]; [split; [done|]|].
  - by intros n Hn%elem_of_nil.
  - pose proof (get_nullish _ _ _ Hid). apply get_Done in Hid as ->.
    split; [done|]. intros x [->|Hx]%elem_of_cons; [done|by apply IH].
Qed.

(** What [validateConfig] has checked when it returns. *)
Lemma validateConfig_inv config :
  validateConfig config = Done tt →
  ∃ n ns edges,
    nullish config = false ∧
    Js.truthy (Js.get_own config "version") = true ∧
    Js.truthy (Js.get_own config "entry") = true ∧
    Js.get_own config "nodes" = VArr (n :: ns) ∧
    Js.get_own config "edges" = VArr edges ∧
    (∀ x, x ∈ n :: ns → nullish x = false) ∧
    includes (ids_of (n :: ns)) (Js.get_own config "entry") = true ∧
    (∀ e, e ∈ edges →
       nullish e = false ∧
       includes (ids_of (n :: ns)) (Js.get_own e "from") = true ∧
       includes (ids_of (n :: ns)) (Js.get_own e "to") = true) ∧
    validateEdgeRouting config = Done tt.
Proof.
  unfold validateConfig. intros Hv.
  destruct (Js.get config "version") as [version| | |] eqn:Hver; try done.
  pose proof (get_nullish _ _ _ Hver) as Hnn. apply get_Done in Hver as ->.
  cbn [obind] in Hv.
  destruct (_ && _ && _ && _)%bool eqn:Htruthy; [|done]. cbn [negb] in Hv.
  apply andb_true_iff in Htruthy as [Htruthy He].
  apply andb_true_iff in Htruthy as [Htruthy Hn].
  apply andb_true_iff in Htruthy as [Hve Hen].
  destruct (Js.get_own config "nodes") as [| | | | |[|n ns]| |] eqn:Hnodes; try done.
  destruct (Js.get_own config "edges") as [| | | | |edges| |] eqn:Hedges; try done.
  cbn [is_array negb] in Hv.
  destruct (all_values _ (n :: ns)) as [nodeIds| | |] eqn:Hids; try done.
  apply all_ids in Hids as [-> Hnodes_nn]. cbn [obind] in Hv.
  destruct (existsb _ (ids_of (n :: ns))) eqn:Hentry; [|done]. cbn [negb] in Hv.
  cbn [iterate obind] in Hv.
  destruct (all_unit _ edges) as [[]| | |] eqn:Hall; try done. cbn [obind] in Hv.
  exists n, ns, edges. repeat (split; [done|]). split; [|done].
  intros e Hin. pose proof (all_unit_spec _ _ Hall e Hin) as Hedge. cbv beta in Hedge.
  destruct (Js.get e "from") as [from| | |] eqn:Hfrom; try done.
  pose proof (get_nullish _ _ _ Hfrom). apply get_Done in Hfrom as ->.
  cbn [obind] in Hedge. unfold includes.
  destruct (existsb (λ x, Js.same_value_zero x (Js.get_own e "from")) _) eqn:H1;
    [|done].
  cbn [negb] in Hedge.
  destruct (existsb (λ x, Js.same_value_zero x (Js.get_own e "to")) _) eqn:H2; done.
Qed.

(** X22.  [validateConfig] returns only for a description that has its
    four required fields, a non-empty array of node specs and an array of
    edge specs, none of them [null] or [undefined], and whose entry and
    edge ends all name a node. *)
Theorem validateConfig_accepts_only config :
  validateConfig config = Done tt →
  ∃ nodes edges,
    nodes ≠ [] ∧
    Js.get_own config "nodes" = VArr nodes ∧
    Js.get_own config "edges" = VArr edges ∧
    Js.truthy (Js.get_own config "version") = true ∧
    Js.truthy (Js.get_own config "entry") = true ∧
    (∀ x, x ∈ nodes → nullish x = false) ∧
    includes (ids_of nodes) (Js.get_own config "entry") = true ∧
    (∀ e, e ∈ edges →
       nullish e = false ∧
       includes (ids_of nodes) (Js.get_own e "from") = true ∧
       includes (ids_of nodes) (Js.get_own e "to") = true).
Proof.
  intros Hv.
  destruct (validateConfig_inv _ Hv)
    as (n & ns & edges & _ & Hver & Hen & Hn & He & Hnn & Hentry & Hedges & _).
  exists (n :: ns), edges. by repeat (split; [done|]).
Qed.

(** X23.  A description that [validateConfig] accepts is one that
    [compile] accepts as well, unless it repeats an id or has a node of a
    kind that is not registered: these two are the checks that [compile]
    makes and the validation does not. *)
Theorem validated_description_compiles {W} (C : @PocketFlowCompiler W) config nodes s :
  (∀ k f cfg, registry C !! k = Some f → creates_node (f cfg)) →
  validateConfig config = Done tt →
  Js.get_own config "nodes" = VArr nodes →
  (∀ n, n ∈ nodes → is_Some (registry C !! kind_of n)) →
  (∀ n f s0, n ∈ nodes → registry C !! kind_of n = Some f →
     ∃ r s1, f n s0 = (Done r, s1)) →
  (∀ i j a b, (i < j)%nat → ids_of nodes !! i = Some a →
     ids_of nodes !! j = Some b → Js.same_value_zero a b = false) →
  ∃ out s', compile C config s = (Done out, s') ∧
            fst <$> compiled_nodes out = ids_of nodes.
Proof.
  intros Hreg Hv Hnodes Hkinds Hret Hdist.
  destruct (validateConfig_inv _ Hv)
    as (n & ns & edges & Hnn & Hver & Hen & Hn & He & Hnodes_nn & Hentry & Hedges & _).
  assert (nodes = n :: ns) as -> by congruence.
  apply (well_formed_compiles C config (n :: ns) edges s Hreg Hret).
  unfold well_formed. rewrite Hn, He. simpl iterate.
  repeat (split; [done|]). split; [|done].
  intros x Hx. split; [by apply Hnodes_nn|by apply Hkinds].
Qed.

Lemma distinct_includes l : ∀ seen v,
  includes seen v = false → includes (distinct seen l) v = includes l v.
Proof.
  unfold includes. induction l as [|x l IH]; intros seen v Hseen; [done|].
  cbn [distinct]. destruct (existsb (λ y, Js.same_value_zero y x) seen) eqn:Hx.
  - rewrite IH by done. simpl.
    destruct (Js.same_value_zero x v) eqn:Hxv; [|done].
    apply same_value_zero_eq in Hxv. subst. congruence.
  - simpl. destruct (Js.same_value_zero x v) eqn:Hxv; [done|]. simpl.
    apply IH. rewrite existsb_app. simpl. by rewrite Hseen, Hxv.
Qed.

Lemma same_index_by_id nodes i j (a b : value) from :
  (∀ i j a b, (i < j)%nat → ids_of nodes !! i = Some a →
     ids_of nodes !! j = Some b → Js.same_value_zero a b = false) →
  nodes !! i = Some a → nodes !! j = Some b →
  Js.same_value_zero (Js.get_own a "id") from = true →
  Js.same_value_zero (Js.get_own b "id") from = true →
  i = j.
Proof.
  intros Hdist Ha Hb Hia Hib.
  pose proof (same_value_zero_eq _ _ Hia) as Ea.
  pose proof (same_value_zero_eq _ _ Hib) as Eb.
  assert (Hla : ids_of nodes !! i = Some from)
    by (unfold ids_of; by rewrite list_lookup_fmap, Ha, <- Ea).
  assert (Hlb : ids_of nodes !! j = Some from)
    by (unfold ids_of; by rewrite list_lookup_fmap, Hb, <- Eb).
  rewrite Ea in Hia.
  destruct (Nat.lt_trichotomy i j) as [Hlt|[->|Hlt]]; [|done|].
  - by rewrite (Hdist i j from from Hlt Hla Hlb) in Hia.
  - by rewrite (Hdist j i from from Hlt Hlb Hla) in Hia.
Qed.

Lemma includes_inv l v : includes l v = true → v ∈ l.
Proof.
  unfold includes. intros Hin. apply existsb_exists in Hin as (x & Hx & Hsame).
  apply same_value_zero_eq in Hsame as <-. by apply list_elem_of_In.
Qed.

(** The labels [validateEdgeRouting] collects for a node. *)
Lemma actions_of_members node acts l :
  actions_of node = Done acts →
  includes acts (VStr "default") = true ∧
  (includes acts l = true →
   l = VStr "default" ∨
   l = Js.opt_get (Js.get_own node "post") "next" ∨
   (Js.get_own node "kind" = VStr "router" ∧
    ∃ cases case_,
      iterate (Js.opt_get (Js.get_own node "exec") "cases") = Done cases ∧
      case_ ∈ cases ∧ l = Js.get_own case_ "label")).
Proof.
  unfold actions_of. intros Hacts.
  destruct (Js.get node "post") as [post| | |] eqn:Hpost; try done.
  apply get_Done in Hpost as ->. cbn [obind] in Hacts.
  set (next := Js.opt_get (Js.get_own node "post") "next") in *.
  assert (Hbase : ∀ v, v ∈ (if Js.truthy next then [VStr "default"; next]
                           else [VStr "default"]) →
                       v = VStr "default" ∨ v = next).
  { intros v. destruct (Js.truthy next).
    - intros [->|[->|[]%elem_of_nil]%elem_of_cons]%elem_of_cons; eauto.
    - intros [->|[]%elem_of_nil]%elem_of_cons; eauto. }
  destruct (_ && _ && _)%bool eqn:Hrouter.
  - apply andb_true_iff in Hrouter as [Hrouter _].
    apply andb_true_iff in Hrouter as [Hkind _].
    apply same_value_zero_eq in Hkind.
    destruct (iterate _) as [cs| | |] eqn:Hcs; try done. cbn [obind] in Hacts.
    destruct (all_values _ cs) as [labels| | |] eqn:Hlabels; try done.
    cbn [obind] in Hacts. injection Hacts as <-.
    split; [by destruct (Js.truthy next)|].
    intros Hin%includes_inv. apply elem_of_app in Hin as [Hin|Hin].
    + destruct (Hbase _ Hin); eauto.
    + right. right. split; [done|].
      apply list_elem_of_In, filter_In in Hin as [Hin _].
      apply list_elem_of_In, list_elem_of_lookup in Hin as [i Hi].
      apply all_values_spec in Hlabels.
      destruct (Forall2_lookup_r _ _ _ _ _ Hlabels Hi) as (case_ & Hcase & Hget).
      apply get_Done in Hget. exists cs, case_.
      split; [done|]. split; [by eapply list_elem_of_lookup_2|done].
  - injection Hacts as <-. split; [by destruct (Js.truthy next)|].
    intros Hin%includes_inv. destruct (Hbase _ Hin); eauto.
Qed.


End ValidatorFacts.

(** ** Factories that return *)

Section FactoriesReturn.
Context {W : Type}.
Variable H : host.
Variable env_llm : option (value → M (@env W) value).
Variable env_globals : value.
Variable global_fetch : value → value → M (@env W) response.

Lemma new_object_returns c max w (s : @state W) :
  ∃ r s1 nd, new_object c max w s = (Done r, s1) ∧ nodes s1 !! r = Some nd.
Proof.
  unfold new_object, alloc_table, alloc_node, bind, with_nodes, with_tables. simpl.
  eexists _, _, _. split; [reflexivity|]. simpl. apply lookup_insert_eq.
Qed.

Lemma new_with_retry_returns c cfg (s : @state W) max w :
  nullish cfg = false → retry_max cfg = Done max → retry_wait cfg = Done w →
  ∃ r s1 nd, new_with_retry c cfg s = (Done r, s1) ∧ nodes s1 !! r = Some nd.
Proof.
  intros Hnn Hmax Hw. unfold new_with_retry, retry_max, retry_wait in *.
  rewrite (get_not_nullish _ _ Hnn). erewrite bind_Done by reflexivity.
  rewrite Hmax. erewrite bind_Done by reflexivity.
  rewrite Hw. erewrite bind_Done by reflexivity.
  apply new_object_returns.
Qed.

Lemma then_write_returns (f : M (@state W) ref) g s :
  (∃ r s1 nd, f s = (Done r, s1) ∧ nodes s1 !! r = Some nd) →
  ∃ r s1, (let! node := f in write node g;; ret node) s = (Done r, s1).
Proof.
  intros (r & s1 & nd & Hf & Hnd).
  erewrite bind_Done by exact Hf.
  erewrite bind_Done by (by apply write_Some). by eexists _, _.
Qed.

(** The factories of the default registry return for every node spec
    whose retry policy, if it has one, is numeric. *)
Lemma default_registry_returns kind factory cfg (s : @state W) max w :
  default_registry H env_llm env_globals global_fetch !! kind = Some factory →
  nullish cfg = false → retry_max cfg = Done max → retry_wait cfg = Done w →
  ∃ r s1, factory cfg s = (Done r, s1).
Proof.
  unfold default_registry. intros Hk Hnn Hmax Hw.
  apply elem_of_list_to_map_2 in Hk.
  repeat (apply elem_of_cons in Hk; destruct Hk as [Heq|Hk];
          [inversion Heq; subst; clear Heq|]);
    [..|by apply elem_of_nil in Hk];
    first [ apply then_write_returns;
            first [by eapply new_with_retry_returns | apply new_object_returns]
          | by edestruct (new_with_retry_returns) as (r & s1 & nd & Hr & _);
              [exact Hnn|exact Hmax|exact Hw|eexists _, _; exact Hr] ].
Qed.

End FactoriesReturn.

(** ** Batch flows *)

Section BatchFlowFacts.
Context {W : Type}.
Implicit Types (s : @state W) (nd fl : @node W) (this : ref).

Lemma assoc_set_fold_lookup (fb : list (string * value)) : ∀ fa k,
  NoDup (fst <$> fb) →
  Js.assoc_get k (fold_left (λ acc kv, Js.assoc_set kv.1 kv.2 acc) fb fa)
    = match Js.assoc_get k fb with
      | Some v => Some v
      | None => Js.assoc_get k fa
      end.
Proof.
  induction fb as [|[k' v'] fb IH]; intros fa k Hnd; [done|].
  apply NoDup_cons in Hnd as [Hk' Hnd]. cbn [fold_left fst snd Js.assoc_get].
  rewrite IH by done.
  destruct (String.eqb_spec k k') as [->|Hne].
  - rewrite assoc_get_set_eq.
    destruct (Js.assoc_get k' fb) as [v|] eqn:Hget; [|done].
    exfalso. apply Hk'. clear -Hget.
    induction fb as [|[k0 v0] fb IH]; [done|]. simpl in *.
    destruct (String.eqb_spec k' k0) as [->|?]; [left|right; by apply IH].
  - by rewrite assoc_get_set_ne.
Qed.

Lemma keeps_batch_loop N0 T0 fuel this : ∀ pr,
  keeps (W:=W) N0 T0 (batch_loop fuel this pr) (λ _, True).
Proof.
  induction pr as [|bp rest IH]; simpl; [by apply keeps_ret|].
  eapply keeps_bind; [apply keeps_read|]. intros fl _.
  eapply keeps_bind; [|intros _ _; apply IH].
  apply keeps_orch_with. intros c p Hc. by apply keeps_orch_loop.
Qed.

(** X25.  A batch flow hands [null] to its post stage whatever its runs
    have returned: with the inherited post stage the result of a batch
    flow is [null], and the registered nodes and tables are as before.
    When the prepare stage returns [undefined] or another false value no
    run is made.  In the parameters of a run, a key of the batch element
    overrides the same key of the flow's own parameters. *)
Theorem BatchFlow_result_is_null (fuel : nat) this s fl :
  nodes s !! this = Some fl →
  (∀ r s', BatchFlow_run fuel this s = (Done r, s') →
     post fl = Flow_post →
     r = VNull ∧ unchanged (nodes s) (tables s) s') ∧
  (∀ p σ, prep fl (params fl) (outer s) = (Done p, σ) → Js.truthy p = false →
     BatchFlow_run fuel this s
       = stage (post fl (params fl) (VArr []) VNull)
           {| nodes := nodes s; tables := tables s; outer := σ; log := log s |}) ∧
  (∀ bp k, NoDup (fst <$> fields_of bp) →
     Js.get_own (merge (params fl) bp) k
       = match Js.assoc_get k (fields_of bp) with
         | Some v => v
         | None => Js.get_own (VObj (fields_of (params fl))) k
         end).
Proof.
  intros Hfl. split; [|split].
  - intros r s' Hrun Hpost. unfold BatchFlow_run in Hrun.
    erewrite bind_Done in Hrun by (by apply read_Some).
    pose proof (unchanged_refl s) as Hinv.
    destruct (keeps_stage (nodes s) (tables s) (prep fl (params fl)) s Hinv) as [Hinv1 _].
    unfold bind at 1 in Hrun.
    destruct (stage (prep fl (params fl)) s) as [[p| | |] s1]; try done.
    simpl in Hinv1. unfold bind at 1, of_outcome at 1 in Hrun.
    destruct (iterate (Js.or_else p (VArr []))) as [l| | |]; try done.
    destruct (keeps_batch_loop (nodes s) (tables s) fuel this l s1 Hinv1) as [Hinv2 _].
    unfold bind at 1 in Hrun.
    destruct (batch_loop fuel this l s1) as [[[]| | |] s2]; try done.
    simpl in Hinv2.
    destruct Hinv2 as [Hnodes Htables].
    erewrite bind_Done in Hrun by (apply read_Some; by apply Hnodes).
    rewrite Hpost in Hrun. unfold Flow_post, stage, ret in Hrun.
    injection Hrun as <- <-. split; [done|]. by split.
  - intros p σ Hprep Hfalsy. unfold BatchFlow_run.
    erewrite bind_Done by (by apply read_Some).
    erewrite bind_Done by (unfold stage; by rewrite Hprep).
    unfold Js.or_else. rewrite Hfalsy. cbn [iterate].
    erewrite bind_Done by reflexivity. cbn [batch_loop].
    erewrite bind_Done by reflexivity.
    by erewrite bind_Done by (by apply read_Some).
  - intros bp k Hnd. unfold merge. cbn [Js.get_own].
    rewrite assoc_set_fold_lookup by done.
    by destruct (Js.assoc_get k (fields_of bp)).
Qed.

End BatchFlowFacts.

Section AsyncFacts.
Context {W : Type}.
Implicit Types (a : @astate W) (nd : @node W) (this : ref) (st : @async_stages W).

Lemma lift_Done {A} (m : M (@state W) A) a x s' :
  m (sync a) = (Done x, s') →
  lift m a = (Done x, {| sync := s'; stages_of := stages_of a |}).
Proof. unfold lift. by intros ->. Qed.

Lemma read_stages_Some this nd a :
  nodes (sync a) !! this = Some nd →
  read_stages this a = (Done (stages_at a this nd), a).
Proof. unfold read_stages. by intros ->. Qed.

Lemma async_retry_loop_exhausts e n : ∀ fuel this p a nd,
  nodes (sync a) !! this = Some nd →
  (∀ σ, execAsync (stages_at a this nd) (params nd) p σ = (Throw e, σ)) →
  curRetry nd + Z.of_nat n + 1 = maxRetries nd →
  (n < fuel)%nat →
  async_retry_loop fuel this p a =
    lift (stage (execFallbackAsync (stages_at a this nd) (params nd) p e))
      {| sync := {| nodes := <[this := set_curRetry (maxRetries nd - 1) nd]> (nodes (sync a));
                    tables := tables (sync a); outer := outer (sync a);
                    log := log (sync a) ++ failing_trace p (wait nd) (replicate (S n) e) |};
         stages_of := stages_of a |}.
Proof.
  induction n as [|n IH]; intros fuel this p a nd Hnd Hthrow Hcur Hfuel.
  - destruct fuel as [|fuel]; [lia|]. cbn [async_retry_loop].
    erewrite bind_Done by (apply lift_Done; by apply read_Some).
    replace (curRetry nd <? maxRetries nd) with true by (symmetry; apply Z.ltb_lt; lia).
    erewrite bind_Done by (by apply read_stages_Some).
    unfold emit, modify, bind at 1, try_catch, lift at 1 2, stage at 1. simpl.
    rewrite Hthrow.
    erewrite bind_Done by (apply lift_Done; by apply read_Some).
    replace (curRetry nd =? maxRetries nd - 1) with true by (symmetry; apply Z.eqb_eq; lia).
    erewrite bind_Done by (by apply read_stages_Some).
    unfold bind, lift, stage. simpl.
    replace (maxRetries nd - 1) with (curRetry nd) by lia.
    rewrite set_curRetry_same, (insert_id _ _ _ Hnd), <- app_assoc. done.
  - destruct fuel as [|fuel]; [lia|].
    set (a1 := {| sync := {| nodes := <[this := set_curRetry (curRetry nd + 1) nd]> (nodes (sync a));
                  tables := tables (sync a); outer := outer (sync a);
                  log := log (sync a) ++ EvExec p :: (if 0 <? wait nd then [EvSleep (wait nd * 1000)] else []) |};
                  stages_of := stages_of a |}).
    specialize (IH fuel this p a1 (set_curRetry (curRetry nd + 1) nd)).
    cbn [async_retry_loop].
    erewrite bind_Done by (apply lift_Done; by apply read_Some).
    replace (curRetry nd <? maxRetries nd) with true by (symmetry; apply Z.ltb_lt; lia).
    erewrite bind_Done by (by apply read_stages_Some).
    unfold emit, modify, bind at 1, try_catch, lift at 1 2, stage at 1. simpl.
    rewrite Hthrow.
    erewrite bind_Done by (apply lift_Done; by apply read_Some).
    replace (curRetry nd =? maxRetries nd - 1) with false by (symmetry; apply Z.eqb_neq; lia).
    assert (Hstep :
      ((if 0 <? wait nd then lift (emit (EvSleep (wait nd * 1000))) else ret ());;
       lift (write this (set_curRetry (curRetry nd + 1)));;
       async_retry_loop fuel this p)
        {| sync := {| nodes := nodes (sync a); tables := tables (sync a);
                      outer := outer (sync a); log := log (sync a) ++ [EvExec p] |};
           stages_of := stages_of a |} = async_retry_loop fuel this p a1).
    { unfold a1. destruct (0 <? wait nd); unfold emit, modify, ret, bind at 1, lift at 1; simpl;
        (erewrite bind_Done by (apply lift_Done; by apply write_Some));
        unfold with_nodes; simpl; rewrite <- ?app_assoc; done. }
    etrans; [exact Hstep|].
    rewrite IH; [|by apply lookup_insert_eq|done|simpl; lia|lia].
    unfold a1. simpl. rewrite insert_insert_eq, <- app_assoc.
    by destruct n.
Qed.

(** [AsyncNode._exec] on an object whose [execAsync] rejects with [e]:
    [maxRetries] attempts, then the fallback. *)
Lemma AsyncNode_exec_exhausts e this p a nd :
  nodes (sync a) !! this = Some nd →
  1 ≤ maxRetries nd →
  (∀ σ, execAsync (stages_at a this nd) (params nd) p σ = (Throw e, σ)) →
  AsyncNode_exec this p a =
    lift (stage (execFallbackAsync (stages_at a this nd) (params nd) p e))
      {| sync := {| nodes := <[this := set_curRetry (maxRetries nd - 1) nd]> (nodes (sync a));
                    tables := tables (sync a); outer := outer (sync a);
                    log := log (sync a)
                           ++ failing_trace p (wait nd)
                                (replicate (Z.to_nat (maxRetries nd)) e) |};
         stages_of := stages_of a |}.
Proof.
  intros Hnd Hmax Hthrow. unfold AsyncNode_exec.
  erewrite bind_Done by (apply lift_Done; by apply write_Some).
  erewrite bind_Done by (apply lift_Done, read_Some; apply lookup_insert_eq).
  cbn [maxRetries set_curRetry].
  rewrite (async_retry_loop_exhausts e (Z.to_nat (maxRetries nd) - 1) _ this p _
             (set_curRetry 0 nd));
    [|apply lookup_insert_eq|exact Hthrow|cbn; lia|cbn; lia].
  unfold stages_at, with_nodes.
  cbn [maxRetries set_curRetry params wait class sync stages_of nodes tables outer log].
  rewrite insert_insert_eq.
  by replace (S (Z.to_nat (maxRetries nd) - 1)) with (Z.to_nat (maxRetries nd)) by lia.
Qed.

Section Sequential.
Variables (this : ref) (nd : @node W) (sto : option (@async_stages W)).
Variables (err : value → error).
Let stc := default (class_stages (class nd)) sto.
Hypothesis Hmax : 1 ≤ maxRetries nd.
Hypothesis Hexec : ∀ item σ, execAsync stc (params nd) item σ = (Throw (err item), σ).

Lemma async_each_all (fb : value → value) : ∀ items a c,
  nodes (sync a) !! this = Some (set_curRetry c nd) →
  stages_of a !! this = sto →
  (∀ item σ, item ∈ items →
     execFallbackAsync stc (params nd) item (err item) σ = (Done (fb item), σ)) →
  ∃ a', async_each this items a = (Done (fb <$> items), a') ∧
        log (sync a') = log (sync a)
          ++ failing_batch_trace (wait nd) (Z.to_nat (maxRetries nd)) err items ∧
        outer (sync a') = outer (sync a) ∧
        tables (sync a') = tables (sync a) ∧
        stages_of a' = stages_of a ∧
        ∃ c', nodes (sync a') = <[this := set_curRetry c' nd]> (nodes (sync a)).
Proof.
  induction items as [|item rest IH]; intros a c Hnd Hsto Hfb.
  - exists a. cbn. unfold failing_batch_trace. cbn. rewrite app_nil_r.
    repeat split; try done. exists c. by rewrite insert_id.
  - cbn [async_each].
    pose proof (AsyncNode_exec_exhausts (err item) this item a (set_curRetry c nd) Hnd Hmax)
      as Hrun.
    unfold stages_at in Hrun. cbn [class params set_curRetry maxRetries wait] in Hrun.
    rewrite Hsto in Hrun. specialize (Hrun (Hexec item)).
    unfold lift at 1, stage at 1 in Hrun. cbn in Hrun.
    rewrite (Hfb item) in Hrun by left.
    erewrite bind_Done by exact Hrun.
    match type of Hrun with _ = (_, ?a1) =>
      destruct (IH a1 (maxRetries nd - 1))
        as (a' & Hrest & Hlog & Hout & Htab & Hst & c' & Hn);
        [cbn; apply lookup_insert_eq|cbn; exact Hsto|intros; apply Hfb; by right|]
    end.
    exists a'. erewrite bind_Done by exact Hrest. cbn in *.
    split; [done|]. rewrite Hlog, Hout, Htab, Hst. unfold failing_batch_trace. cbn.
    rewrite <- app_assoc. repeat split; try done.
    exists c'. by rewrite Hn, insert_insert_eq.
Qed.

Lemma async_each_stops (fb : value → value) e' item rest : ∀ pre a c,
  nodes (sync a) !! this = Some (set_curRetry c nd) →
  stages_of a !! this = sto →
  (∀ i σ, i ∈ pre →
     execFallbackAsync stc (params nd) i (err i) σ = (Done (fb i), σ)) →
  (∀ σ, execFallbackAsync stc (params nd) item (err item) σ = (Throw e', σ)) →
  ∃ a', async_each this (pre ++ item :: rest) a = (Throw e', a') ∧
        log (sync a') = log (sync a)
          ++ failing_batch_trace (wait nd) (Z.to_nat (maxRetries nd)) err (pre ++ [item]).
Proof.
  induction pre as [|i pre IH]; intros a c Hnd Hsto Hfb Hlast.
  - cbn [app async_each].
    pose proof (AsyncNode_exec_exhausts (err item) this item a (set_curRetry c nd) Hnd Hmax)
      as Hrun.
    unfold stages_at in Hrun. cbn [class params set_curRetry maxRetries wait] in Hrun.
    rewrite Hsto in Hrun. specialize (Hrun (Hexec item)).
    unfold lift at 1, stage at 1 in Hrun. cbn in Hrun. rewrite Hlast in Hrun.
    erewrite bind_Throw by exact Hrun. eexists. split; [done|].
    unfold failing_batch_trace. cbn. by rewrite app_nil_r.
  - cbn [app async_each].
    pose proof (AsyncNode_exec_exhausts (err i) this i a (set_curRetry c nd) Hnd Hmax)
      as Hrun.
    unfold stages_at in Hrun. cbn [class params set_curRetry maxRetries wait] in Hrun.
    rewrite Hsto in Hrun. specialize (Hrun (Hexec i)).
    unfold lift at 1, stage at 1 in Hrun. cbn in Hrun.
    rewrite (Hfb i) in Hrun by left.
    erewrite bind_Done by exact Hrun.
    match type of Hrun with _ = (_, ?a1) =>
      destruct (IH a1 (maxRetries nd - 1)) as (a' & Hrest & Hlog);
        [cbn; apply lookup_insert_eq|cbn; exact Hsto|intros; apply Hfb; by right|done|]
    end.
    exists a'. erewrite bind_Throw by exact Hrest. split; [done|].
    rewrite Hlog. unfold failing_batch_trace. cbn. by rewrite <- app_assoc.
Qed.

End Sequential.

Lemma count_app (f : event → bool) (l1 l2 : list event) :
  count f (l1 ++ l2) = (count f l1 + count f l2)%nat.
Proof. unfold count. by rewrite List.filter_app, length_app. Qed.

Lemma failing_batch_trace_counts w k (err : value → error) (items : list value) :
  (0 < k)%nat →
  count is_exec (failing_batch_trace w k err items) = (length items * k)%nat ∧
  count is_fallback (failing_batch_trace w k err items) = length items.
Proof.
  intros Hk. unfold failing_batch_trace.
  induction items as [|item rest [IH1 IH2]]; [done|].
  cbn [fmap list_fmap concat length]. rewrite !count_app, IH1, IH2.
  destruct (failing_trace_counts item w (replicate k (err item))) as (H1 & H2 & _).
  { destruct k; [lia|done]. }
  rewrite H1, H2, length_replicate. lia.
Qed.


End AsyncFacts.

Section AsyncFlowFacts.
Context {W : Type}.
Implicit Types (a : @astate W) (nd fl : @node W) (this curr st : ref).

(** X27.  In the loop of an asynchronous flow only an asynchronous node
    is run through [_runAsync]; a flow object, an asynchronous flow
    included, is run by [Flow._run], which runs its graph with [_run].
    So a nested flow whose start node is an asynchronous node rejects the
    run with the error of [AsyncNode._run], after its own [prep] and
    after the start node has been copied. *)
Theorem nested_flow_rejects_async_start (fuel : nat) curr p a fl st nd p0 σ :
  nodes (sync a) !! curr = Some fl →
  instanceof_Flow (class fl) = true →
  startNode fl = Some st →
  nodes (sync a) !! st = Some nd →
  instanceof_AsyncNode (class nd) = true →
  prep fl p (outer (sync a)) = (Done p0, σ) →
  ∃ a', orchAsync_loop (S (S fuel)) curr p a = (Throw (JsError "Use runAsync."), a') ∧
        outer (sync a') = σ ∧
        log (sync a') = log (sync a) ++ [EvVisit st] ∧
        stages_of a' = stages_of a.
Proof.
  intros Hfl Hflow Hstart Hnd Hasync Hprep.
  assert (Hne : st ≠ curr).
  { intros ->. rewrite Hfl in Hnd. injection Hnd as <-.
    destruct (class fl); discriminate. }
  assert (Hrun : ∃ s',
    (let! p1 := stage (prep fl p) in
     let! e := _orch (S fuel) curr VNull in
     let! nd1 := read curr in
     stage (post nd1 (params nd1) p1 e))
      (with_nodes <[curr := set_params p fl]> (sync a))
    = (Throw (JsError "Use runAsync."), s') ∧
    outer s' = σ ∧ log s' = log (sync a) ++ [EvVisit st]).
  { eexists. split.
    - erewrite bind_Done by (unfold stage, with_nodes; cbn; by rewrite Hprep).
      erewrite bind_Throw; [reflexivity|].
      unfold _orch, _orch_with.
      erewrite bind_Done by (apply read_Some; apply lookup_insert_eq).
      cbn [startNode set_params]. rewrite Hstart.
      erewrite bind_Done.
      2:{ unfold clone. erewrite bind_Done
            by (apply read_Some; cbn; rewrite lookup_insert_ne by done; exact Hnd).
          reflexivity. }
      unfold emit, modify. erewrite bind_Done by reflexivity.
      cbn [Js.truthy params set_params orch_loop].
      erewrite bind_Done
        by (unfold setParams; apply write_Some; cbn; apply lookup_insert_eq).
      erewrite bind_Throw; [reflexivity|].
      unfold _run_with.
      erewrite bind_Done by (apply read_Some; cbn; apply lookup_insert_eq).
      cbn [class set_params].
      destruct (class nd); try discriminate; reflexivity.
    - cbn. done. }
  destruct Hrun as (s' & Hrun & Hout & Hlog).
  exists {| sync := s'; stages_of := stages_of a |}.
  split; [|done].
  cbn [orchAsync_loop].
  erewrite bind_Done by (apply lift_Done; unfold setParams; by apply write_Some).
  erewrite bind_Done by (apply lift_Done, read_Some; apply lookup_insert_eq).
  cbn [class set_params].
  replace (instanceof_AsyncNode (class fl)) with false by (by destruct (class fl)).
  erewrite bind_Throw; [reflexivity|].
  unfold lift. cbn [sync stages_of].
  unfold _run, _run_with.
  erewrite bind_Done by (apply read_Some; apply lookup_insert_eq).
  cbn [class set_params params prep].
  destruct (class fl); try discriminate; rewrite Hrun; reflexivity.
Qed.

End AsyncFlowFacts.

Section AsyncFlowOfSync.
Context {W : Type}.
Implicit Types (nd fl : @node W) (this curr st : ref).

Section SyncInAsync.
Implicit Types (a : @astate W).
Variables (N0 : gmap ref (@node W)) (T0 : gmap ref (gmap string ref)) (a0 : @astate W).
Hypothesis Hsync : ∀ r nd, N0 !! r = Some nd → instanceof_AsyncNode (class nd) = false.
Hypothesis Hclosed : ∀ t tab k r, T0 !! t = Some tab → tab !! k = Some r → is_Some (N0 !! r).

Lemma agrees_bind {A B} (ma : M (@astate W) A) (ka : A → M (@astate W) B)
    (ms : M (@state W) A) (ks : A → M (@state W) B) a :
  agrees N0 a0 (ma a) (ms (sync a)) →
  (∀ x a', ma a = (Done x, a') → ms (sync a) = (Done x, sync a') →
     (∀ r, is_Some (N0 !! r) → stages_of a' !! r = stages_of a0 !! r) →
     agrees N0 a0 (ka x a') (ks x (sync a'))) →
  agrees N0 a0 (bind ma ka a) (bind ms ks (sync a)).
Proof.
  unfold agrees, bind. intros (Hr & Hs & Hk) Hcont.
  destruct (ma a) as [r a'], (ms (sync a)) as [r' s']. simpl in *. subst r' s'.
  destruct r as [x| | |]; try done. by apply Hcont.
Qed.

Lemma agrees_lift {A} (m : M (@state W) A) a :
  (∀ r, is_Some (N0 !! r) → stages_of a !! r = stages_of a0 !! r) →
  agrees N0 a0 (lift m a) (m (sync a)).
Proof. unfold agrees, lift. intros Hk. by destruct (m (sync a)). Qed.

Lemma lift_inv {A} (m : M (@state W) A) a r a' :
  lift m a = (r, a') → m (sync a) = (r, sync a') ∧ stages_of a' = stages_of a.
Proof.
  unfold lift. destruct (m (sync a)) as [r1 s1]. intros [= <- <-]. done.
Qed.

Lemma clone_inv r s c s' :
  clone r s = (Done c, s') →
  ∃ nd, nodes s !! r = Some nd ∧ c = fresh (dom (nodes s)) ∧
        s' = with_nodes <[c := nd]> s.
Proof.
  unfold clone, bind, read. destruct (nodes s !! r) as [nd|]; [|done].
  unfold alloc_node. intros [= <- <-]. by exists nd.
Qed.

Lemma agrees_aclone r a :
  unchanged N0 T0 (sync a) →
  (∀ x, is_Some (N0 !! x) → stages_of a !! x = stages_of a0 !! x) →
  agrees N0 a0 (aclone r a) (clone r (sync a)).
Proof.
  intros [Hn _] Hk. unfold aclone, agrees, bind, lift, modify, ret.
  destruct (clone r (sync a)) as [[c| | |] s'] eqn:Hc; cbn; try done.
  split; [done|]. split; [done|].
  apply clone_inv in Hc as (nd & _ & -> & _).
  intros x Hx. rewrite <- Hk by done.
  destruct (stages_of a !! r); [|done].
  apply lookup_insert_ne. intros <-. destruct Hx as [ndx Hx]. apply Hn in Hx.
  eapply (is_fresh (dom (nodes (sync a)))). apply elem_of_dom. eauto.
Qed.

Lemma getNextNode_inv curr la (s : @state W) nxt s' :
  getNextNode curr la s = (Done (Successor nxt), s') →
  s' = s ∧ ∃ t tab k, tables s !! t = Some tab ∧ tab !! k = Some nxt.
Proof.
  unfold getNextNode, bind, read, gets, of_outcome.
  destruct (nodes s !! curr) as [nd|]; [|done].
  unfold find_successor.
  destruct (default ∅ (tables s !! successors nd)
              !! Js.to_string (Js.or_else la (VStr "default"))) as [r|] eqn:Hnxt.
  - intros [= -> <-]. split; [done|].
    destruct (tables s !! successors nd) as [tab|] eqn:Ht; [|done].
    by exists (successors nd), tab, (Js.to_string (Js.or_else la (VStr "default"))).
  - destruct (default ∅ (tables s !! successors nd) !! "__proto__"); [done|].
    by destruct (Js.inherited _).
Qed.

Lemma getNextNode_state curr la (s : @state W) x s' :
  getNextNode curr la s = (Done x, s') → s' = s.
Proof.
  unfold getNextNode, bind, read, gets, of_outcome.
  destruct (nodes s !! curr) as [nd|]; [|done].
  destruct (find_successor _ _); try done. by intros [= _ <-].
Qed.

Lemma orchAsync_loop_of_sync fuel : ∀ curr p a ndc,
  unchanged N0 T0 (sync a) →
  (∀ r, is_Some (N0 !! r) → stages_of a !! r = stages_of a0 !! r) →
  N0 !! curr = None →
  nodes (sync a) !! curr = Some ndc →
  instanceof_AsyncNode (class ndc) = false →
  agrees N0 a0 (orchAsync_loop fuel curr p a) (orch_loop fuel curr p (sync a)).
Proof.
  induction fuel as [|fuel IH]; intros curr p a ndc Hinv Hk Hfresh Hcurr Hcls.
  { by cbn. }
  cbn [orchAsync_loop orch_loop].
  apply agrees_bind; [by apply agrees_lift|].
  intros [] a1 H1 H1s Hk1.
  assert (Hinv1 : unchanged N0 T0 (sync a1)).
  { pose proof (keeps_write N0 T0 curr (set_params p) Hfresh (sync a) Hinv) as [Hu _].
    unfold setParams in H1s. by rewrite H1s in Hu. }
  assert (Hcurr1 : nodes (sync a1) !! curr = Some (set_params p ndc)).
  { unfold setParams in H1s. rewrite (write_Some _ _ _ _ Hcurr) in H1s.
    injection H1s as <-. apply lookup_insert_eq. }
  erewrite bind_Done by (apply lift_Done, read_Some; exact Hcurr1).
  replace {| sync := sync a1; stages_of := stages_of a1 |} with a1 by (by destruct a1).
  cbn [class set_params]. rewrite Hcls.
  change (_run fuel curr) with (_run_with (W:=W) (_orch_with (orch_loop fuel)) curr).
  apply agrees_bind; [by apply agrees_lift|].
  intros la a2 H2 H2s Hk2.
  assert (Hinv2 : unchanged N0 T0 (sync a2)).
  { assert (Hkeeps : keeps N0 T0 (_run_with (_orch_with (orch_loop fuel)) curr) (λ _, True)).
    { apply keeps_run_with; [|by left].
      intros t v. apply keeps_orch_with. intros c q Hc. by apply keeps_orch_loop. }
    destruct (Hkeeps (sync a1) Hinv1) as [Hu _]. by rewrite H2s in Hu. }
  apply agrees_bind; [by apply agrees_lift|].
  intros [|nxt|] a3 H3 H3s Hk3; [done| |].
  2:{ apply getNextNode_state in H3s. unfold agrees, throw. cbn. by rewrite H3s. }
  apply getNextNode_inv in H3s as (Heq & t & tab & k & Ht & Hnxt).
  assert (Hinv3 : unchanged N0 T0 (sync a3)) by (by rewrite Heq).
  assert (Hreg : is_Some (N0 !! nxt)).
  { destruct Hinv2 as [_ Htab]. rewrite Htab in Ht. by eapply Hclosed. }
  destruct Hreg as [ndn Hndn].
  apply agrees_bind; [by apply agrees_aclone|].
  intros c a4 H4 H4s Hk4.
  apply clone_inv in H4s as (ndn' & Hlook & Hc & Hs4).
  assert (ndn' = ndn) as ->.
  { destruct Hinv3 as [Hn _]. apply Hn in Hndn. congruence. }
  assert (Hinv4 : unchanged N0 T0 (sync a4) ∧ N0 !! c = None).
  { pose proof (keeps_clone N0 T0 nxt (sync a3) Hinv3) as [Hu Hq].
    unfold clone in Hu, Hq. erewrite bind_Done in Hu, Hq by (by apply read_Some).
    unfold alloc_node in Hu, Hq. cbn in Hu, Hq. rewrite Hs4, Hc. split; [exact Hu|].
    by apply Hq. }
  destruct Hinv4 as [Hinv4 Hc4].
  apply agrees_bind; [by apply agrees_lift|].
  intros [] a5 H5 H5s Hk5.
  unfold emit, modify in H5s. injection H5s as H5s.
  apply (IH c p a5 ndn).
  - rewrite <- H5s. destruct Hinv4 as [Hn Htab]. by split.
  - done.
  - done.
  - rewrite <- H5s, Hs4. cbn. apply lookup_insert_eq.
  - by eapply Hsync.
Qed.

Lemma orchAsync_of_sync fuel this pa a :
  nodes (sync a) = N0 → tables (sync a) = T0 →
  (∀ r, is_Some (N0 !! r) → stages_of a !! r = stages_of a0 !! r) →
  agrees N0 a0 (_orchAsync fuel this pa a) (_orch fuel this pa (sync a)).
Proof.
  intros Hn Ht Hk.
  assert (Hinv : unchanged N0 T0 (sync a)).
  { split; [|done]. intros x nd Hx. by rewrite Hn. }
  unfold _orchAsync, _orch, _orch_with.
  apply agrees_bind; [by apply agrees_lift|].
  intros fl a1 H1 H1s Hk1.
  assert (sync a1 = sync a) as Hs1.
  { unfold read in H1s. destruct (nodes (sync a) !! this); [|done]. by injection H1s. }
  destruct (startNode fl) as [st|]; [|done].
  apply agrees_bind; [apply agrees_aclone; [by rewrite Hs1|done]|].
  intros c a2 H2 H2s Hk2.
  apply clone_inv in H2s as (ndst & Hlook & Hc & Hs2).
  rewrite Hs1 in Hlook, Hc, Hs2.
  assert (Hinv2 : unchanged N0 T0 (sync a2) ∧ N0 !! c = None).
  { pose proof (keeps_clone N0 T0 st (sync a) Hinv) as [Hu Hq].
    unfold clone in Hu, Hq. erewrite bind_Done in Hu, Hq by (by apply read_Some).
    unfold alloc_node in Hu, Hq. cbn in Hu, Hq. rewrite Hs2, Hc. split; [exact Hu|].
    by apply Hq. }
  destruct Hinv2 as [Hinv2 Hc2].
  apply agrees_bind; [by apply agrees_lift|].
  intros [] a3 H3 H3s Hk3.
  unfold emit, modify in H3s. injection H3s as H3s.
  apply (orchAsync_loop_of_sync fuel c _ a3 ndst).
  - rewrite <- H3s. destruct Hinv2 as [Hnodes Htab]. by split.
  - done.
  - done.
  - rewrite <- H3s, Hs2. cbn. apply lookup_insert_eq.
  - apply (Hsync st). by rewrite <- Hn.
Qed.

End SyncInAsync.

(** X28.  An asynchronous flow whose objects are all synchronous goes
    through its graph as a flow does: [_orchAsync] gives what [_orch]
    gives and leaves the same store.  With the inherited hooks,
    [runAsync] on such a flow gives what [run] gives on it. *)
Theorem AsyncFlow_of_sync_nodes_runs_as_Flow (fuel : nat) this
    (a : @astate W) :
  (∀ r nd, nodes (sync a) !! r = Some nd → instanceof_AsyncNode (class nd) = false) →
  (∀ t tab k r, tables (sync a) !! t = Some tab → tab !! k = Some r →
     is_Some (nodes (sync a) !! r)) →
  (∀ pa, (_orchAsync fuel this pa a).1 = (_orch fuel this pa (sync a)).1 ∧
         sync (_orchAsync fuel this pa a).2 = (_orch fuel this pa (sync a)).2) ∧
  (∀ fl, nodes (sync a) !! this = Some fl →
     class fl = CAsyncFlow →
     stages_of a !! this = None →
     prep fl = default_prep → post fl = Flow_post →
     (runAsync fuel this a).1 = (run fuel this (sync a)).1 ∧
     sync (runAsync fuel this a).2 = (run fuel this (sync a)).2).
Proof.
  intros Hsync Hclosed.
  pose proof (orchAsync_of_sync (nodes (sync a)) (tables (sync a)) a Hsync Hclosed fuel this)
    as Horch.
  split.
  - intros pa. destruct (Horch pa a) as (H1 & H2 & _); done.
  - intros fl Hfl Hcls Hnone Hprep Hpost.
    cut (agrees (nodes (sync a)) a (runAsync fuel this a) (run fuel this (sync a))).
    { intros (H1 & H2 & _). done. }
    unfold runAsync.
    erewrite bind_Done by (apply lift_Done, read_Some; exact Hfl).
    replace {| sync := sync a; stages_of := stages_of a |} with a by (by destruct a).
    rewrite Hcls. unfold AsyncFlow_runAsync, run, _run, _run_with.
    erewrite (bind_Done (lift (read this))) by (apply lift_Done, read_Some; exact Hfl).
    replace {| sync := sync a; stages_of := stages_of a |} with a by (by destruct a).
    erewrite (bind_Done (read_stages this)) by (by apply read_stages_Some).
    erewrite (bind_Done (read this)) by (by apply read_Some).
    rewrite Hcls. unfold stages_at at 1. rewrite Hnone, Hprep.
    cbn [default class_stages prepAsync]. unfold default_prep.
    apply agrees_bind; [by apply agrees_lift|].
    intros p1 a1 H1 H1s Hk1.
    unfold stage, ret in H1s. injection H1s as _ H1s.
    apply agrees_bind.
    { apply Horch; [by rewrite <- H1s|by rewrite <- H1s|done]. }
    intros e a2 H2 H2s Hk2.
    assert (Hlook : nodes (sync a2) !! this = Some fl).
    { assert (Hkeeps : keeps (nodes (sync a)) (tables (sync a))
                         (_orch fuel this VNull) (λ _, True)).
      { apply keeps_orch_with. intros c q Hc. by apply keeps_orch_loop. }
      destruct (Hkeeps (sync a1)) as [[Hn _] _].
      { rewrite <- H1s. split; [by intros x ndx Hx|done]. }
      rewrite H2s in Hn. by apply Hn. }
    erewrite bind_Done by (apply lift_Done, read_Some; exact Hlook).
    replace {| sync := sync a2; stages_of := stages_of a2 |} with a2 by (by destruct a2).
    erewrite (bind_Done (read_stages this)) by (by apply read_stages_Some).
    erewrite (bind_Done (read this)) by (by apply read_Some).
    unfold stages_at. rewrite Hk2 by done. rewrite Hnone, Hpost, Hcls.
    cbn [default class_stages postAsync instanceof_Flow]. unfold Flow_post.
    by apply agrees_lift.
Qed.

End AsyncFlowOfSync.

Section CompiledBatch.
Context {W : Type}.
Implicit Types (s : @state W) (nd : @node W) (r : ref).
Variable H : host.

Lemma exec_each_identity (items : list value) (σ : @env W) :
  exec_each (λ item, ret item) items σ = (Some items, σ).
Proof.
  induction items as [|item rest IH]; [done|]. cbn [exec_each]. unfold ret at 1.
  by rewrite IH.
Qed.

(** X29.  A batch node of the compiler, with [retry.max] absent or at
    least 1 and without outputs to save, run on a shared context that is a
    plain object: it takes its collection from the shared context, under
    the path of its first input or under "items" (a string that names no
    member of [Object.prototype]), and its execute stage returns each
    element as it is.  The lifecycle calls the stage once per element of
    an array, in order, and the post stage stores the array of the
    elements under [_lastResult]; a missing or false collection counts as
    an empty array.  A collection that is neither an array nor an object
    makes the lifecycle fail before any call. *)
Theorem batch_node_copies_collection cfg s r s1 (fuel : nat) max fs :
  createBatchNode H cfg s = (Done r, s1) →
  retry_max cfg = Done max →
  1 ≤ max →
  shared (outer s1) = VObj fs →
  is_label (Js.opt_get (Js.opt_get (Js.opt_get (Js.get_own cfg "prep") "inputs") "0")
              "path") = true →
  Js.inherited (batch_key cfg) = false →
  Js.truthy (Js.opt_get (Js.opt_get (Js.get_own cfg "post") "outputs") "save") = false →
  let found := Js.or_else (Js.get_own (VObj fs) (batch_key cfg)) (VArr []) in
  (∀ items, found = VArr items →
     ∃ s2, _run fuel r s1 = (Done (next_label cfg), s2) ∧
           shared (outer s2) = VObj (Js.assoc_set "_lastResult" (VArr items) fs) ∧
           world (outer s2) = world (outer s1) ∧ tables s2 = tables s1 ∧
           log s2 = log s1 ++ (EvExec <$> items)) ∧
  (∀ e, (∀ fs', found ≠ VObj fs') → items_of found = Throw e →
     _run fuel r s1 = (Throw e, s1)).
Proof.
  intros Hcreate Hmax Hpos Hfs _ _ Hnone found.
  assert (Hsh : nullish (shared (outer s1)) = false) by (by rewrite Hfs).
  destruct (factory_node _ _ _ _ _ _ _ _ _ _ Hcreate Hmax)
    as (nd & Hnd & Hc & Hm & Hp & Hfb & Hprep & Hexec & _ & Hpost & _ & _).
  assert (Hprep' : stage (prep nd (params nd)) s1
                   = (Done found, {| nodes := nodes s1; tables := tables s1;
                                     outer := outer s1; log := log s1 |})).
  { unfold stage. rewrite Hprep. unfold batch_prep, bind, gets, of_outcome.
    fold (batch_key cfg). rewrite (get_not_nullish _ _ Hsh). cbn. rewrite Hfs.
    by destruct (outer s1). }
  assert (Heta : {| nodes := nodes s1; tables := tables s1;
                    outer := outer s1; log := log s1 |} = s1) by (by destruct s1).
  rewrite Heta in Hprep'.
  split.
  - intros items Hitems.
    assert (Hof : items_of found = Done items).
    { rewrite Hitems. unfold items_of. by destruct (Js.truthy _). }
    destruct (BatchNode_exec_returns r s1 nd found items items (outer s1))
      as [Hrun _]; [done|done|lia|done| |].
    { rewrite Hexec. apply exec_each_identity. }
    eexists. split.
    { unfold _run, _run_with. erewrite bind_Done by (by apply read_Some). rewrite Hc.
      erewrite bind_Done by exact Hprep'.
      erewrite bind_Done by exact Hrun.
      erewrite bind_Done.
      2:{ apply read_Some. cbn [nodes].
          instantiate (1 := match items with [] => nd | _ => set_curRetry 0 nd end).
          destruct items; [done|apply lookup_insert_eq]. }
      replace (post (match items with [] => nd | _ :: _ => set_curRetry 0 nd end))
        with (post nd) by (by destruct items).
      rewrite Hpost.
      unfold saving_post, stage, set_lastResult, save_outputs, bind, gets, of_outcome, set_shared,
        modify, ret. cbn [outer shared]. rewrite Hfs. cbn [Js.set String.eqb Ascii.eqb
        Bool.eqb]. rewrite Hnone. reflexivity. }
    by cbn.
  - intros e _ Hitems.
    unfold _run, _run_with. erewrite bind_Done by (by apply read_Some). rewrite Hc.
    erewrite bind_Done by exact Hprep'.
    erewrite bind_Throw; [reflexivity|].
    unfold _exec. erewrite bind_Done by (by apply read_Some). rewrite Hc.
    unfold BatchNode_exec. rewrite Hitems. reflexivity.
Qed.

End CompiledBatch.

Section CompiledHTTP.
Context {W : Type}.
Implicit Types (s : @state W) (nd : @node W) (r : ref).
Variable H : host.
Variable global_fetch : value → value → M (@env W) response.

Lemma match_GET {A B} (g : A → B) (m : value) (a b : A) :
  g (match m with VStr "GET" => a | _ => b end)
    = match m with VStr "GET" => g a | _ => g b end.
Proof.
  destruct m as [| | | |str| | |]; try reflexivity.
  do 4 (destruct str as [|[[] [] [] [] [] [] [] []] str]; try reflexivity).
Qed.

Lemma http_body_Done request body (σ : @env W) :
  http_body H request = inl body →
  (match Js.get_own request "method" with
   | VStr "GET" => ret VUndef
   | _ => match JSON_stringify H (Js.get_own request "body") with
          | inl v => ret v
          | inr e => throw e
          end
   end) σ = (Done body, σ).
Proof.
  intros Hbody.
  pose proof (match_GET (λ x : value + error,
                match x return M (@env W) value with inl v => ret v | inr e => throw e end)
                (Js.get_own request "method") (inl VUndef)
                (JSON_stringify H (Js.get_own request "body"))) as Hm.
  cbv beta in Hm. rewrite <- Hm. fold (http_body H request). by rewrite Hbody.
Qed.


End CompiledHTTP.

(** * Concrete instances *)

Import Examples.

(** Witness of X1: text, a placeholder with a blank after its opening
    braces, and more text. *)
Lemma interpolate_is_compositional_witness :
  interpolate sample_host (VStr "Hello {{ ctx.name}}!") greeting_context
    = VStr "Hello World!".
Proof.
  destruct (interpolate_is_compositional sample_host greeting_context
              "Hello " " " "ctx.name" "!") as [_ Hi];
    [reflexivity|reflexivity|discriminate|reflexivity|reflexivity|].
  exact Hi.
Defined.

(** Witness of X3: an element appended to an array inside the object. *)
Lemma nested_set_then_get_witness :
  getNestedProperty (VObj [("xs", VArr [VNum 1; VStr "x"])]) "xs.1" = VStr "x".
Proof.
  apply (nested_set_then_get (VObj [("xs", VArr [VNum 1])]) (VStr "x")); reflexivity.
Defined.

(** Witness of X5: a number in the way is replaced, a [null] throws. *)
Lemma nested_set_through_witness :
  setNestedProperty (VObj [("a", VNum 1); ("n", VNull)]) (VStr "a.b.c") (VStr "x")
    = Done (VObj [("a", VObj [("b", VObj [("c", VStr "x")])]); ("n", VNull)]) ∧
  ∃ msg, setNestedProperty (VObj [("a", VNum 1); ("n", VNull)]) (VStr "n.b") (VStr "x")
           = Throw (JsTypeError msg).
Proof.
  split.
  - destruct (nested_set_through [("a", VNum 1); ("n", VNull)] "a" "b.c" (VStr "x"))
      as [Hfresh _]; [reflexivity|reflexivity|].
    apply Hfresh. reflexivity.
  - destruct (nested_set_through [("a", VNum 1); ("n", VNull)] "n" "b" (VStr "x"))
      as [_ Hnull]; [reflexivity|reflexivity|].
    apply Hnull. reflexivity.
Defined.

(** Witness of X6: an expression with an operator and a dot is not
    evaluated, one without a dot is. *)
Lemma dotted_expressions_are_paths_witness :
  interpolate sample_host (VStr "{{ctx.author || 'AI Assistant'}} {{true}}")
    greeting_context
  = interpolate eager_host (VStr "{{ctx.author || 'AI Assistant'}} {{true}}")
      greeting_context ∧
  interpolate eager_host (VStr "{{ctx.author || 'AI Assistant'}} {{true}}")
    greeting_context = VStr "undefined true".
Proof.
  split; [|reflexivity].
  apply (dotted_expressions_are_paths sample_host eager_host).
  - reflexivity.
  - intros expr ctx result Hd. simpl. rewrite Hd. reflexivity.
Defined.

(** Witness of X7. *)
Lemma trailing_blank_joins_last_key_witness :
  interpolate sample_host (VStr "{{ctx.name }}") greeting_context = VStr "undefined" ∧
  interpolate sample_host (VStr "{{ctx.name}}") greeting_context = VStr "World".
Proof.
  split; [|reflexivity].
  apply (trailing_blank_joins_last_key sample_host
           (VObj [("name", VStr "World")]) VUndef "ctx" "name"); reflexivity.
Defined.

(** Witness of X8: the first call fails, the second returns. *)
Lemma Node_recovers_after_failures_witness :
  _run 0 1%positive (store_of (plain_node 3 1 flaky_exec return_result))
    = (Done (VStr "input"),
       {| nodes := {[ 1%positive :=
                        set_curRetry 1 (plain_node 3 1 flaky_exec return_result) ]};
          tables := {[ 1%positive := ∅ ]};
          outer := {| shared := VObj []; world := 2%nat |};
          log := [EvExec (VStr "input"); EvSleep 1000; EvExec (VStr "input")] |}).
Proof.
  destruct (Node_recovers_after_failures 0 1%positive
              (store_of (plain_node 3 1 flaky_exec return_result))
              (plain_node 3 1 flaky_exec return_result) (VStr "input")
              {| shared := VObj []; world := O |} 1
              [JsError "first call fails"] {| shared := VObj []; world := 1%nat |}
              (VStr "input") {| shared := VObj []; world := 2%nat |})
    as (_ & _ & _ & _ & Hrun); [reflexivity..|simpl; lia|].
  rewrite Hrun. unfold stage. simpl. by rewrite insert_singleton_eq.
Defined.

(** Witness of X9: no attempt allowed. *)
Lemma Node_without_attempts_witness :
  _run 0 1%positive (store_of (plain_node 0 0 flaky_exec return_result))
    = (Done VUndef,
       {| nodes := {[ 1%positive := plain_node 0 0 flaky_exec return_result ]};
          tables := {[ 1%positive := ∅ ]};
          outer := {| shared := VObj []; world := O |};
          log := [] |}).
Proof.
  destruct (Node_without_attempts 0 1%positive
              (store_of (plain_node 0 0 flaky_exec return_result))
              (plain_node 0 0 flaky_exec return_result) (VStr "input")
              {| shared := VObj []; world := O |})
    as (_ & Hrun); [reflexivity|reflexivity|simpl; lia|reflexivity|].
  rewrite Hrun. unfold stage. simpl. by rewrite insert_singleton_eq.
Defined.

(** Witness of X10: two elements, two calls, two results in order. *)
Lemma BatchNode_maps_in_order_witness :
  (_exec 1%positive (VArr [VStr "a1"; VStr "a2"]) (batch_store counting_exec)).1
    = Done (VArr [VStr "a1"; VStr "a2"]) ∧
  log (_exec 1%positive (VArr [VStr "a1"; VStr "a2"]) (batch_store counting_exec)).2
    = [EvExec (VStr "a1"); EvExec (VStr "a2")].
Proof.
  destruct (BatchNode_maps_in_order 1%positive (batch_store counting_exec)
              (batch_of counting_exec) (VArr [VStr "a1"; VStr "a2"])
              [VStr "a1"; VStr "a2"] [VStr "a1"; VStr "a2"]
              {| shared := VObj []; world := 2%nat |})
    as (Hrun & _); [reflexivity|reflexivity|simpl; lia|reflexivity|reflexivity|].
  rewrite Hrun. split; reflexivity.
Defined.

(** Witness of X11, on the hand-wired flow: a second successor of the
    first node, under the label "again". *)
Lemma next_then_getNextNode_witness :
  ∃ s', next 1%positive 3%positive "again" two_step_store = (Done 3%positive, s') ∧
        getNextNode 1%positive (VStr "again") s' = (Done (Successor 3%positive), s') ∧
        (getNextNode 1%positive VNull s').1 = Done (Successor 2%positive).
Proof.
  destruct (next_then_getNextNode 1%positive 3%positive "again" two_step_store
              (leaf (VStr "") 1%positive))
    as (s' & Hnext & _ & Hget & Hother & _); [reflexivity|].
  exists s'. split; [exact Hnext|]. split.
  - apply (Hget 1%positive (leaf (VStr "") 1%positive)); reflexivity.
  - rewrite Hother; [reflexivity|discriminate|reflexivity|discriminate].
Defined.

(** Witness of X12. *)
Lemma conditionalConnect_wires_witness :
  (∃ s', conditionalConnect 2%positive (VStr "back") 1%positive two_step_store
           = (Done 1%positive, s') ∧
         getNextNode 2%positive (VStr "back") s' = (Done (Successor 1%positive), s')) ∧
  (∃ msg, conditionalConnect 2%positive (VNum 7) 1%positive two_step_store
            = (Throw (JsTypeError msg), two_step_store)).
Proof.
  split.
  - destruct (conditionalConnect_wires 2%positive 1%positive (VStr "back") two_step_store
                (leaf (VStr "done") 2%positive)) as (Hstr & _ & _); [reflexivity|].
    apply (Hstr "back"); [reflexivity|discriminate].
  - destruct (conditionalConnect_wires 2%positive 1%positive (VNum 7) two_step_store
                (leaf (VStr "done") 2%positive)) as (_ & Hother & _); [reflexivity|].
    apply Hother. discriminate.
Defined.

Lemma chain_ids_distinct :
  ∀ (i j : nat) (a b : value), (i < j)%nat →
    ids_of [data_node "a"; data_node "b"] !! i = Some a →
    ids_of [data_node "a"; data_node "b"] !! j = Some b →
    Js.same_value_zero a b = false.
Proof.
  intros [|[|i]] [|[|j]] a b Hij Ha Hb; simpl in *; try lia; try discriminate.
  injection Ha as <-. injection Hb as <-. reflexivity.
Defined.

Lemma chain_factories_return (n : value)
    (f : value → M (@state unit) ref) (s0 : @state unit) :
  n ∈ [data_node "a"; data_node "b"] →
  registry bare_compiler !! kind_of n = Some f →
  ∃ r s1, f n s0 = (Done r, s1).
Proof.
  intros Hn Hf.
  apply (default_registry_returns sample_host None VUndef no_fetch (kind_of n) f n s0 1 0 Hf);
    apply elem_of_cons in Hn as [->|Hn]; try reflexivity;
    apply list_elem_of_singleton in Hn as ->; reflexivity.
Defined.

(** Witness of X13, on the chain of two data nodes. *)
Lemma compile_accepts_only_well_formed_witness :
  ∃ nodeConfigs edges,
    well_formed (registry bare_compiler) chain nodeConfigs edges ∧
    length nodeConfigs = 2%nat ∧ length edges = 1%nat.
Proof.
  destruct (compile bare_compiler chain (empty_store (VObj []) tt))
    as [[out| | |] s'] eqn:E; try (vm_compute in E; discriminate E).
  destruct (compile_accepts_only_well_formed bare_compiler chain _ out s' eq_refl E)
    as (nodeConfigs & edges & Hwf & _).
  exists nodeConfigs, edges. split; [exact Hwf|].
  destruct Hwf as (_ & _ & _ & _ & Hn & _ & He & _).
  vm_compute in Hn, He. inversion Hn. inversion He. split; reflexivity.
Defined.


(** Witness of X15: a [parallel] and a [batch] node make an
    [AsyncBatchFlow]. *)
Lemma compile_builds_by_kind_witness :
  ∃ out s' fl,
    compile bare_compiler mixed (empty_store (VObj []) tt) = (Done out, s') ∧
    nodes s' !! flow out = Some fl ∧
    class fl = CAsyncBatchFlow ∧
    params fl = VObj [("model", VStr "m")] ∧
    outer s' = {| shared := VObj []; world := tt |}.
Proof.
  destruct (compile bare_compiler mixed (empty_store (VObj []) tt))
    as [[out| | |] s'] eqn:E; try (vm_compute in E; discriminate E).
  destruct (compile_builds_by_kind sample_host None VUndef no_fetch mixed _ out s'
              eq_refl E)
    as (nodeConfigs & fl & Hn & _ & Hfl & Hc & _ & _ & Hp & Ho & _).
  exists out, s', fl. split; [reflexivity|]. split; [exact Hfl|].
  vm_compute in Hn. inversion Hn. subst nodeConfigs.
  split; [exact Hc|]. split; [exact Hp|exact Ho].
Defined.

(** Witness of X16. *)
Lemma run_rejects_async_entry_witness :
  (compile_and_run bare_compiler async_entry 1 (empty_store (VObj []) tt)).1
    = Throw (JsError "Use runAsync.").
Proof.
  unfold compile_and_run.
  destruct (compile bare_compiler async_entry (empty_store (VObj []) tt))
    as [[out| | |] s'] eqn:E; try (vm_compute in E; discriminate E).
  destruct (run_rejects_async_entry sample_host None VUndef no_fetch async_entry _ out s'
              0 0 [VObj [("id", VStr "a"); ("kind", VStr "async")]]
              (VObj [("id", VStr "a"); ("kind", VStr "async")]) E)
    as (start & s'' & _ & Hrun & _); [reflexivity..|].
  erewrite bind_Done by exact E. by rewrite Hrun.
Defined.



(** Witness of X19. *)
Lemma data_node_lifecycle_witness :
  let s1 := (createDataNode sample_host note
               (empty_store (VObj [("name", VStr "World")]) tt)).2 in
  (_run 0 1%positive s1).1 = Done (VStr "done") ∧
  outer (_run 0 1%positive s1).2 = outer s1.
Proof.
  intros s1.
  destruct (data_node_lifecycle sample_host note
              (empty_store (VObj [("name", VStr "World")]) tt) 1%positive s1 0)
    as (nd & _ & _ & Hplain); [reflexivity|].
  rewrite Hplain; [split; reflexivity|reflexivity].
Defined.

(** Witness of X22. *)
Lemma validateConfig_accepts_only_witness :
  ∃ nodes edges,
    Js.get_own chain "nodes" = VArr nodes ∧ Js.get_own chain "edges" = VArr edges ∧
    includes (ids_of nodes) (VStr "a") = true.
Proof.
  destruct (validateConfig_accepts_only chain)
    as (nodes & edges & _ & Hn & He & _ & _ & _ & Hentry & _); [reflexivity|].
  exists nodes, edges. split; [exact Hn|]. split; [exact He|exact Hentry].
Defined.

(** Witness of X23. *)
Lemma validated_description_compiles_witness :
  ∃ out s', compile bare_compiler chain (empty_store (VObj []) tt) = (Done out, s') ∧
            fst <$> compiled_nodes out = [VStr "a"; VStr "b"].
Proof.
  apply (validated_description_compiles bare_compiler chain
           [data_node "a"; data_node "b"]).
  - intros k f cfg Hk. eapply default_registry_creates. exact Hk.
  - reflexivity.
  - reflexivity.
  - intros n Hn. apply elem_of_cons in Hn as [->|Hn]; [by eexists|].
    apply list_elem_of_singleton in Hn as ->. by eexists.
  - intros n f s0. apply chain_factories_return.
  - apply chain_ids_distinct.
Defined.


Import EngineExamples.

(** Witness of X25: two parameter objects, two runs of the graph, and
    [null] as the result. *)
Lemma BatchFlow_result_is_null_witness :
  ∃ s', BatchFlow_run 2 3%positive batch_flow_store = (Done VNull, s') ∧
        unchanged (nodes batch_flow_store) (tables batch_flow_store) s' ∧
        visits 1%positive (log s') = 2%nat ∧ visits 2%positive (log s') = 2%nat.
Proof.
  destruct (BatchFlow_run 2 3%positive batch_flow_store) as [[r| | |] s'] eqn:E;
    try (vm_compute in E; discriminate E).
  destruct (BatchFlow_result_is_null 2 3%positive batch_flow_store two_step_batch eq_refl)
    as (Hnull & _ & _).
  destruct (Hnull r s' E eq_refl) as [-> Hun].
  exists s'. split; [reflexivity|]. split; [exact Hun|].
  pose proof (f_equal (λ x, log x.2) E) as Hlog. cbn [snd] in Hlog.
  rewrite <- Hlog. split; vm_compute; reflexivity.
Defined.


(** Witness of X27. *)
Lemma nested_flow_rejects_async_start_witness :
  ∃ a', orchAsync_loop 2 1%positive (VObj []) nested_store
          = (Throw (JsError "Use runAsync."), a') ∧
        log (sync a') = [EvVisit 2%positive].
Proof.
  destruct (nested_flow_rejects_async_start 0 1%positive (VObj []) nested_store
              inner_flow 2%positive async_leaf VUndef {| shared := VObj []; world := tt |})
    as (a' & Hrun & _ & Hlog & _); try reflexivity.
  exists a'. split; [exact Hrun|exact Hlog].
Defined.

(** Witness of X28: the flow of two nodes, as an asynchronous flow. *)
Lemma AsyncFlow_of_sync_nodes_runs_as_Flow_witness :
  (runAsync 2 3%positive two_step_async).1 = Done (VStr "done") ∧
  log (sync (runAsync 2 3%positive two_step_async).2)
    = [EvVisit 1%positive; EvExec VUndef; EvVisit 2%positive; EvExec VUndef].
Proof.
  destruct (AsyncFlow_of_sync_nodes_runs_as_Flow 2 3%positive two_step_async) as [_ Hrun].
  - intros r nd Hr. unfold two_step_async in Hr. cbn [sync nodes] in Hr.
    apply lookup_insert_Some in Hr as [[_ <-]|[_ Hr]]; [reflexivity|].
    apply lookup_insert_Some in Hr as [[_ <-]|[_ Hr]]; [reflexivity|].
    apply lookup_singleton_Some in Hr as [_ <-]. reflexivity.
  - intros t tab k r Ht Hk. unfold two_step_async in Ht. cbn [sync tables] in Ht.
    apply lookup_insert_Some in Ht as [[_ <-]|[_ Ht]].
    { apply lookup_singleton_Some in Hk as [_ <-]. by eexists. }
    apply lookup_insert_Some in Ht as [[_ <-]|[_ Ht]]; [by rewrite lookup_empty in Hk|].
    apply lookup_singleton_Some in Ht as [_ <-]. by rewrite lookup_empty in Hk.
  - destruct (Hrun two_step_async_flow) as [H1 H2]; try reflexivity.
    rewrite H1, H2. split; vm_compute; reflexivity.
Defined.

(** Witness of X29: the collection under [docs], copied to
    [_lastResult]. *)
Lemma batch_node_copies_collection_witness :
  let s1 := (createBatchNode sample_host collect
               (empty_store (VObj [("docs", VArr [VStr "x"; VStr "y"])]) tt)).2 in
  (_run 0 1%positive s1).1 = Done (VStr "done") ∧
  shared (outer (_run 0 1%positive s1).2)
    = VObj [("docs", VArr [VStr "x"; VStr "y"]);
            ("_lastResult", VArr [VStr "x"; VStr "y"])].
Proof.
  intros s1.
  destruct (batch_node_copies_collection sample_host collect
              (empty_store (VObj [("docs", VArr [VStr "x"; VStr "y"])]) tt)
              1%positive s1 0 1 [("docs", VArr [VStr "x"; VStr "y"])]) as [Hall _];
    [reflexivity|reflexivity|lia|reflexivity|reflexivity|reflexivity|reflexivity|].
  destruct (Hall [VStr "x"; VStr "y"] eq_refl) as (s2 & Hrun & Ho & _).
  rewrite Hrun. cbn [fst snd]. rewrite Ho. split; reflexivity.
Defined.

